(** * Background-removal engine of bg-remover-app

    A shallow embedding of [remover/bg_processor.py] and of the method
    dispatch of [remover/views.py], followed by the properties of the
    engine that the specification states.

    Conventions of the embedding.
    - Python exceptions are [None] in the [option] monad; [try_except]
      is [try: ... except Exception: ...].
    - A PIL image is a [Grid]: its size and its pixels in row-major
      order.  The three decoded modes the engine is modelled on are
      ["L"], ["RGB"] and ["RGBA"] ([Image]).
    - Channel values are [Z]; coordinates and sizes are [nat].
    - numpy [uint8] arithmetic is written with its wrap-around modulo 256.
    - The two comparisons between float64 values that decide what
      strategies 2 and 4 write are the methods of the class [Float64]:
      the engine is written over any outcome of them.  The instance
      [real_arithmetic] decides them on the reals; it is named
      wherever it is used: at the concrete images, and in the
      properties that speak of the real-number distances.  The
      distances of strategies 1 and 3 are square roots of integers
      compared with integers, and are decided on the squares. *)

From Stdlib Require Import ZArith Lia List Reals Lra.
From stdpp Require Import base tactics option list numbers strings gmap
  sorting.

Open Scope Z_scope.

(** ** Exceptions and loops *)

(** [try: body  except Exception: handler]. *)
Definition try_except {A} (body handler : option A) : option A :=
  match body with
  | Some a => Some a
  | None => handler
  end.

(** [for a in l: s = body a s], stopping at the first exception. *)
Fixpoint for_each {A S} (l : list A) (body : A → S → option S) (s : S)
  : option S :=
  match l with
  | [] => Some s
  | a :: l' => s' ← body a s; for_each l' body s'
  end.

(** [range(n)]. *)
Definition range (n : nat) : list nat := seq 0 n.

(** [range(0, stop, step)] for a positive [step]. *)
Definition range_step (stop step : nat) : list nat :=
  (λ k, k * step)%nat <$> seq 0 ((stop + step - 1) / step)%nat.

(** ** Images *)

Record Grid (A : Type) := mkGrid {
  width : nat;
  height : nat;
  cells : list A
}.
Arguments mkGrid {A} _ _ _.
Arguments width {A} _.
Arguments height {A} _.
Arguments cells {A} _.

(** An RGBA pixel as PIL returns it: the tuple [(r, g, b, a)]. *)
Definition Pixel : Type := Z * Z * Z * Z.
Definition RGB : Type := Z * Z * Z.

Definition red (p : Pixel) : Z := p.1.1.1.
Definition green (p : Pixel) : Z := p.1.1.2.
Definition blue (p : Pixel) : Z := p.1.2.
Definition alpha (p : Pixel) : Z := p.2.

(** A decoded image, by mode. *)
Inductive Image :=
  | ImgL (g : Grid Z)
  | ImgRGB (g : Grid RGB)
  | ImgRGBA (g : Grid Pixel).

Section Grid.
Context {A : Type}.

(** The grid holds exactly [w * h] cells. *)
Definition has_size (w h : nat) (g : Grid A) : Prop :=
  width g = w ∧ height g = h ∧ length (cells g) = (h * w)%nat.

Definition in_bounds (g : Grid A) (x y : nat) : bool :=
  (x <? width g)%nat && (y <? height g)%nat.

(** [Image.new(mode, (w, h), color)]. *)
Definition Image_new (w h : nat) (color : A) : Grid A :=
  mkGrid w h (replicate (h * w) color).

(** [g.getpixel((x, y))]; [IndexError] outside the image. *)
Definition getpixel (g : Grid A) (x y : nat) : option A :=
  if in_bounds g x y then cells g !! (y * width g + x)%nat else None.

(** [g.putpixel((x, y), v)]; [IndexError] outside the image. *)
Definition putpixel (g : Grid A) (x y : nat) (v : A) : option (Grid A) :=
  if in_bounds g x y
  then Some (mkGrid (width g) (height g)
               (<[(y * width g + x)%nat := v]> (cells g)))
  else None.
End Grid.

Definition grid_map {A B} (f : A → B) (g : Grid A) : Grid B :=
  mkGrid (width g) (height g) (f <$> cells g).

Definition image_width (img : Image) : nat :=
  match img with
  | ImgL g => width g | ImgRGB g => width g | ImgRGBA g => width g
  end.

Definition image_height (img : Image) : nat :=
  match img with
  | ImgL g => height g | ImgRGB g => height g | ImgRGBA g => height g
  end.

(** A decoded image: positive size and one pixel per position. *)
Definition image_ok (img : Image) : Prop :=
  (0 < image_width img)%nat ∧ (0 < image_height img)%nat ∧
  match img with
  | ImgL g => has_size (width g) (height g) g
  | ImgRGB g => has_size (width g) (height g) g
  | ImgRGBA g => has_size (width g) (height g) g
  end.

(** [img.convert("RGBA")]: grey is copied to the three colour
    channels, and an image without alpha becomes fully opaque. *)
Definition convert_RGBA (img : Image) : Grid Pixel :=
  match img with
  | ImgL g => grid_map (λ v, (v, v, v, 255)) g
  | ImgRGB g => grid_map (λ c : RGB, (c.1.1, c.1.2, c.2, 255)) g
  | ImgRGBA g => g
  end.

(** [img.convert("RGB")]: the alpha channel is dropped. *)
Definition convert_RGB (img : Image) : Grid RGB :=
  match img with
  | ImgL g => grid_map (λ v, (v, v, v)) g
  | ImgRGB g => g
  | ImgRGBA g => grid_map (λ p : Pixel, (red p, green p, blue p)) g
  end.


(** ** The imaging library

    The filters of PIL that the engine calls are not part of the
    repository; they are the operations of a type class, and what the
    proofs use of them are the laws of [PILLaws]: a filter returns an
    image of the size it was given.  The statements about images of
    one colour also use [PILBlankLaws], stated further down. *)

Class PIL := {
  (** [im.filter(ImageFilter.MedianFilter(size=3))] *)
  MedianFilter3 : Grid Z → Grid Z;
  (** [im.filter(ImageFilter.GaussianBlur(radius=2))] *)
  GaussianBlur2 : Grid Z → Grid Z;
  (** [img.convert('L')] *)
  convert_L : Image → Grid Z;
  (** [im.filter(ImageFilter.FIND_EDGES)] *)
  FIND_EDGES : Grid Z → Grid Z;
  (** [ImageEnhance.Contrast(im).enhance(2.0)] *)
  Contrast_enhance2 : Grid Z → Grid Z;
  (** [im.filter(ImageFilter.EDGE_ENHANCE_MORE)] *)
  EDGE_ENHANCE_MORE : Grid Z → Grid Z;
  (** [Image.blend(im1, im2, 0.5)] *)
  blend_half : Grid Z → Grid Z → Grid Z
}.

Class PILLaws (P : PIL) : Prop := {
  MedianFilter3_size w h g :
    has_size w h g → has_size w h (MedianFilter3 g);
  GaussianBlur2_size w h g :
    has_size w h g → has_size w h (GaussianBlur2 g);
  convert_L_size img :
    image_ok img →
    has_size (image_width img) (image_height img) (convert_L img);
  FIND_EDGES_size w h g :
    has_size w h g → has_size w h (FIND_EDGES g);
  Contrast_enhance2_size w h g :
    has_size w h g → has_size w h (Contrast_enhance2 g);
  EDGE_ENHANCE_MORE_size w h g :
    has_size w h g → has_size w h (EDGE_ENHANCE_MORE g);
  blend_half_size w h g1 g2 :
    has_size w h g1 → has_size w h g2 → has_size w h (blend_half g1 g2)
}.

(** ** numpy arrays *)

(** An element [a[y, x]] of [np.array(img)]: a scalar when the image
    has one band, the vector of its bands otherwise. *)
Inductive ndcell :=
  | Scalar (v : Z)
  | Bands (l : list Z).

(** [np.array(img)], of shape [(height, width)] or
    [(height, width, bands)] and of dtype [uint8]. *)
Definition np_array (img : Image) : Grid ndcell :=
  match img with
  | ImgL g => grid_map Scalar g
  | ImgRGB g => grid_map (λ c : RGB, Bands [c.1.1; c.1.2; c.2]) g
  | ImgRGBA g =>
      grid_map (λ p : Pixel, Bands [red p; green p; blue p; alpha p]) g
  end.

(** [a[y, x]]. *)
Definition np_get {A} (a : Grid A) (y x : nat) : option A := getpixel a x y.

(** [a[y, x] = v]. *)
Definition np_set {A} (a : Grid A) (y x : nat) (v : A) : option (Grid A) :=
  putpixel a x y v.

(** [c[:3]]; on a numpy scalar it raises [IndexError]. *)
Definition slice3 (c : ndcell) : option (list Z) :=
  match c with
  | Scalar _ => None
  | Bands l => Some (take 3 l)
  end.

(** [a[y0:y1, x0:x1] = v]: slices are clipped to the array. *)
Definition slice_assign {A} (a : Grid A) (y0 y1 x0 x1 : nat) (v : A)
  : Grid A :=
  mkGrid (width a) (height a)
    (imap (λ i old,
       let y := (i / width a)%nat in
       let x := (i mod width a)%nat in
       if (y0 <=? y)%nat && (y <? y1)%nat && (x0 <=? x)%nat && (x <? x1)%nat
       then v else old) (cells a)).

(** [a[y, :]] and [a[:, x]]. *)
Definition np_row {A} (a : Grid A) (y : nat) : option (list A) :=
  mapM (λ x, np_get a y x) (range (width a)).

Definition np_col {A} (a : Grid A) (x : nat) : option (list A) :=
  mapM (λ y, np_get a y x) (range (height a)).

(** [uint8] subtraction and squaring wrap around modulo 256. *)
Definition uint8_sub (a b : Z) : Z := (a - b) mod 256.
Definition uint8_sq (a : Z) : Z := (a * a) mod 256.

(** [np.sum((p - c) ** 2)] on [uint8] vectors: the differences and
    their squares are [uint8], the sum is accumulated in 64 bits. *)
Definition sum_sq_diff_uint8 (p c : list Z) : Z :=
  foldr Z.add 0 (zip_with (λ a b, uint8_sq (uint8_sub a b)) p c).

(** ** The compositing loop

    Every strategy ends with the same loop, written out in each source
    function:
<<
    result = Image.new('RGBA', size, (0, 0, 0, 0))
    for x in range(width):
        for y in range(height):
            if mask.getpixel((x, y)) > threshold:
                result.putpixel((x, y), source.getpixel((x, y)))
>> *)
Definition apply_mask (threshold : Z) (w h : nat)
    (mask : Grid Z) (source : Grid Pixel) : option (Grid Pixel) :=
  for_each (range w) (λ x,
    for_each (range h) (λ y result,
      m ← getpixel mask x y;
      if threshold <? m
      then p ← getpixel source x y; putpixel result x y p
      else Some result))
    (Image_new w h (0, 0, 0, 0)).

(** ** Strategy 1: [grabcut_simulation] *)

(** The mask before the median filter.  [color_diff < 50] compares the
    square root of an integer with 50: it holds iff the integer is
    below 2500 ([sqrt_lt_50]). *)
Definition grabcut_mask (img : Image) : option (Grid Z) :=
  let img_array := np_array img in
  let height := height img_array in
  let width := width img_array in
  let mask := Image_new width height 0 in
  let center_x := (width / 2)%nat in
  let center_y := (height / 2)%nat in
  let margin_x := (width / 4)%nat in
  let margin_y := (height / 4)%nat in
  let mask := slice_assign mask (center_y - margin_y) (center_y + margin_y)
                (center_x - margin_x) (center_x + margin_x) 255 in
  center_color ← np_get img_array center_y center_x;
  for_each (range height) (λ y,
    for_each (range width) (λ x mask,
      pixel_color ← np_get img_array y x;
      p3 ← slice3 pixel_color;
      c3 ← slice3 center_color;
      let color_diff_sq := sum_sq_diff_uint8 p3 c3 in
      if color_diff_sq <? 2500 then np_set mask y x 255 else Some mask))
    mask.

Definition grabcut_simulation `{PIL} (img : Image) : option (Grid Pixel) :=
  mask ← grabcut_mask img;
  let mask_img := MedianFilter3 mask in
  apply_mask 128 (image_width img) (image_height img)
    mask_img (convert_RGBA img).

(** ** Strategy 2: [color_clustering_removal] *)

(** Channel-wise sum of a list of RGB samples. *)
Definition rgb_sum (l : list RGB) : RGB :=
  foldr (λ (c acc : RGB), (c.1.1 + acc.1.1, c.1.2 + acc.1.2, c.2 + acc.2))
    (0, 0, 0) l.

(** The outermost rows and columns, in the order the source collects
    them: [a[0, :]], [a[-1, :]], [a[:, 0]], [a[:, -1]]. *)
Definition edge_pixels (img_array : Grid RGB) : option (list RGB) :=
  top ← np_row img_array 0;
  bottom ← np_row img_array (height img_array - 1);
  left ← np_col img_array 0;
  right ← np_col img_array (width img_array - 1);
  Some (top ++ bottom ++ left ++ right).

(** The float64 comparisons of the engine.

    [farther_than_threshold edge_pixels pixel edge_distance] is the
    outcome of [distance > threshold] in [color_clustering_removal],
    where [bg_color = np.mean(edge_pixels, axis=0)],
    [distance = np.sqrt(np.sum((pixel - bg_color) ** 2))] and
    [threshold = 60 + (edge_distance * 0.5)].

    [within_tolerance width height x y item bg_color] is the outcome of
    [color_distance < tolerance] in [smart_background_removal_v2],
    where [center_distance], [max_distance], [tolerance] and
    [color_distance] are computed from the arguments with [/], [**] and
    [** 0.5].

    Both are functions of their arguments, and nothing else about them
    is used by the strategies: the rounding of [** 0.5] is that of the
    platform's [pow], so the outcomes are left open, not computed. *)
Class Float64 := {
  farther_than_threshold : list RGB → RGB → Z → bool;
  within_tolerance : nat → nat → nat → nat → Pixel → Pixel → bool
}.

Definition color_clustering_mask {F : Float64} (img : Image)
  : option (Grid Z) :=
  let img_array := convert_RGB img in
  let height := height img_array in
  let width := width img_array in
  edge_pixels ← edge_pixels img_array;
  for_each (range height) (λ y,
    for_each (range width) (λ x mask,
      pixel ← np_get img_array y x;
      let edge_distance :=
        Nat.min (Nat.min x y) (Nat.min (width - x - 1) (height - y - 1)) in
      if farther_than_threshold edge_pixels pixel (Z.of_nat edge_distance)
      then np_set mask y x 255 else Some mask))
    (Image_new width height 0).

Definition color_clustering_removal {F : Float64} `{PIL} (img : Image)
  : option (Grid Pixel) :=
  mask ← color_clustering_mask img;
  let mask_img := GaussianBlur2 mask in
  apply_mask 100 (image_width img) (image_height img)
    mask_img (convert_RGBA img).

(** ** Strategy 3: [advanced_edge_segmentation] *)

(** Squared distance from [(x, y)] to the nearest of the edge points;
    [None] is [float('inf')]. *)
Definition min_distance_sq (x y : nat) (edge_points : list (nat * nat))
  : option Z :=
  foldl (λ (m : option Z) '(ex, ey),
    let d := (Z.of_nat x - Z.of_nat ex) * (Z.of_nat x - Z.of_nat ex)
             + (Z.of_nat y - Z.of_nat ey) * (Z.of_nat y - Z.of_nat ey) in
    match m with
    | None => Some d
    | Some m' => Some (Z.min m' d)
    end) None edge_points.

(** The mask value of a pixel whose nearest edge point is at distance
    [sqrt d]: 255 below 20, [int(255 * (50 - sqrt d) / 30)] below 50 and
    0 from 50 on.  The truncation is taken on the reals:
    [255 * (50 - sqrt d) / 30 = (12750 - sqrt (65025 * d)) / 30], whose
    floor is that of the quotient with the square root rounded up
    ([sqrt_lt_20], [sqrt_lt_50], [distance_mask_value_real]). *)
Definition distance_mask_value (m : option Z) : Z :=
  match m with
  | None => 0
  | Some d =>
      if d <? 400 then 255
      else if d <? 2500 then (12750 - Z.sqrt_up (65025 * d)) / 30
      else 0
  end.

Definition create_distance_mask (edges : Grid Z) : option (Grid Z) :=
  let width := width edges in
  let height := height edges in
  let mask := Image_new width height 0 in
  edge_pixels ←
    for_each (range width) (λ x,
      for_each (range height) (λ y edge_pixels,
        e ← getpixel edges x y;
        if 50 <? e then Some (edge_pixels ++ [(x, y)])
        else Some edge_pixels))
      [];
  for_each (range width) (λ x,
    for_each (range height) (λ y mask,
      let min_distance := min_distance_sq x y (take 100 edge_pixels) in
      putpixel mask x y (distance_mask_value min_distance)))
    mask.

Definition advanced_edge_segmentation `{PIL} (img : Image)
  : option (Grid Pixel) :=
  let gray := convert_L img in
  let edges1 := FIND_EDGES gray in
  let enhanced := Contrast_enhance2 gray in
  let edges2 := EDGE_ENHANCE_MORE enhanced in
  let edges_combined := blend_half edges1 edges2 in
  mask ← create_distance_mask edges_combined;
  apply_mask 128 (image_width img) (image_height img)
    mask (convert_RGBA img).

(** ** The consensus combiner: [combine_results] *)

Definition pixel_add (s p : Pixel) : Pixel :=
  (red s + red p, green s + green p, blue s + blue p, alpha s + alpha p).

Definition pixel_div (s : Pixel) (votes : Z) : Pixel :=
  (red s / votes, green s / votes, blue s / votes, alpha s / votes).

(** The votes and the channel sums at [(x, y)]. *)
Definition count_votes (results : list (Grid Pixel)) (x y : nat)
  : option (Z * Pixel) :=
  for_each results (λ result '(votes, pixel_sum),
    pixel ← getpixel result x y;
    if 0 <? alpha pixel
    then Some (votes + 1, pixel_add pixel_sum pixel)
    else Some (votes, pixel_sum))
    (0, (0, 0, 0, 0)).

Definition combine_results (results : list (Grid Pixel))
    (original : Grid Pixel) : option (Grid Pixel) :=
  let width := width original in
  let height := height original in
  for_each (range width) (λ x,
    for_each (range height) (λ y final_result,
      '(votes, pixel_sum) ← count_votes results x y;
      if 2 <=? votes
      then putpixel final_result x y (pixel_div pixel_sum votes)
      else Some final_result))
    (Image_new width height (0, 0, 0, 0)).

(** ** Strategy 4: [smart_background_removal_v2] *)

(** [collections.Counter]: the keys in the order of their first
    insertion, each with its count. *)
Fixpoint counter_add {K} `{EqDecision K} (c : list (K * nat)) (k : K)
  : list (K * nat) :=
  match c with
  | [] => [(k, 1%nat)]
  | (k', n) :: c' =>
      if decide (k = k') then (k', S n) :: c'
      else (k', n) :: counter_add c' k
  end.

Definition Counter {K} `{EqDecision K} (l : list K) : list (K * nat) :=
  foldl counter_add [] l.

(** [c.most_common(1)]: the first entry of largest count, or the empty
    list for an empty counter. *)
Definition most_common_1 {K} (c : list (K * nat)) : list (K * nat) :=
  match c with
  | [] => []
  | e :: c' =>
      [foldl (λ best e', if (best.2 <? e'.2)%nat then e' else best) e c']
  end.

(** [Counter(sample_points).most_common(1)[0][0]]; [IndexError] when
    there is no sample. *)
Definition most_common_color (sample_points : list Pixel) : option Pixel :=
  match most_common_1 (Counter sample_points) with
  | [] => None
  | (color, _) :: _ => Some color
  end.

(** The border samples: a strip of [border_width] rows along the top
    and the bottom, then of [border_width] columns along the left and
    the right. *)
Definition sample_points (img : Grid Pixel) : option (list Pixel) :=
  let width := width img in
  let height := height img in
  let border_width := (Nat.min width height / 20)%nat in
  sample_points ←
    for_each (range_step width (Nat.max 1 (width / 50))) (λ i,
      for_each (range border_width) (λ j sample_points,
        top ← getpixel img i j;
        bottom ← getpixel img i (height - 1 - j);
        Some (sample_points ++ [top; bottom])))
      [];
  for_each (range_step height (Nat.max 1 (height / 50))) (λ i,
    for_each (range border_width) (λ j sample_points,
      left ← getpixel img j i;
      right ← getpixel img (width - 1 - j) i;
      Some (sample_points ++ [left; right])))
    sample_points.

(** [new_data]: the pixels after the classification pass. *)
Definition classify_pixels {F : Float64} (img : Grid Pixel)
    (bg_color : Pixel) : list Pixel :=
  imap (λ i item,
    let x := (i mod width img)%nat in
    let y := (i / width img)%nat in
    if within_tolerance (width img) (height img) x y item bg_color
    then (255, 255, 255, 0)
    else item) (cells img).

(** [img.putdata(new_data)]. *)
Definition putdata {A} (img : Grid A) (new_data : list A) : Grid A :=
  mkGrid (width img) (height img) new_data.

(** The binary mask of [remove_small_regions]: 255 where the pixel is
    not transparent. *)
Definition occupancy_mask (img : Grid Pixel) : option (Grid Z) :=
  for_each (range (width img)) (λ x,
    for_each (range (height img)) (λ y mask,
      p ← getpixel img x y;
      if 0 <? alpha p then putpixel mask x y 255 else Some mask))
    (Image_new (width img) (height img) 0).

Definition remove_small_regions `{PIL} (img : Grid Pixel)
  : option (Grid Pixel) :=
  mask ← occupancy_mask img;
  let mask := MedianFilter3 mask in
  apply_mask 128 (width img) (height img) mask img.

(** The body of the [try] block, from the converted image on. *)
Definition smart_v2_body {F : Float64} `{PIL} (img : Grid Pixel)
  : option (Grid Pixel) :=
  sample_points ← sample_points img;
  bg_color ← most_common_color sample_points;
  let img := putdata img (classify_pixels img bg_color) in
  remove_small_regions img.

(** ** The comparisons on the reals

    The two comparisons with every operation exact.  Both sides of each
    comparison are positive or zero, so each is decided on the squares,
    over the integers. *)

(** [distance > threshold], where [bg_color] is [sums / n] for the
    channel-wise sums [sums] of the [n] samples.  Multiplied by
    [4 * n * n], the squared comparison reads
    [4 * sum((n * pixel - sums) ** 2) > (n * (120 + edge_distance)) ** 2]
    ([farther_than_threshold_real]). *)
Definition real_farther_than_threshold (n : Z) (sums pixel : RGB)
    (edge_distance : Z) : bool :=
  let dr := n * pixel.1.1 - sums.1.1 in
  let dg := n * pixel.1.2 - sums.1.2 in
  let db := n * pixel.2 - sums.2 in
  (n * (120 + edge_distance)) * (n * (120 + edge_distance))
    <? 4 * (dr * dr + dg * dg + db * db).

(** [color_distance < tolerance] at [(x, y)], where
    [color_distance = sqrt d] with [d] the squared RGB distance to
    [bg_color], [center_distance = sqrt c], [max_distance =
    sqrt (w*w/4 + h*h/4)] and [tolerance = 30 + center_distance /
    max_distance * 40].  With [n = w*w + h*h] the test reads
    [sqrt (d*n) < 30 * sqrt n + 80 * sqrt c]; squaring once gives
    [d*n - 900*n - 6400*c < 4800 * sqrt (n*c)], which holds when the
    left side is negative and is otherwise decided on the squares
    ([within_tolerance_real]). *)
Definition real_within_tolerance (width height x y : nat)
    (item bg_color : Pixel) : bool :=
  let center_x := Z.of_nat (width / 2) in
  let center_y := Z.of_nat (height / 2) in
  let c := (Z.of_nat x - center_x) * (Z.of_nat x - center_x)
           + (Z.of_nat y - center_y) * (Z.of_nat y - center_y) in
  let n := Z.of_nat width * Z.of_nat width
           + Z.of_nat height * Z.of_nat height in
  let d := (red item - red bg_color) * (red item - red bg_color)
           + (green item - green bg_color) * (green item - green bg_color)
           + (blue item - blue bg_color) * (blue item - blue bg_color) in
  let t := d * n - 900 * n - 6400 * c in
  (t <? 0) || (t * t <? 23040000 * (n * c)).

(** The two comparisons decided on the reals. *)
Definition real_arithmetic : Float64 := {|
  farther_than_threshold edge_pixels pixel edge_distance :=
    real_farther_than_threshold (Z.of_nat (length edge_pixels))
      (rgb_sum edge_pixels) pixel edge_distance;
  within_tolerance := real_within_tolerance
|}.

(** ** The orchestrator

    [Image.open] reads the decoded image stored under a path; a path
    with no readable image raises.  The control flow of the engine's
    entry points and of the view's dispatch does not depend on what the
    strategies compute, so it is written once, over any four
    strategies, and then instantiated with the strategies above. *)

Module Orchestrator.
Section WithStrategies.
Context (fs : gmap string Image).
Context (grabcut_simulation color_clustering_removal
         advanced_edge_segmentation : Image → option (Grid Pixel)).
Context (smart_v2_body : Grid Pixel → option (Grid Pixel)).

Definition Image_open (image_path : string) : option Image :=
  fs !! image_path.

Definition smart_background_removal_v2 (image_path : string)
  : option (Grid Pixel) :=
  try_except
    (img ← Image_open image_path;
     let img := convert_RGBA img in
     smart_v2_body img)
    (original ← Image_open image_path;
     Some (convert_RGBA original)).

Definition advanced_background_removal (image_path : string)
  : option (Grid Pixel) :=
  try_except
    (img ← Image_open image_path;
     let original := convert_RGBA img in
     result1 ← grabcut_simulation img;
     result2 ← color_clustering_removal img;
     result3 ← advanced_edge_segmentation img;
     combine_results [result1; result2; result3] original)
    (smart_background_removal_v2 image_path).

Definition remove_white_background (image_path : string) :=
  smart_background_removal_v2 image_path.

Definition smart_background_removal (image_path : string) :=
  advanced_background_removal image_path.

Definition edge_based_removal (image_path : string) :=
  img ← Image_open image_path; advanced_edge_segmentation img.

Definition color_threshold_removal (image_path : string) :=
  img ← Image_open image_path; color_clustering_removal img.

(** The image-processing part of the view [home]: [method] is
    [request.POST.get('method', 'smart')], the result is [result_img],
    and [None] is an exception reaching the view's own handler, which
    reports an error instead of an image. *)
Definition home_process (method : option string) (original_path : string)
  : option (Grid Pixel) :=
  let method := default "smart" method in
  if decide (method = "white") then remove_white_background original_path
  else if decide (method = "edge") then edge_based_removal original_path
  else if decide (method = "color") then color_threshold_removal original_path
  else smart_background_removal original_path.

End WithStrategies.
End Orchestrator.

(** The engine: the orchestrator over the four strategies. *)
Section Engine.
Context {F : Float64} `{PIL} (fs : gmap string Image).

Definition smart_background_removal_v2 : string → option (Grid Pixel) :=
  Orchestrator.smart_background_removal_v2 fs smart_v2_body.

Definition advanced_background_removal : string → option (Grid Pixel) :=
  Orchestrator.advanced_background_removal fs grabcut_simulation
    color_clustering_removal advanced_edge_segmentation smart_v2_body.

Definition remove_white_background : string → option (Grid Pixel) :=
  Orchestrator.remove_white_background fs smart_v2_body.

Definition smart_background_removal : string → option (Grid Pixel) :=
  Orchestrator.smart_background_removal fs grabcut_simulation
    color_clustering_removal advanced_edge_segmentation smart_v2_body.

Definition edge_based_removal : string → option (Grid Pixel) :=
  Orchestrator.edge_based_removal fs advanced_edge_segmentation.

Definition color_threshold_removal : string → option (Grid Pixel) :=
  Orchestrator.color_threshold_removal fs color_clustering_removal.

Definition home_process : option string → string → option (Grid Pixel) :=
  Orchestrator.home_process fs grabcut_simulation color_clustering_removal
    advanced_edge_segmentation smart_v2_body.

End Engine.

(** ** A reference backend

    An executable stand-in for the filters of PIL, on 3×3 windows with
    the border pixels repeated outside the image.  It shows that the
    laws of [PILLaws] can be met and lets the engine run on concrete
    images; the general theorems hold for every backend. *)

Definition clip (v : Z) : Z := Z.max 0 (Z.min 255 v).

Definition window3 (g : Grid Z) (x y : nat) : list Z :=
  dy ← [0; 1; 2]%nat;
  dx ← [0; 1; 2]%nat;
  [default 0 (getpixel g (Nat.min (width g - 1) (x + dx - 1))
                         (Nat.min (height g - 1) (y + dy - 1)))].

Definition filter3 (f : list Z → Z) (g : Grid Z) : Grid Z :=
  mkGrid (width g) (height g)
    (imap (λ i _, f (window3 g (i mod width g) (i / width g))) (cells g)).

Definition list_sum (l : list Z) : Z := foldr Z.add 0 l.

Definition median (l : list Z) : Z :=
  default 0 (merge_sort Z.le l !! (length l / 2)%nat).

Definition luma (r g b : Z) : Z := (299 * r + 587 * g + 114 * b) / 1000.

Definition reference_PIL : PIL := {|
  MedianFilter3 := filter3 median;
  GaussianBlur2 := filter3 (λ win, list_sum win / 9);
  convert_L img :=
    match img with
    | ImgL g => g
    | ImgRGB g => grid_map (λ c : RGB, luma c.1.1 c.1.2 c.2) g
    | ImgRGBA g => grid_map (λ p : Pixel, luma (red p) (green p) (blue p)) g
    end;
  FIND_EDGES := filter3 (λ win, clip (9 * default 0 (win !! 4%nat)
                                      - list_sum win));
  Contrast_enhance2 g :=
    let mean := list_sum (cells g) / Z.max 1 (Z.of_nat (length (cells g))) in
    grid_map (λ v, clip (mean + 2 * (v - mean))) g;
  EDGE_ENHANCE_MORE := filter3 (λ win, clip (10 * default 0 (win !! 4%nat)
                                             - list_sum win));
  blend_half g1 g2 :=
    mkGrid (width g1) (height g1)
      (zip_with (λ u v, (u + v) / 2) (cells g1) (cells g2))
|}.

(** ** Concrete images *)

(** A 1×1 RGB image, a 1×1 grey image and a 1×1 RGBA image whose only
    pixel is transparent. *)
Definition one_pixel : Image := ImgRGB (mkGrid 1 1 [(10, 20, 30)]).
Definition one_grey_pixel : Image := ImgL (mkGrid 1 1 [7]).
Definition one_clear_pixel : Image := ImgRGBA (mkGrid 1 1 [(10, 20, 30, 0)]).

(** A 4×4 black RGB image whose top-left pixel is [(64, 0, 0)]. *)
Definition dark_red_corner : Image :=
  ImgRGB (mkGrid 4 4 ((64, 0, 0) :: replicate 15 (0, 0, 0))).

(** Three 2×1 strategy results and the converted original. *)
Definition vote_a : Grid Pixel := mkGrid 2 1 [(10, 20, 30, 255); (0, 0, 0, 0)].
Definition vote_b : Grid Pixel := mkGrid 2 1 [(13, 20, 31, 255); (0, 0, 0, 0)].
Definition vote_c : Grid Pixel := mkGrid 2 1 [(0, 0, 0, 0); (9, 9, 9, 255)].

(** A 2×2 RGB image of one colour. *)
Definition flat_block : Image :=
  ImgRGB (mkGrid 2 2 (replicate 4 (10, 20, 30))).

(** Whether the decoded image carries an alpha channel. *)
Definition has_alpha (img : Image) : bool :=
  match img with
  | ImgRGBA _ => true
  | _ => false
  end.

(** The uploads directory with one readable file. *)
Definition uploads (img : Image) : gmap string Image :=
  {[ "upload.png" := img ]}.

(** The squared Euclidean distance between two colours, channel by
    channel and without wrap-around. *)
Definition distance_sq (p c : list Z) : Z :=
  foldr Z.add 0 (zip_with (λ a b, (a - b) * (a - b)) p c).

(** ** Vocabulary of the statements *)

(** One iteration of a loop that paints a grid: [pick] computes what
    to write at a position, if anything, and may raise. *)
Definition paint_step {A} (pick : nat * nat → option (option A))
    (p : nat * nat) (g : Grid A) : option (Grid A) :=
  c ← pick p;
  match c with
  | Some v => putpixel g p.1 p.2 v
  | None => Some g
  end.

Definition painted {A} (pick : nat * nat → option (option A)) (g : Grid A)
    (p : nat * nat) : option A :=
  match pick p with
  | Some (Some v) => Some v
  | _ => getpixel g p.1 p.2
  end.

(** The pixels that vote foreground: those that are not transparent. *)
Definition voters (ps : list Pixel) : list Pixel :=
  List.filter (λ p, 0 <? alpha p) ps.

Definition channel_sum (channel : Pixel → Z) (ps : list Pixel) : Z :=
  foldr (λ p acc, channel p + acc) 0 ps.

(** The rectangle that [grabcut_simulation] seeds as foreground. *)
Definition in_center_rect (w h x y : nat) : bool :=
  ((h / 2 - h / 4 <=? y) && (y <? h / 2 + h / 4)
   && (w / 2 - w / 4 <=? x) && (x <? w / 2 + w / 4))%nat.

(** An image with more than one band. *)
Definition multiband (img : Image) : bool :=
  match img with
  | ImgL _ => false
  | _ => true
  end.

(** The pixels of [img] that the sampling loops may read. *)
Definition pixel_of (img : Grid Pixel) (p : Pixel) : Prop :=
  ∃ x y, getpixel img x y = Some p.

(** What strategy 4 returns for a readable image: the result of its
    body, or the converted original when the body raises. *)
Definition strategy4_result (s4 : Grid Pixel → option (Grid Pixel))
    (img : Image) : Grid Pixel :=
  default (convert_RGBA img) (s4 (convert_RGBA img)).

(** The ensemble: strategies 1, 2 and 3, then the combiner. *)
Definition ensemble (s1 s2 s3 : Image → option (Grid Pixel)) (img : Image)
  : option (Grid Pixel) :=
  result1 ← s1 img;
  result2 ← s2 img;
  result3 ← s3 img;
  combine_results [result1; result2; result3] (convert_RGBA img).

(** The selectors that the view recognises besides the default. *)
Definition recognised (method : option string) : Prop :=
  method = Some "white" ∨ method = Some "edge" ∨ method = Some "color".

(** Equality of tuples, component by component. *)
Ltac pair_eq :=
  repeat match goal with
         | |- (_, _) = (_, _) => apply pair_equal_spec; split
         end.

(** A mask that is 0 everywhere. *)
Definition blank (w h : nat) (g : Grid Z) : Prop :=
  ∀ x y, (x < w)%nat → (y < h)%nat → getpixel g x y = Some 0.

(** Smoothing a mask that is 0 everywhere leaves it 0 everywhere: what
    the statements about images of one colour use of the median filter
    and of the blur. *)
Class PILBlankLaws (P : PIL) : Prop := {
  MedianFilter3_blank w h g :
    has_size w h g → blank w h g → blank w h (MedianFilter3 g);
  GaussianBlur2_blank w h g :
    has_size w h g → blank w h g → blank w h (GaussianBlur2 g)
}.

(** What the properties of images of one colour use of float64
    arithmetic: the distance of a colour to itself is [0.0].  In
    strategy 2 the mean of equal samples is that sample (the sum of
    the samples is an integer far below 2^53 and the quotient is
    exact), so [distance] is [np.sqrt(0.0) = 0.0], which is not above
    a threshold of at least 60.  In strategy 4 [color_distance] is
    [0 ** 0.5 = 0.0], which is below a tolerance of at least 30. *)
Class Float64Laws (F : Float64) : Prop := {
  farther_than_threshold_same edge_pixels (c : RGB) edge_distance :
    edge_pixels ≠ [] → Forall (λ v, v = c) edge_pixels →
    0 ≤ edge_distance →
    farther_than_threshold edge_pixels c edge_distance = false;
  within_tolerance_same width height x y (item bg_color : Pixel) :
    (x < width)%nat → (y < height)%nat →
    (red item, green item, blue item)
      = (red bg_color, green bg_color, blue bg_color) →
    within_tolerance width height x y item bg_color = true
}.

(** Every pixel of the image has the colour [c]. *)
Definition uniform_rgb (img : Grid Pixel) (c : RGB) : Prop :=
  ∀ x y p, getpixel img x y = Some p → (red p, green p, blue p) = c.

(** An image that is transparent at every position. *)
Definition fully_transparent (w h : nat) (out : Grid Pixel) : Prop :=
  ∀ x y, (x < w)%nat → (y < h)%nat →
         ∃ p, getpixel out x y = Some p ∧ alpha p = 0.

(** The squared RGB distance of strategy 4. *)
Definition rgb_distance_sq (item bg_color : Pixel) : Z :=
  (red item - red bg_color) * (red item - red bg_color)
  + (green item - green bg_color) * (green item - green bg_color)
  + (blue item - blue bg_color) * (blue item - blue bg_color).

(** [color_distance] and [tolerance] of strategy 4, on the reals. *)
Definition color_distance (item bg_color : Pixel) : R :=
  sqrt (IZR (rgb_distance_sq item bg_color)).

Definition tolerance (width height x y : nat) : R :=
  let center_x := Z.of_nat (width / 2) in
  let center_y := Z.of_nat (height / 2) in
  let center_distance :=
    sqrt (IZR ((Z.of_nat x - center_x) * (Z.of_nat x - center_x)
               + (Z.of_nat y - center_y) * (Z.of_nat y - center_y))) in
  let max_distance :=
    sqrt ((INR width / 2) * (INR width / 2)
          + (INR height / 2) * (INR height / 2)) in
  (30 + center_distance / max_distance * 40)%R.

(** [bg_color], [distance] and [threshold] of strategy 2, on the
    reals: the mean of the samples is their sum divided by their
    number. *)
Definition clustering_distance (n : Z) (sums pixel : RGB) : R :=
  sqrt ((IZR pixel.1.1 - IZR sums.1.1 / IZR n)
          * (IZR pixel.1.1 - IZR sums.1.1 / IZR n)
        + (IZR pixel.1.2 - IZR sums.1.2 / IZR n)
          * (IZR pixel.1.2 - IZR sums.1.2 / IZR n)
        + (IZR pixel.2 - IZR sums.2 / IZR n)
          * (IZR pixel.2 - IZR sums.2 / IZR n)).

Definition clustering_threshold (edge_distance : Z) : R :=
  (60 + IZR edge_distance * 0.5)%R.

(** ** Vocabulary of the further properties *)

(** A 20×20 RGB image of one colour. *)
Definition flat_tile : Image := ImgRGB (Image_new 20 20 (10, 20, 30)).

(** A mask that is 255 everywhere. *)
Definition full (w h : nat) (g : Grid Z) : Prop :=
  ∀ x y, (x < w)%nat → (y < h)%nat → getpixel g x y = Some 255.

(** The median of a mask that is 255 everywhere is 255 everywhere:
    what the statements about strategy 1 use of the median filter. *)
Class PILFullLaws (P : PIL) : Prop := {
  MedianFilter3_full w h g :
    has_size w h g → full w h g → full w h (MedianFilter3 g)
}.

(** The source pixel, or the transparent black of a fresh canvas. *)
Definition kept_or_blank (p q : Pixel) : Prop := q = p ∨ q = (0, 0, 0, 0).

(** The source pixel [p], or one of the two transparent values that
    the engine writes. *)
Definition kept_or_cleared (p q : Pixel) : Prop :=
  q = p ∨ q = (0, 0, 0, 0) ∨ q = (255, 255, 255, 0).

(** A colour found on the outermost rows or columns of an array. *)
Definition on_border (a : Grid RGB) (c : RGB) : Prop :=
  ∃ x y, getpixel a x y = Some c ∧
         (x = 0 ∨ x = width a - 1 ∨ y = 0 ∨ y = height a - 1)%nat.

(** The positions whose edge value is above 50, in the order in which
    [create_distance_mask] scans them: column by column, each column
    from top to bottom. *)
Definition edge_points (edges : Grid Z) : list (nat * nat) :=
  List.filter (λ p : nat * nat, 50 <? default 0 (getpixel edges p.1 p.2))
    (list_prod (range (width edges)) (range (height edges))).

(** The order in which the loops of [create_distance_mask] visit the
    positions: [x] in the outer loop, [y] in the inner one. *)
Definition scanned_before (p q : nat * nat) : Prop :=
  (p.1 < q.1)%nat ∨ (p.1 = q.1 ∧ (p.2 < q.2)%nat).

(** The squared distance between two positions. *)
Definition point_distance_sq (x y : nat) (p : nat * nat) : Z :=
  (Z.of_nat x - Z.of_nat p.1) * (Z.of_nat x - Z.of_nat p.1)
  + (Z.of_nat y - Z.of_nat p.2) * (Z.of_nat y - Z.of_nat p.2).

(** Whether the mask value of a pixel whose nearest edge point is at
    squared distance [m] is above 128. *)
Definition near_edge (m : option Z) : bool :=
  match m with
  | Some d => d <=? 1212
  | None => false
  end.

(** The edge map that [advanced_edge_segmentation] hands to
    [create_distance_mask]. *)
Definition edges_combined `{PIL} (img : Image) : Grid Z :=
  let gray := convert_L img in
  blend_half (FIND_EDGES gray) (EDGE_ENHANCE_MORE (Contrast_enhance2 gray)).

(** How often [k] occurs in [l]. *)
Definition occurrences {K} `{EqDecision K} (k : K) (l : list K) : nat :=
  length (filter (λ k', k' = k) l).

(** [c[k]]: the count that a counter holds for [k], 0 for a missing
    key. *)
Fixpoint counter_get {K} `{EqDecision K} (c : list (K * nat)) (k : K)
  : nat :=
  match c with
  | [] => 0%nat
  | (k', n) :: c' => if decide (k = k') then n else counter_get c' k
  end.

(** The pixels of a list of images at one position. *)
Definition pixels_at (results : list (Grid Pixel)) (x y : nat)
  : option (list Pixel) :=
  mapM (λ result, getpixel result x y) results.

(** What the combiner writes for the voters [vs]:
    [tuple(pixel_sum[i] // votes for i in range(4))]. *)
Definition average (vs : list Pixel) : Pixel :=
  let n := Z.of_nat (length vs) in
  (channel_sum red vs / n, channel_sum green vs / n,
   channel_sum blue vs / n, channel_sum alpha vs / n).

(** * Properties *)

(** ** Loops *)

Section Loops.
Context {A S : Type}.
Implicit Types (l : list A) (body : A → S → option S).

Lemma for_each_app l1 l2 body s :
  for_each (l1 ++ l2) body s = s' ← for_each l1 body s; for_each l2 body s'.
Proof.
  revert s. induction l1 as [|a l1 IH]; intros s; simpl; [done|].
  destruct (body a s) as [s1|]; simpl; [apply IH|done].
Qed.

Lemma for_each_ext l body1 body2 s :
  (∀ a s', a ∈ l → body1 a s' = body2 a s') →
  for_each l body1 s = for_each l body2 s.
Proof.
  revert s. induction l as [|a l IH]; intros s Hext; simpl; [done|].
  rewrite (Hext a s) by left.
  destruct (body2 a s) as [s1|]; simpl; [|done].
  apply IH. intros b s' Hb. apply Hext. by right.
Qed.

(** A loop whose body keeps an invariant and never raises on it
    terminates normally, in a state of the invariant. *)
Lemma for_each_inv (I : S → Prop) l body s :
  I s →
  (∀ a s', a ∈ l → I s' → ∃ s'', body a s' = Some s'' ∧ I s'') →
  ∃ s', for_each l body s = Some s' ∧ I s'.
Proof.
  revert s. induction l as [|a l IH]; intros s Hs Hbody; simpl.
  - by exists s.
  - destruct (Hbody a s ltac:(by left) Hs) as (s1 & -> & Hs1). simpl.
    apply IH; [done|]. intros b s' Hb. apply Hbody. by right.
Qed.

(** The first raising iteration aborts the loop. *)
Lemma for_each_raise a l body s :
  body a s = None → for_each (a :: l) body s = None.
Proof. intros Hb. simpl. by rewrite Hb. Qed.
End Loops.

Lemma for_each_fmap {A B S} (f : A → B) (l : list A)
    (body : B → S → option S) s :
  for_each (f <$> l) body s = for_each l (λ a, body (f a)) s.
Proof.
  revert s. induction l as [|a l IH]; intros s; simpl; [done|].
  destruct (body (f a) s); simpl; [apply IH|done].
Qed.

(** Two nested loops are one loop over the pairs of indices. *)
Lemma for_each_prod {A B S} (l1 : list A) (l2 : list B)
    (body : A → B → S → option S) s :
  for_each l1 (λ a, for_each l2 (body a)) s
  = for_each (list_prod l1 l2) (λ p, body p.1 p.2) s.
Proof.
  revert s. induction l1 as [|a l1 IH]; intros s; simpl; [done|].
  rewrite for_each_app.
  change (map (λ y : B, (a, y)) l2) with ((λ y : B, (a, y)) <$> l2).
  rewrite for_each_fmap. simpl.
  destruct (for_each l2 (body a) s) as [s1|]; simpl; [apply IH|done].
Qed.

Lemma NoDup_list_prod {A B} (l1 : list A) (l2 : list B) :
  NoDup l1 → NoDup l2 → NoDup (list_prod l1 l2).
Proof.
  intros H1 H2. induction H1 as [|a l1 Ha H1 IH]; simpl; [constructor|].
  apply NoDup_app. split_and!.
  - change (NoDup ((λ y : B, (a, y)) <$> l2)).
    apply NoDup_fmap_2; [|done]. by intros ?? [= ->].
  - intros [a' b] Hin1 Hin2.
    change ((a', b) ∈ (λ y : B, (a, y)) <$> l2) in Hin1.
    apply list_elem_of_fmap in Hin1 as (b' & [= -> ->] & _).
    apply list_elem_of_In, in_prod_iff in Hin2 as [Hin2 _].
    by apply Ha, list_elem_of_In.
  - done.
Qed.

Lemma elem_of_list_prod {A B} (l1 : list A) (l2 : list B) a b :
  (a, b) ∈ list_prod l1 l2 ↔ a ∈ l1 ∧ b ∈ l2.
Proof. by rewrite !list_elem_of_In, in_prod_iff. Qed.

Lemma elem_of_range i n : i ∈ range n ↔ (i < n)%nat.
Proof. unfold range. rewrite elem_of_seq. lia. Qed.

(** ** Grids *)

Section GridFacts.
Context {A : Type}.
Implicit Types (g : Grid A).
Local Open Scope nat_scope.

Lemma index_lt w h x y : x < w → y < h → y * w + x < h * w.
Proof. nia. Qed.

Lemma index_inj w x y x' y' :
  x < w → x' < w → y * w + x = y' * w + x' → x = x' ∧ y = y'.
Proof.
  intros Hx Hx' Heq.
  destruct (decide (y = y')) as [->|Hne]; [lia|]. nia.
Qed.

Lemma has_size_new w h (c : A) : has_size w h (Image_new w h c).
Proof. unfold has_size. simpl. by rewrite length_replicate. Qed.

Lemma in_bounds_true g w h x y :
  has_size w h g → x < w → y < h → in_bounds g x y = true.
Proof.
  intros (Hw & Hh & _) Hx Hy. unfold in_bounds. rewrite Hw, Hh.
  apply andb_true_iff. split; by apply Nat.ltb_lt.
Qed.

Lemma getpixel_is_Some g w h x y :
  has_size w h g → x < w → y < h → is_Some (getpixel g x y).
Proof.
  intros Hg Hx Hy. unfold getpixel.
  rewrite (in_bounds_true g w h) by done.
  destruct Hg as (Hw & Hh & Hlen). apply lookup_lt_is_Some.
  rewrite Hlen, Hw. by apply index_lt.
Qed.

Lemma getpixel_new w h (c : A) x y :
  x < w → y < h → getpixel (Image_new w h c) x y = Some c.
Proof.
  intros Hx Hy. unfold getpixel.
  rewrite (in_bounds_true _ w h) by auto using has_size_new.
  simpl. apply lookup_replicate_2. by apply index_lt.
Qed.

Lemma getpixel_grid_map {B} (f : A → B) g x y :
  getpixel (grid_map f g) x y = f <$> getpixel g x y.
Proof.
  unfold getpixel, in_bounds. simpl.
  destruct ((x <? width g) && (y <? height g)); [|done].
  apply list_lookup_fmap.
Qed.

Lemma has_size_grid_map {B} (f : A → B) g w h :
  has_size w h g → has_size w h (grid_map f g).
Proof.
  intros (Hw & Hh & Hlen). unfold has_size. simpl.
  by rewrite length_fmap.
Qed.

Lemma putpixel_Some g w h x y v :
  has_size w h g → x < w → y < h →
  ∃ g', putpixel g x y v = Some g' ∧ has_size w h g' ∧
        getpixel g' x y = Some v ∧
        ∀ x' y', (x', y') ≠ (x, y) → x' < w → y' < h →
                 getpixel g' x' y' = getpixel g x' y'.
Proof.
  intros Hg Hx Hy. unfold putpixel.
  rewrite (in_bounds_true g w h) by done.
  destruct Hg as (Hw & Hh & Hlen).
  eexists. split; [done|].
  assert (has_size w h
    (mkGrid (width g) (height g) (<[y * width g + x:=v]> (cells g)))) as Hg'.
  { unfold has_size. simpl. by rewrite length_insert. }
  split; [done|]. split.
  - unfold getpixel. rewrite (in_bounds_true _ w h) by done. simpl.
    apply list_lookup_insert_eq. rewrite Hlen, Hw. by apply index_lt.
  - intros x' y' Hne Hx' Hy'. unfold getpixel.
    rewrite (in_bounds_true _ w h), (in_bounds_true g w h) by done.
    simpl. apply list_lookup_insert_ne. rewrite Hw. intros Heq.
    apply index_inj in Heq as [-> ->]; done.
Qed.

Lemma for_each_paint (ps : list (nat * nat)) pick
    (body : nat * nat → Grid A → option (Grid A)) w h g :
  NoDup ps →
  has_size w h g →
  (∀ p, p ∈ ps → p.1 < w ∧ p.2 < h ∧ is_Some (pick p)) →
  (∀ p g', p ∈ ps → body p g' = paint_step pick p g') →
  ∃ g', for_each ps body g = Some g' ∧ has_size w h g' ∧
        ∀ x y, x < w → y < h →
          getpixel g' x y =
            if decide ((x, y) ∈ ps) then painted pick g (x, y)
            else getpixel g x y.
Proof.
  intros Hnd. revert g.
  induction Hnd as [|p ps Hp Hnd IH]; intros g Hg Hin Hbody.
  - exists g. split_and!; [done..|]. intros x y _ _.
    rewrite decide_False; [done|]. apply not_elem_of_nil.
  - destruct (Hin p) as (Hx & Hy & [c Hc]); [by left|].
    assert (∃ g1, body p g = Some g1 ∧ has_size w h g1 ∧
      (∀ q, q.1 < w → q.2 < h → getpixel g1 q.1 q.2 =
         if decide (q = p) then painted pick g p else getpixel g q.1 q.2))
      as (g1 & Hb & Hg1 & Hget1).
    { rewrite Hbody by left. unfold paint_step, painted. rewrite Hc. simpl.
      destruct c as [v|].
      - destruct (putpixel_Some g w h p.1 p.2 v) as (g1 & -> & ? & Hv & Ho);
          [done..|].
        exists g1. split_and!; [done..|]. intros [x y] ? ?. simpl in *.
        case_decide as Hq; [by subst|].
        apply Ho; [|done..]. destruct p. naive_solver.
      - exists g. split_and!; [done..|]. intros q ? ?.
        case_decide; by subst. }
    destruct (IH g1) as (g' & Hloop & Hg' & Hget'); [done|..].
    { intros q Hq. apply Hin. by right. }
    { intros q g2 Hq. apply Hbody. by right. }
    exists g'. simpl. rewrite Hb. simpl. split_and!; [done..|].
    intros x y Hlx Hly. rewrite Hget' by done.
    pose proof (Hget1 (x, y) Hlx Hly) as Hxy. simpl in Hxy.
    destruct (decide ((x, y) = p)) as [<-|Hne].
    + rewrite decide_False by done. rewrite decide_True by left. done.
    + destruct (decide ((x, y) ∈ ps)) as [Hps|Hps].
      * rewrite decide_True by (by right).
        unfold painted in *. simpl. by rewrite Hxy.
      * rewrite decide_False; [done|].
        by intros [?|?]%elem_of_cons.
Qed.

(** The nested loops over [x] then [y]. *)
Lemma paint_xy (pick : nat → nat → option (option A))
    (body : nat → nat → Grid A → option (Grid A)) w h g :
  has_size w h g →
  (∀ x y, x < w → y < h → is_Some (pick x y)) →
  (∀ x y g', x < w → y < h →
     body x y g' = c ← pick x y;
                   match c with
                   | Some v => putpixel g' x y v
                   | None => Some g'
                   end) →
  ∃ g', for_each (range w) (λ x, for_each (range h) (body x)) g = Some g' ∧
        has_size w h g' ∧
        ∀ x y, x < w → y < h →
          getpixel g' x y = match pick x y with
                            | Some (Some v) => Some v
                            | _ => getpixel g x y
                            end.
Proof.
  intros Hg Hpick Hbody. rewrite for_each_prod.
  destruct (for_each_paint (list_prod (range w) (range h))
              (λ p, pick p.1 p.2) (λ p, body p.1 p.2) w h g)
    as (g' & Hloop & Hg' & Hget); [|done|..].
  - apply NoDup_list_prod; apply NoDup_seq.
  - intros [x y] [Hx Hy]%elem_of_list_prod.
    apply elem_of_range in Hx, Hy. simpl. auto.
  - intros [x y] g' [Hx Hy]%elem_of_list_prod.
    apply elem_of_range in Hx, Hy. simpl. by apply Hbody.
  - exists g'. split_and!; [done..|]. intros x y Hx Hy.
    rewrite Hget by done. rewrite decide_True; [done|].
    apply elem_of_list_prod. by rewrite !elem_of_range.
Qed.

(** The nested loops over [y] then [x], as numpy indexes. *)
Lemma paint_yx (pick : nat → nat → option (option A))
    (body : nat → nat → Grid A → option (Grid A)) w h g :
  has_size w h g →
  (∀ x y, x < w → y < h → is_Some (pick y x)) →
  (∀ x y g', x < w → y < h →
     body y x g' = c ← pick y x;
                   match c with
                   | Some v => np_set g' y x v
                   | None => Some g'
                   end) →
  ∃ g', for_each (range h) (λ y, for_each (range w) (body y)) g = Some g' ∧
        has_size w h g' ∧
        ∀ x y, x < w → y < h →
          np_get g' y x = match pick y x with
                          | Some (Some v) => Some v
                          | _ => np_get g y x
                          end.
Proof.
  intros Hg Hpick Hbody. rewrite for_each_prod.
  rewrite <- (for_each_fmap (λ p : nat * nat, (p.2, p.1)) _
                (λ p, body p.2 p.1)).
  destruct (for_each_paint
              ((λ p : nat * nat, (p.2, p.1)) <$> list_prod (range h) (range w))
              (λ p, pick p.2 p.1) (λ p, body p.2 p.1) w h g)
    as (g' & Hloop & Hg' & Hget); [|done|..].
  - apply NoDup_fmap_2.
    + intros [??] [??] [= -> ->]. done.
    + apply NoDup_list_prod; apply NoDup_seq.
  - intros [x y] ([y' x'] & [= -> ->] & [Hy Hx]%elem_of_list_prod)
      %list_elem_of_fmap.
    apply elem_of_range in Hx, Hy. simpl. auto.
  - intros [x y] g' ([y' x'] & [= -> ->] & [Hy Hx]%elem_of_list_prod)
      %list_elem_of_fmap.
    apply elem_of_range in Hx, Hy. simpl. by apply Hbody.
  - exists g'. split_and!; [done..|]. intros x y Hx Hy. unfold np_get.
    rewrite Hget by done. rewrite decide_True; [done|].
    apply list_elem_of_fmap. exists (y, x). split; [done|].
    apply elem_of_list_prod. by rewrite !elem_of_range.
Qed.
End GridFacts.

(** ** The compositing loop *)

Lemma apply_mask_spec threshold (w h : nat) (mask : Grid Z)
    (source : Grid Pixel) :
  has_size w h mask → has_size w h source →
  ∃ out, apply_mask threshold w h mask source = Some out ∧
         has_size w h out ∧
         ∀ x y, (x < w)%nat → (y < h)%nat →
           ∃ m p, getpixel mask x y = Some m ∧
                  getpixel source x y = Some p ∧
                  getpixel out x y =
                    Some (if threshold <? m then p else (0, 0, 0, 0)).
Proof.
  intros Hmask Hsource. unfold apply_mask.
  destruct (paint_xy
    (λ x y, m ← getpixel mask x y;
            if threshold <? m then p ← getpixel source x y; Some (Some p)
            else Some None)
    (λ x y result,
       m ← getpixel mask x y;
       if threshold <? m
       then p ← getpixel source x y; putpixel result x y p
       else Some result)
    w h (Image_new w h (0, 0, 0, 0)))
    as (out & Hloop & Hout & Hget).
  - apply has_size_new.
  - intros x y Hx Hy.
    destruct (getpixel_is_Some mask w h x y) as [m ->]; [done..|].
    destruct (getpixel_is_Some source w h x y) as [p ->]; [done..|].
    simpl. by destruct (threshold <? m).
  - intros x y g' Hx Hy.
    destruct (getpixel mask x y) as [m|]; simpl; [|done].
    destruct (threshold <? m); [|done].
    by destruct (getpixel source x y).
  - exists out. split_and!; [done..|]. intros x y Hx Hy.
    destruct (getpixel_is_Some mask w h x y) as [m Hm]; [done..|].
    destruct (getpixel_is_Some source w h x y) as [p Hp]; [done..|].
    exists m, p. split_and!; [done..|].
    rewrite Hget, Hm, Hp by done. simpl.
    destruct (threshold <? m); simpl; [done|].
    by apply getpixel_new.
Qed.

(** ** The consensus combiner *)

Lemma count_votes_3 (r1 r2 r3 : Grid Pixel) x y p1 p2 p3 :
  getpixel r1 x y = Some p1 →
  getpixel r2 x y = Some p2 →
  getpixel r3 x y = Some p3 →
  count_votes [r1; r2; r3] x y =
    Some (Z.of_nat (length (voters [p1; p2; p3])),
          (channel_sum red (voters [p1; p2; p3]),
           channel_sum green (voters [p1; p2; p3]),
           channel_sum blue (voters [p1; p2; p3]),
           channel_sum alpha (voters [p1; p2; p3]))).
Proof.
  intros H1 H2 H3. unfold count_votes, voters. simpl.
  rewrite H1. simpl.
  destruct (0 <? alpha p1); simpl; rewrite H2; simpl;
    destruct (0 <? alpha p2); simpl; rewrite H3; simpl;
    destruct (0 <? alpha p3); simpl;
    unfold pixel_add, red, green, blue, alpha; simpl;
    f_equal; pair_eq; lia.
Qed.

Lemma voters_alpha_sum (ps : list Pixel) :
  Z.of_nat (length (voters ps)) ≤ channel_sum alpha (voters ps).
Proof.
  unfold voters, channel_sum.
  induction ps as [|p ps IH]; simpl; [done|].
  destruct (Z.ltb_spec 0 (alpha p)); simpl; lia.
Qed.

Lemma combine_results_pixel (r1 r2 r3 original : Grid Pixel) (w h : nat) :
  has_size w h r1 → has_size w h r2 → has_size w h r3 →
  has_size w h original →
  ∃ out, combine_results [r1; r2; r3] original = Some out ∧
         has_size w h out ∧
         ∀ x y, (x < w)%nat → (y < h)%nat →
           ∃ p1 p2 p3,
             getpixel r1 x y = Some p1 ∧ getpixel r2 x y = Some p2 ∧
             getpixel r3 x y = Some p3 ∧
             let vs := voters [p1; p2; p3] in
             let n := Z.of_nat (length vs) in
             getpixel out x y =
               Some (if 2 <=? n
                     then (channel_sum red vs / n, channel_sum green vs / n,
                           channel_sum blue vs / n, channel_sum alpha vs / n)
                     else (0, 0, 0, 0)).
Proof.
  intros H1 H2 H3 Ho. unfold combine_results.
  destruct Ho as (Hw & Hh & _). rewrite Hw, Hh.
  destruct (paint_xy
    (λ x y, '(votes, pixel_sum) ← count_votes [r1; r2; r3] x y;
            if 2 <=? votes then Some (Some (pixel_div pixel_sum votes))
            else Some None)
    (λ x y final_result,
       '(votes, pixel_sum) ← count_votes [r1; r2; r3] x y;
       if 2 <=? votes
       then putpixel final_result x y (pixel_div pixel_sum votes)
       else Some final_result)
    w h (Image_new w h (0, 0, 0, 0)))
    as (out & Hloop & Hout & Hget).
  - apply has_size_new.
  - intros x y Hx Hy.
    destruct (getpixel_is_Some r1 _ _ x y H1) as [p1 Hp1]; [done..|].
    destruct (getpixel_is_Some r2 _ _ x y H2) as [p2 Hp2]; [done..|].
    destruct (getpixel_is_Some r3 _ _ x y H3) as [p3 Hp3]; [done..|].
    rewrite (count_votes_3 _ _ _ _ _ p1 p2 p3) by done. simpl.
    by destruct (2 <=? _).
  - intros x y g' Hx Hy.
    destruct (count_votes [r1; r2; r3] x y) as [[votes pixel_sum]|];
      simpl; [|done].
    by destruct (2 <=? votes).
  - exists out. split_and!; [done..|]. intros x y Hx Hy.
    destruct (getpixel_is_Some r1 _ _ x y H1) as [p1 Hp1]; [done..|].
    destruct (getpixel_is_Some r2 _ _ x y H2) as [p2 Hp2]; [done..|].
    destruct (getpixel_is_Some r3 _ _ x y H3) as [p3 Hp3]; [done..|].
    exists p1, p2, p3. split_and!; [done..|]. simpl.
    rewrite Hget by done.
    rewrite (count_votes_3 _ _ _ _ _ p1 p2 p3) by done. simpl.
    destruct (2 <=? _); simpl; [done|]. by apply getpixel_new.
Qed.


(** ** Decoded images *)

Lemma index_div w x y : (x < w)%nat → ((y * w + x) / w)%nat = y.
Proof.
  intros Hx. rewrite Nat.div_add_l by lia.
  rewrite Nat.div_small by done. lia.
Qed.

Lemma index_mod w x y : (x < w)%nat → ((y * w + x) mod w)%nat = x.
Proof.
  intros Hx. rewrite Nat.add_comm, Nat.Div0.mod_add.
  by apply Nat.mod_small.
Qed.

Lemma getpixel_imap {A} (f : nat → A → A) (g : Grid A) w h x y :
  has_size w h g → (x < w)%nat → (y < h)%nat →
  getpixel (mkGrid (width g) (height g) (imap f (cells g))) x y
  = f (y * w + x)%nat <$> getpixel g x y.
Proof.
  intros Hg Hx Hy. unfold getpixel.
  rewrite (in_bounds_true g w h) by done.
  destruct Hg as (Hw & Hh & Hlen).
  unfold in_bounds. simpl. rewrite Hw, Hh.
  replace (x <? w)%nat with true by (symmetry; by apply Nat.ltb_lt).
  replace (y <? h)%nat with true by (symmetry; by apply Nat.ltb_lt).
  simpl. apply list_lookup_imap.
Qed.

Lemma has_size_imap {A} (f : nat → A → A) (g : Grid A) w h :
  has_size w h g →
  has_size w h (mkGrid (width g) (height g) (imap f (cells g))).
Proof.
  intros (Hw & Hh & Hlen). unfold has_size. simpl.
  by rewrite length_imap.
Qed.

Lemma np_get_slice_assign {A} (a : Grid A) w h y0 y1 x0 x1 v x y :
  has_size w h a → (x < w)%nat → (y < h)%nat →
  np_get (slice_assign a y0 y1 x0 x1 v) y x =
    if ((y0 <=? y) && (y <? y1) && (x0 <=? x) && (x <? x1))%nat
    then Some v else np_get a y x.
Proof.
  intros Ha Hx Hy. unfold np_get, slice_assign.
  rewrite (getpixel_imap _ a w h) by done.
  destruct (getpixel_is_Some a w h x y) as [c ->]; [done..|]. simpl.
  destruct Ha as (-> & _).
  rewrite index_div, index_mod by done.
  by destruct (_ && _).
Qed.

Lemma image_ok_convert_RGBA img :
  image_ok img →
  has_size (image_width img) (image_height img) (convert_RGBA img).
Proof.
  intros (_ & _ & Hg).
  destruct img; simpl in *; auto using has_size_grid_map.
Qed.

Lemma image_ok_convert_RGB img :
  image_ok img →
  has_size (image_width img) (image_height img) (convert_RGB img).
Proof.
  intros (_ & _ & Hg).
  destruct img; simpl in *; auto using has_size_grid_map.
Qed.

Lemma image_ok_np_array img :
  image_ok img →
  has_size (image_width img) (image_height img) (np_array img).
Proof.
  intros (_ & _ & Hg).
  destruct img; simpl in *; auto using has_size_grid_map.
Qed.

Lemma np_array_multiband img x y c :
  multiband img = true →
  np_get (np_array img) y x = Some c →
  ∃ l, c = Bands l.
Proof.
  intros Hm. unfold np_get.
  destruct img as [g|g|g]; [done|..]; simpl;
    rewrite getpixel_grid_map; destruct (getpixel g x y); simpl;
    intros [= <-]; eauto.
Qed.

(** ** Strategy 1 *)

(** Each [uint8] square is at most 255, so the wrapped sum over three
    channels never reaches 2500. *)
Lemma sum_sq_diff_uint8_bound (p c : list Z) :
  0 ≤ sum_sq_diff_uint8 p c ≤ 255 * Z.of_nat (length p).
Proof.
  unfold sum_sq_diff_uint8. revert c.
  induction p as [|a p IH]; intros c; [simpl; lia|].
  rewrite length_cons, Nat2Z.inj_succ.
  destruct c as [|b c]; cbn [zip_with foldr]; [lia|].
  specialize (IH c).
  assert (0 ≤ uint8_sq (uint8_sub a b) ≤ 255).
  { unfold uint8_sq.
    pose proof (Z.mod_pos_bound (uint8_sub a b * uint8_sub a b) 256).
    lia. }
  lia.
Qed.

Lemma sum_sq_diff_uint8_small (p c : list Z) :
  (sum_sq_diff_uint8 (take 3 p) c <? 2500) = true.
Proof.
  apply Z.ltb_lt.
  pose proof (sum_sq_diff_uint8_bound (take 3 p) c) as Hb.
  pose proof (length_take_le p 3) as Hl. rewrite length_take in Hb. lia.
Qed.

Lemma grabcut_mask_spec img :
  image_ok img → multiband img = true →
  let w := image_width img in
  let h := image_height img in
  ∃ mask cc,
    grabcut_mask img = Some mask ∧ has_size w h mask ∧
    np_get (np_array img) (h / 2) (w / 2) = Some (Bands cc) ∧
    ∀ x y, (x < w)%nat → (y < h)%nat →
      ∃ pc, np_get (np_array img) y x = Some (Bands pc) ∧
            np_get mask y x =
              Some (if in_center_rect w h x y
                       || (sum_sq_diff_uint8 (take 3 pc) (take 3 cc) <? 2500)
                    then 255 else 0).
Proof.
  intros Hok Hmb w h.
  pose proof (image_ok_np_array img Hok) as Harr. fold w h in Harr.
  destruct Hok as (Hw & Hh & _). fold w in Hw. fold h in Hh.
  assert (w / 2 < w)%nat as Hcx by (apply Nat.div_lt; lia).
  assert (h / 2 < h)%nat as Hcy by (apply Nat.div_lt; lia).
  destruct (getpixel_is_Some (np_array img) w h (w / 2) (h / 2))
    as [center Hcenter]; [done..|].
  destruct (np_array_multiband img _ _ _ Hmb Hcenter) as [cc ->].
  unfold grabcut_mask.
  destruct Harr as (Hwa & Hha & Hlen). rewrite Hwa, Hha.
  assert (has_size w h (np_array img)) as Harr by done.
  fold (np_get (np_array img) (h / 2) (w / 2)) in Hcenter.
  rewrite Hcenter. cbn [mbind option_bind].
  set (mask0 := slice_assign (Image_new w h 0) _ _ _ _ 255).
  assert (has_size w h mask0) as Hmask0.
  { apply has_size_imap, has_size_new. }
  destruct (paint_yx
    (λ y x, pixel_color ← np_get (np_array img) y x;
            p3 ← slice3 pixel_color;
            if sum_sq_diff_uint8 p3 (take 3 cc) <? 2500
            then Some (Some 255) else Some None)
    (λ y x mask,
       pixel_color ← np_get (np_array img) y x;
       p3 ← slice3 pixel_color;
       c3 ← slice3 (Bands cc);
       if sum_sq_diff_uint8 p3 c3 <? 2500
       then np_set mask y x 255 else Some mask)
    w h mask0) as (mask & Hloop & Hmask & Hget); [done|..].
  - intros x y Hx Hy.
    destruct (getpixel_is_Some (np_array img) w h x y) as [c Hc]; [done..|].
    fold (np_get (np_array img) y x) in Hc. rewrite Hc.
    destruct (np_array_multiband img _ _ _ Hmb Hc) as [pc ->]. simpl.
    by destruct (_ <? 2500).
  - intros x y g' Hx Hy.
    destruct (np_get (np_array img) y x) as [c|]; simpl; [|done].
    destruct (slice3 c) as [p3|]; simpl; [|done].
    by destruct (_ <? 2500).
  - exists mask, cc. split_and!; [done..|]. intros x y Hx Hy.
    destruct (getpixel_is_Some (np_array img) w h x y) as [c Hc]; [done..|].
    fold (np_get (np_array img) y x) in Hc.
    destruct (np_array_multiband img _ _ _ Hmb Hc) as [pc ->].
    exists pc. split; [done|].
    rewrite Hget, Hc by done. simpl.
    unfold mask0.
    rewrite (np_get_slice_assign _ w h _ _ _ _ _ x y (has_size_new w h 0))
      by done.
    fold (in_center_rect w h x y).
    unfold np_get. rewrite getpixel_new by done.
    destruct (_ <? 2500).
    + rewrite orb_true_r. by destruct (in_center_rect w h x y).
    + rewrite orb_false_r. by destruct (in_center_rect w h x y).
Qed.

(** On an image with several bands the wrapped distance is always
    below the threshold: the whole mask is foreground. *)
Lemma grabcut_mask_all_foreground img :
  image_ok img → multiband img = true →
  ∃ mask, grabcut_mask img = Some mask ∧
          has_size (image_width img) (image_height img) mask ∧
          ∀ x y, (x < image_width img)%nat → (y < image_height img)%nat →
                 np_get mask y x = Some 255.
Proof.
  intros Hok Hmb.
  destruct (grabcut_mask_spec img Hok Hmb)
    as (mask & cc & Hrun & Hsize & _ & Hget).
  exists mask. split_and!; [done..|]. intros x y Hx Hy.
  destruct (Hget x y Hx Hy) as (pc & _ & ->).
  by rewrite sum_sq_diff_uint8_small, orb_true_r.
Qed.

(** On a single-band image numpy indexes a scalar: the strategy raises
    at the first pixel. *)
Lemma grabcut_mask_single_band g :
  image_ok (ImgL g) → grabcut_mask (ImgL g) = None.
Proof.
  intros (Hw & Hh & _). simpl in Hw, Hh.
  unfold grabcut_mask. cbn [np_array grid_map width height].
  destruct (np_get _ _ _) as [center|]; cbn [mbind option_bind]; [|done].
  destruct (height g) as [|h'] eqn:Eh; [lia|].
  destruct (width g) as [|w'] eqn:Ew; [lia|].
  unfold range. cbn [seq]. apply for_each_raise. apply for_each_raise.
  unfold np_get, getpixel, in_bounds. simpl.
  rewrite list_lookup_fmap.
  destruct (_ && _); [|done]. by destruct (cells g !! 0%nat).
Qed.

Section Strategy1.
Context `{PILLaws}.

Lemma grabcut_simulation_spec img :
  image_ok img → multiband img = true →
  let w := image_width img in
  let h := image_height img in
  ∃ mask out,
    grabcut_mask img = Some mask ∧
    grabcut_simulation img = Some out ∧ has_size w h out ∧
    ∀ x y, (x < w)%nat → (y < h)%nat →
      ∃ m p, getpixel (MedianFilter3 mask) x y = Some m ∧
             getpixel (convert_RGBA img) x y = Some p ∧
             getpixel out x y = Some (if 128 <? m then p else (0, 0, 0, 0)).
Proof.
  intros Hok Hmb w h.
  destruct (grabcut_mask_all_foreground img Hok Hmb)
    as (mask & Hmask & Hsize & _).
  destruct (apply_mask_spec 128 w h (MedianFilter3 mask) (convert_RGBA img))
    as (out & Hout & Hsz & Hget).
  - by apply MedianFilter3_size.
  - by apply image_ok_convert_RGBA.
  - exists mask, out. unfold grabcut_simulation. rewrite Hmask.
    cbn [mbind option_bind]. done.
Qed.

Lemma grabcut_simulation_single_band g :
  image_ok (ImgL g) → grabcut_simulation (ImgL g) = None.
Proof.
  intros Hok. unfold grabcut_simulation.
  by rewrite grabcut_mask_single_band.
Qed.

Lemma grabcut_simulation_size img out :
  image_ok img → grabcut_simulation img = Some out →
  has_size (image_width img) (image_height img) out.
Proof.
  intros Hok Hrun. destruct (multiband img) eqn:Hmb.
  - destruct (grabcut_simulation_spec img Hok Hmb)
      as (mask & out' & _ & Hrun' & Hsz & _).
    by simplify_eq.
  - destruct img; try done.
    by rewrite grabcut_simulation_single_band in Hrun.
Qed.
End Strategy1.

(** ** Strategy 2 *)

Lemma np_row_is_Some {A} (a : Grid A) w h y :
  has_size w h a → (y < h)%nat → is_Some (np_row a y).
Proof.
  intros Ha Hy. unfold np_row. apply mapM_is_Some_2, Forall_forall.
  intros x Hx%elem_of_range. simpl.
  destruct Ha as (Hw & Hh & Hlen). rewrite Hw in Hx.
  by apply (getpixel_is_Some a w h).
Qed.

Lemma np_col_is_Some {A} (a : Grid A) w h x :
  has_size w h a → (x < w)%nat → is_Some (np_col a x).
Proof.
  intros Ha Hx. unfold np_col. apply mapM_is_Some_2, Forall_forall.
  intros y Hy%elem_of_range. simpl.
  destruct Ha as (Hw & Hh & Hlen). rewrite Hh in Hy.
  by apply (getpixel_is_Some a w h).
Qed.

Lemma edge_pixels_is_Some (a : Grid RGB) w h :
  has_size w h a → (0 < w)%nat → (0 < h)%nat → is_Some (edge_pixels a).
Proof.
  intros Ha Hw Hh. unfold edge_pixels.
  destruct (np_row_is_Some a w h 0%nat) as [top ->]; [done..|].
  destruct (np_row_is_Some a w h (height a - 1)%nat) as [bottom ->];
    [done| destruct Ha as (_ & -> & _); lia |].
  destruct (np_col_is_Some a w h 0%nat) as [left ->]; [done..|].
  destruct (np_col_is_Some a w h (width a - 1)%nat) as [right ->];
    [done| destruct Ha as (-> & _); lia |].
  done.
Qed.

Lemma color_clustering_mask_spec {F : Float64} img :
  image_ok img →
  let w := image_width img in
  let h := image_height img in
  ∃ samples mask,
    edge_pixels (convert_RGB img) = Some samples ∧
    color_clustering_mask img = Some mask ∧ has_size w h mask ∧
    ∀ x y, (x < w)%nat → (y < h)%nat →
      ∃ pixel,
        np_get (convert_RGB img) y x = Some pixel ∧
        np_get mask y x =
          Some (if farther_than_threshold samples pixel
                     (Z.of_nat (Nat.min (Nat.min x y)
                                  (Nat.min (w - x - 1) (h - y - 1))))
                then 255 else 0).
Proof.
  intros Hok w h.
  pose proof (image_ok_convert_RGB img Hok) as Harr. fold w h in Harr.
  destruct Hok as (Hw & Hh & _). fold w in Hw. fold h in Hh.
  destruct (edge_pixels_is_Some _ w h Harr Hw Hh) as [samples Hs].
  unfold color_clustering_mask. rewrite Hs. cbn [mbind option_bind].
  destruct Harr as (Hwa & Hha & Hlen). rewrite Hwa, Hha.
  assert (has_size w h (convert_RGB img)) as Harr by done.
  destruct (paint_yx
    (λ y x, pixel ← np_get (convert_RGB img) y x;
            if farther_than_threshold samples pixel
                 (Z.of_nat (Nat.min (Nat.min x y)
                              (Nat.min (w - x - 1) (h - y - 1))))
            then Some (Some 255) else Some None)
    (λ y x mask,
       pixel ← np_get (convert_RGB img) y x;
       if farther_than_threshold samples pixel
            (Z.of_nat (Nat.min (Nat.min x y)
                         (Nat.min (w - x - 1) (h - y - 1))))
       then np_set mask y x 255 else Some mask)
    w h (Image_new w h 0)) as (mask & Hloop & Hmask & Hget).
  - apply has_size_new.
  - intros x y Hx Hy.
    destruct (getpixel_is_Some (convert_RGB img) w h x y) as [c Hc];
      [done..|].
    fold (np_get (convert_RGB img) y x) in Hc. rewrite Hc. simpl.
    by destruct (farther_than_threshold _ _ _).
  - intros x y g' Hx Hy.
    destruct (np_get (convert_RGB img) y x) as [c|]; simpl; [|done].
    by destruct (farther_than_threshold _ _ _).
  - exists samples, mask. split_and!; [done..|]. intros x y Hx Hy.
    destruct (getpixel_is_Some (convert_RGB img) w h x y) as [c Hc];
      [done..|].
    fold (np_get (convert_RGB img) y x) in Hc.
    exists c. split; [done|]. rewrite Hget, Hc by done.
    cbn [mbind option_bind].
    destruct (farther_than_threshold _ _ _); [done|].
    unfold np_get. by rewrite getpixel_new.
Qed.

Section Strategy2.
Context {F : Float64} `{PILLaws}.

Lemma color_clustering_removal_spec img :
  image_ok img →
  let w := image_width img in
  let h := image_height img in
  ∃ mask out,
    color_clustering_mask img = Some mask ∧
    color_clustering_removal img = Some out ∧ has_size w h out ∧
    ∀ x y, (x < w)%nat → (y < h)%nat →
      ∃ m p, getpixel (GaussianBlur2 mask) x y = Some m ∧
             getpixel (convert_RGBA img) x y = Some p ∧
             getpixel out x y = Some (if 100 <? m then p else (0, 0, 0, 0)).
Proof.
  intros Hok w h.
  destruct (color_clustering_mask_spec img Hok)
    as (samples & mask & _ & Hmask & Hsize & _).
  destruct (apply_mask_spec 100 w h (GaussianBlur2 mask) (convert_RGBA img))
    as (out & Hout & Hsz & Hget).
  - by apply GaussianBlur2_size.
  - by apply image_ok_convert_RGBA.
  - exists mask, out. unfold color_clustering_removal. rewrite Hmask.
    cbn [mbind option_bind]. done.
Qed.
End Strategy2.

(** ** Strategy 3 *)

Lemma create_distance_mask_spec (edges : Grid Z) w h :
  has_size w h edges →
  ∃ points mask,
    create_distance_mask edges = Some mask ∧ has_size w h mask ∧
    ∀ x y, (x < w)%nat → (y < h)%nat →
      getpixel mask x y =
        Some (distance_mask_value (min_distance_sq x y (take 100 points))).
Proof.
  intros Hedges. unfold create_distance_mask.
  destruct Hedges as (Hw & Hh & Hlen). rewrite Hw, Hh.
  assert (has_size w h edges) as Hedges by done.
  destruct (for_each_inv (λ _ : list (nat * nat), True)
    (list_prod (range w) (range h))
    (λ p edge_pixels,
       e ← getpixel edges p.1 p.2;
       if 50 <? e then Some (edge_pixels ++ [(p.1, p.2)])
       else Some edge_pixels) []) as (points & Hpoints & _); [done|..].
  { intros [x y] pts [Hx Hy]%elem_of_list_prod _.
    apply elem_of_range in Hx, Hy. simpl.
    destruct (getpixel_is_Some edges w h x y) as [e ->]; [done..|].
    simpl. destruct (50 <? e); eauto. }
  rewrite for_each_prod, Hpoints. cbn [mbind option_bind].
  destruct (paint_xy
    (λ x y, Some (Some (distance_mask_value
                          (min_distance_sq x y (take 100 points)))))
    (λ x y mask,
       putpixel mask x y
         (distance_mask_value (min_distance_sq x y (take 100 points))))
    w h (Image_new w h 0)) as (mask & Hloop & Hmask & Hget).
  - apply has_size_new.
  - eauto.
  - done.
  - exists points, mask. split_and!; [done..|]. intros x y Hx Hy.
    by rewrite Hget.
Qed.

Section Strategy3.
Context `{PILLaws}.

Lemma advanced_edge_segmentation_spec img :
  image_ok img →
  ∃ out, advanced_edge_segmentation img = Some out ∧
         has_size (image_width img) (image_height img) out.
Proof.
  intros Hok. unfold advanced_edge_segmentation.
  set (w := image_width img). set (h := image_height img).
  pose proof (convert_L_size img Hok) as Hgray. fold w h in Hgray.
  pose proof (FIND_EDGES_size _ _ _ Hgray) as Hedges1.
  pose proof (Contrast_enhance2_size _ _ _ Hgray) as Henh.
  pose proof (EDGE_ENHANCE_MORE_size _ _ _ Henh) as Hedges2.
  pose proof (blend_half_size _ _ _ _ Hedges1 Hedges2) as Hcombined.
  destruct (create_distance_mask_spec _ w h Hcombined)
    as (points & mask & -> & Hmask & _).
  cbn [mbind option_bind].
  destruct (apply_mask_spec 128 w h mask (convert_RGBA img))
    as (out & Hout & Hsz & _); [done|by apply image_ok_convert_RGBA|].
  eauto.
Qed.
End Strategy3.

(** ** Strategy 4 *)

Lemma elem_of_range_step i stop step :
  (0 < step)%nat → i ∈ range_step stop step → (i < stop)%nat.
Proof.
  intros Hstep (k & -> & Hk%elem_of_seq)%list_elem_of_fmap.
  pose proof (Nat.Div0.mul_div_le (stop + step - 1) step). nia.
Qed.

Lemma sample_points_spec (img : Grid Pixel) w h :
  has_size w h img →
  ∃ samples, sample_points img = Some samples ∧
             Forall (pixel_of img) samples.
Proof.
  intros Himg. unfold sample_points.
  destruct Himg as (Hw & Hh & Hlen). rewrite Hw, Hh.
  assert (has_size w h img) as Himg by done.
  set (border_width := (Nat.min w h / 20)%nat).
  assert (border_width ≤ Nat.min w h)%nat as Hbw.
  { unfold border_width. apply Nat.Div0.div_le_upper_bound. lia. }
  destruct (for_each_inv (Forall (pixel_of img))
    (list_prod (range_step w (Nat.max 1 (w / 50))) (range border_width))
    (λ p sample_points,
       top ← getpixel img p.1 p.2;
       bottom ← getpixel img p.1 (h - 1 - p.2);
       Some (sample_points ++ [top; bottom])) [])
    as (samples1 & Hs1 & Hall1); [done|..].
  { intros [i j] pts [Hi Hj]%elem_of_list_prod Hpts.
    apply elem_of_range_step in Hi; [|lia].
    apply elem_of_range in Hj. simpl.
    destruct (getpixel_is_Some img w h i j) as [top Htop]; [done|lia..|].
    destruct (getpixel_is_Some img w h i (h - 1 - j)) as [bottom Hbot];
      [done|lia..|].
    rewrite Htop, Hbot. simpl. eexists. split; [done|].
    apply Forall_app. split; [done|].
    repeat constructor; unfold pixel_of; eauto. }
  rewrite for_each_prod, Hs1. cbn [mbind option_bind].
  destruct (for_each_inv (Forall (pixel_of img))
    (list_prod (range_step h (Nat.max 1 (h / 50))) (range border_width))
    (λ p sample_points,
       left ← getpixel img p.2 p.1;
       right ← getpixel img (w - 1 - p.2) p.1;
       Some (sample_points ++ [left; right])) samples1)
    as (samples & Hs & Hall); [done|..].
  { intros [i j] pts [Hi Hj]%elem_of_list_prod Hpts.
    apply elem_of_range_step in Hi; [|lia].
    apply elem_of_range in Hj. simpl.
    destruct (getpixel_is_Some img w h j i) as [left Hleft]; [done|lia..|].
    destruct (getpixel_is_Some img w h (w - 1 - j) i) as [right Hright];
      [done|lia..|].
    rewrite Hleft, Hright. simpl. eexists. split; [done|].
    apply Forall_app. split; [done|].
    repeat constructor; unfold pixel_of; eauto. }
  rewrite for_each_prod, Hs. eauto.
Qed.

(** No border strip, no sample: the strip is [min(w, h) // 20] wide. *)
Lemma sample_points_small (img : Grid Pixel) :
  (Nat.min (width img) (height img) < 20)%nat →
  sample_points img = Some [].
Proof.
  intros Hsmall. unfold sample_points.
  rewrite (Nat.div_small _ 20) by done.
  assert (∀ (l : list nat) (body : nat → nat → list Pixel → _) s,
    for_each l (λ i, for_each (range 0) (body i)) s = Some s) as Hnop.
  { intros l body s. induction l as [|i l IH]; simpl; done. }
  rewrite Hnop. cbn [mbind option_bind]. by rewrite Hnop.
Qed.

Lemma occupancy_mask_spec (img : Grid Pixel) w h :
  has_size w h img →
  ∃ mask, occupancy_mask img = Some mask ∧ has_size w h mask ∧
          ∀ x y, (x < w)%nat → (y < h)%nat →
            ∃ p, getpixel img x y = Some p ∧
                 getpixel mask x y = Some (if 0 <? alpha p then 255 else 0).
Proof.
  intros Himg. unfold occupancy_mask.
  destruct Himg as (Hw & Hh & Hlen). rewrite Hw, Hh.
  assert (has_size w h img) as Himg by done.
  destruct (paint_xy
    (λ x y, p ← getpixel img x y;
            if 0 <? alpha p then Some (Some 255) else Some None)
    (λ x y mask,
       p ← getpixel img x y;
       if 0 <? alpha p then putpixel mask x y 255 else Some mask)
    w h (Image_new w h 0)) as (mask & Hloop & Hmask & Hget).
  - apply has_size_new.
  - intros x y Hx Hy.
    destruct (getpixel_is_Some img w h x y) as [p ->]; [done..|]. simpl.
    by destruct (0 <? alpha p).
  - intros x y g' Hx Hy.
    destruct (getpixel img x y) as [p|]; simpl; [|done].
    by destruct (0 <? alpha p).
  - exists mask. split_and!; [done..|]. intros x y Hx Hy.
    destruct (getpixel_is_Some img w h x y) as [p Hp]; [done..|].
    exists p. split; [done|]. rewrite Hget, Hp by done. simpl.
    destruct (0 <? alpha p); [done|]. by apply getpixel_new.
Qed.

Lemma has_size_putdata {A} (img : Grid A) (new_data : list A) w h :
  has_size w h img → length new_data = length (cells img) →
  has_size w h (putdata img new_data).
Proof. intros (Hw & Hh & Hlen) Hnew. unfold has_size. simpl. by rewrite Hnew. Qed.

Lemma has_size_classify {F : Float64} (img : Grid Pixel) bg_color w h :
  has_size w h img →
  has_size w h (putdata img (classify_pixels img bg_color)).
Proof.
  intros Himg. apply has_size_putdata; [done|].
  unfold classify_pixels. apply length_imap.
Qed.

Section Strategy4.
Context {F : Float64} `{PILLaws}.

Lemma remove_small_regions_spec (img : Grid Pixel) w h :
  has_size w h img →
  ∃ mask out,
    occupancy_mask img = Some mask ∧
    remove_small_regions img = Some out ∧ has_size w h out ∧
    ∀ x y, (x < w)%nat → (y < h)%nat →
      ∃ m p, getpixel (MedianFilter3 mask) x y = Some m ∧
             getpixel img x y = Some p ∧
             getpixel out x y = Some (if 128 <? m then p else (0, 0, 0, 0)).
Proof.
  intros Himg.
  destruct (occupancy_mask_spec img w h Himg) as (mask & Hmask & Hsize & _).
  destruct (apply_mask_spec 128 w h (MedianFilter3 mask) img)
    as (out & Hout & Hsz & Hget); [by apply MedianFilter3_size|done|].
  exists mask, out. unfold remove_small_regions. rewrite Hmask.
  cbn [mbind option_bind]. destruct Himg as (-> & -> & _). done.
Qed.

(** When the body of strategy 4 returns, it returns an image of the
    size it was given. *)
Lemma smart_v2_body_size (img out : Grid Pixel) w h :
  has_size w h img → smart_v2_body img = Some out → has_size w h out.
Proof.
  intros Himg. unfold smart_v2_body.
  destruct (sample_points img) as [samples|]; [|done].
  cbn [mbind option_bind].
  destruct (most_common_color samples) as [bg_color|]; [|done].
  cbn [mbind option_bind]. intros Hrun.
  destruct (remove_small_regions_spec _ w h
              (has_size_classify img bg_color w h Himg))
    as (mask & out' & _ & Hrun' & Hsz & _).
  by simplify_eq.
Qed.

(** On an image narrower or lower than 20 pixels the body raises:
    there is no sample to take the most common colour of. *)
Lemma smart_v2_body_small (img : Grid Pixel) :
  (Nat.min (width img) (height img) < 20)%nat → smart_v2_body img = None.
Proof.
  intros Hsmall. unfold smart_v2_body.
  by rewrite sample_points_small.
Qed.
End Strategy4.

(** ** The orchestrator *)

Section OrchestratorFacts.
Context (fs : gmap string Image).
Context (s1 s2 s3 : Image → option (Grid Pixel)).
Context (s4 : Grid Pixel → option (Grid Pixel)).

Lemma smart_background_removal_v2_readable path img :
  fs !! path = Some img →
  Orchestrator.smart_background_removal_v2 fs s4 path
  = Some (strategy4_result s4 img).
Proof.
  intros Hopen.
  unfold Orchestrator.smart_background_removal_v2, Orchestrator.Image_open,
    strategy4_result.
  rewrite Hopen. cbn [mbind option_bind].
  by destruct (s4 (convert_RGBA img)).
Qed.

Lemma advanced_background_removal_readable path img :
  fs !! path = Some img →
  Orchestrator.advanced_background_removal fs s1 s2 s3 s4 path
  = Some (default (strategy4_result s4 img) (ensemble s1 s2 s3 img)).
Proof.
  intros Hopen. unfold Orchestrator.advanced_background_removal.
  rewrite (smart_background_removal_v2_readable path img Hopen).
  unfold Orchestrator.Image_open. rewrite Hopen. cbn [mbind option_bind].
  fold (ensemble s1 s2 s3 img). by destruct (ensemble s1 s2 s3 img).
Qed.

Lemma smart_background_removal_v2_unreadable path :
  fs !! path = None →
  Orchestrator.smart_background_removal_v2 fs s4 path = None.
Proof.
  intros Hopen.
  unfold Orchestrator.smart_background_removal_v2, Orchestrator.Image_open.
  by rewrite Hopen.
Qed.

Lemma home_process_default method path :
  ¬ recognised method →
  Orchestrator.home_process fs s1 s2 s3 s4 method path
  = Orchestrator.advanced_background_removal fs s1 s2 s3 s4 path.
Proof.
  intros Hm. unfold Orchestrator.home_process, recognised in *.
  destruct method as [m|]; simpl.
  - repeat case_decide; subst; tauto.
  - repeat case_decide; done.
Qed.
(** The result of the view's processing step for a readable upload,
    selector by selector. *)
Lemma home_process_readable method path img :
  fs !! path = Some img →
  let result := Orchestrator.home_process fs s1 s2 s3 s4 method path in
  (method = Some "white" → result = Some (strategy4_result s4 img)) ∧
  (¬ recognised method →
     result = Some (default (strategy4_result s4 img)
                      (ensemble s1 s2 s3 img))) ∧
  (method = Some "edge" → result = s3 img) ∧
  (method = Some "color" → result = s2 img).
Proof.
  intros Hopen result. split_and!.
  - intros ->. unfold result, Orchestrator.home_process. simpl.
    unfold Orchestrator.remove_white_background.
    by rewrite (smart_background_removal_v2_readable path img).
  - intros Hm. unfold result.
    rewrite home_process_default by done.
    by rewrite (advanced_background_removal_readable path img).
  - intros ->. unfold result, Orchestrator.home_process. simpl.
    unfold Orchestrator.edge_based_removal, Orchestrator.Image_open.
    by rewrite Hopen.
  - intros ->. unfold result, Orchestrator.home_process. simpl.
    unfold Orchestrator.color_threshold_removal, Orchestrator.Image_open.
    by rewrite Hopen.
Qed.
End OrchestratorFacts.

(** ** The reference backend meets the laws *)

Lemma has_size_filter3 f (g : Grid Z) w h :
  has_size w h g → has_size w h (filter3 f g).
Proof. apply has_size_imap. Qed.

Lemma reference_PIL_laws : PILLaws reference_PIL.
Proof.
  split; simpl.
  - intros w h g. apply has_size_filter3.
  - intros w h g. apply has_size_filter3.
  - intros img (_ & _ & Hg).
    destruct img; simpl in *; auto using has_size_grid_map.
  - intros w h g. apply has_size_filter3.
  - intros w h g. apply has_size_grid_map.
  - intros w h g. apply has_size_filter3.
  - intros w h g1 g2 (Hw1 & Hh1 & Hl1) (Hw2 & Hh2 & Hl2).
    unfold has_size. simpl. rewrite length_zip_with. lia.
Qed.

(** ** Images of one colour *)

Lemma getpixel_convert_RGB img x y :
  getpixel (convert_RGB img) x y
  = (λ p : Pixel, (red p, green p, blue p))
      <$> getpixel (convert_RGBA img) x y.
Proof.
  destruct img as [g|g|g]; simpl; rewrite ?getpixel_grid_map.
  - by destruct (getpixel g x y).
  - by destruct (getpixel g x y) as [[[??]?]|].
  - done.
Qed.

Lemma mapM_uniform {A B} (f : A → option B) (c : B) l k :
  (∀ a b, f a = Some b → b = c) → mapM f l = Some k → Forall (λ b, b = c) k.
Proof.
  intros Hf Hk. apply mapM_Some_1 in Hk.
  induction Hk as [|a b l k Hab _ IH]; constructor; eauto.
Qed.

Lemma edge_pixels_uniform (a : Grid RGB) (c : RGB) samples :
  (∀ x y v, getpixel a x y = Some v → v = c) →
  edge_pixels a = Some samples → Forall (λ v, v = c) samples.
Proof.
  intros Ha. unfold edge_pixels. intros Hs.
  destruct (np_row a 0) as [top|] eqn:Htop; [|done].
  destruct (np_row a (height a - 1)) as [bottom|] eqn:Hbottom; [|done].
  destruct (np_col a 0) as [left|] eqn:Hleft; [|done].
  destruct (np_col a (width a - 1)) as [right|] eqn:Hright; [|done].
  cbn [mbind option_bind] in Hs. injection Hs as <-.
  unfold np_row, np_col, np_get in *.
  rewrite !Forall_app.
  split_and!.
  - apply (mapM_uniform _ c _ _ (λ x v, Ha x _ v) Htop).
  - apply (mapM_uniform _ c _ _ (λ x v, Ha x _ v) Hbottom).
  - apply (mapM_uniform _ c _ _ (λ y v, Ha _ y v) Hleft).
  - apply (mapM_uniform _ c _ _ (λ y v, Ha _ y v) Hright).
Qed.

Lemma edge_pixels_length (a : Grid RGB) w h samples :
  has_size w h a → edge_pixels a = Some samples →
  length samples = (2 * w + 2 * h)%nat.
Proof.
  intros (Hw & Hh & _) Hs. unfold edge_pixels in Hs.
  destruct (np_row _ 0) as [top|] eqn:Htop; [|done].
  destruct (np_row _ (height a - 1)) as [bottom|] eqn:Hbottom; [|done].
  destruct (np_col _ 0) as [left|] eqn:Hleft; [|done].
  destruct (np_col _ (width a - 1)) as [right|] eqn:Hright; [|done].
  injection Hs as <-.
  unfold np_row in Htop, Hbottom. unfold np_col in Hleft, Hright.
  rewrite Hw in Htop, Hbottom. rewrite Hh in Hleft, Hright.
  apply length_mapM in Htop, Hbottom, Hleft, Hright.
  unfold range in Htop, Hbottom, Hleft, Hright.
  rewrite length_seq in Htop, Hbottom, Hleft, Hright.
  rewrite !length_app. lia.
Qed.

Lemma rgb_sum_uniform (c : RGB) samples :
  Forall (λ v, v = c) samples →
  rgb_sum samples = (Z.of_nat (length samples) * c.1.1,
                     Z.of_nat (length samples) * c.1.2,
                     Z.of_nat (length samples) * c.2).
Proof.
  induction 1 as [|v l -> _ IH].
  - simpl. pair_eq; lia.
  - rewrite length_cons, Nat2Z.inj_succ. simpl. rewrite IH. simpl.
    pair_eq; lia.
Qed.

Section UniformStrategy2.
Context {F : Float64} {FL : Float64Laws F}.
Context {P : PIL} {HL : PILLaws P} {HB : PILBlankLaws P}.

(** Strategy 2 returns an image of one colour fully transparent. *)
Lemma uniform_color_clustering img c :
  image_ok img → uniform_rgb (convert_RGBA img) c →
  ∃ out, color_clustering_removal img = Some out ∧
         has_size (image_width img) (image_height img) out ∧
         fully_transparent (image_width img) (image_height img) out.
Proof.
  intros Hok Hc.
  assert (∀ x y v, getpixel (convert_RGB img) x y = Some v → v = c) as Hrgb.
  { intros x y v. rewrite getpixel_convert_RGB.
    destruct (getpixel (convert_RGBA img) x y) as [p|] eqn:Hp; [|done].
    simpl. intros [= <-]. by apply (Hc x y). }
  destruct (color_clustering_mask_spec img Hok)
    as (samples & mask & Hs & Hmask & Hsize & Hget).
  destruct (color_clustering_removal_spec img Hok)
    as (mask' & out & Hmask' & Hout & Hsz & Hcomp).
  assert (mask' = mask) as -> by congruence.
  exists out. split_and!; [done..|].
  assert (blank (image_width img) (image_height img) mask) as Hblank.
  { intros x y Hx Hy. destruct (Hget x y Hx Hy) as (pixel & Hpixel & Hm).
    unfold np_get in *. rewrite Hm.
    rewrite (Hrgb x y pixel Hpixel).
    rewrite farther_than_threshold_same; [done| |by apply
      (edge_pixels_uniform (convert_RGB img))|lia].
    intros ->.
    pose proof (edge_pixels_length (convert_RGB img) _ _ []
                  (image_ok_convert_RGB img Hok) Hs) as Hlen.
    destruct Hok as (Hw & _). simpl in Hlen. lia. }
  intros x y Hx Hy. destruct (Hcomp x y Hx Hy) as (m & p & Hm & _ & Ho).
  rewrite (GaussianBlur2_blank _ _ _ Hsize Hblank x y Hx Hy) in Hm.
  injection Hm as <-. eauto.
Qed.
End UniformStrategy2.

(** The sampling loops of strategy 4 only append. *)
Lemma for_each_length_mono {A B} (l : list A)
    (body : A → list B → option (list B)) s s' :
  (∀ a t t', body a t = Some t' → (length t < length t')%nat) →
  for_each l body s = Some s' → (length s ≤ length s')%nat.
Proof.
  intros Hbody. revert s. induction l as [|a l IH]; intros s; simpl.
  - by intros [= ->].
  - destruct (body a s) as [t|] eqn:Hb; [|done]. simpl. intros Hl.
    apply Hbody in Hb. apply IH in Hl. lia.
Qed.

Lemma for_each_length_grows {A B} (l : list A)
    (body : A → list B → option (list B)) s s' :
  (∀ a t t', body a t = Some t' → (length t < length t')%nat) →
  l ≠ [] →
  for_each l body s = Some s' → (length s < length s')%nat.
Proof.
  intros Hbody Hl. destruct l as [|a l]; [done|]. simpl.
  destruct (body a s) as [t|] eqn:Hb; [|done]. simpl. intros Hrun.
  apply Hbody in Hb. apply for_each_length_mono in Hrun; [lia|done].
Qed.

Lemma range_step_nonempty stop step :
  (0 < stop)%nat → (0 < step)%nat → range_step stop step ≠ [].
Proof.
  intros Hstop Hstep. unfold range_step.
  destruct ((stop + step - 1) / step)%nat as [|k] eqn:Hk; [|done].
  apply Nat.div_small_iff in Hk; lia.
Qed.

Lemma list_prod_nonempty {A B} (l1 : list A) (l2 : list B) :
  l1 ≠ [] → l2 ≠ [] → list_prod l1 l2 ≠ [].
Proof. destruct l1, l2; done. Qed.

Lemma sample_points_nonempty (img : Grid Pixel) samples :
  (20 ≤ Nat.min (width img) (height img))%nat →
  sample_points img = Some samples → samples ≠ [].
Proof.
  intros Hbig. unfold sample_points.
  set (border_width := (Nat.min (width img) (height img) / 20)%nat).
  assert (range border_width ≠ []) as Hbw.
  { assert (0 < border_width)%nat as Hpos
      by (unfold border_width; apply Nat.div_str_pos; lia).
    unfold range. by destruct border_width; [lia|]. }
  rewrite for_each_prod.
  destruct (for_each _ _ []) as [s1|] eqn:Hs1; [|done].
  cbn [mbind option_bind]. intros Hs2.
  assert (length (@nil Pixel) < length s1)%nat as Hlen1.
  { revert Hs1. apply for_each_length_grows.
    - intros [i j] t t'. simpl.
      destruct (getpixel img i j); [|done].
      destruct (getpixel img i _); [|done].
      simpl. intros [= <-]. rewrite length_app. simpl. lia.
    - apply list_prod_nonempty; [|done].
      apply range_step_nonempty; lia. }
  assert (length s1 ≤ length samples)%nat as Hlen2.
  { rewrite for_each_prod in Hs2. revert Hs2. apply for_each_length_mono.
    intros [i j] t t'. simpl.
    destruct (getpixel img j i); [|done].
    destruct (getpixel img _ i); [|done].
    simpl. intros [= <-]. rewrite length_app. simpl. lia. }
  destruct samples; [simpl in *; lia|done].
Qed.

(** The most common colour is one of the samples, and exists as soon
    as there is a sample. *)
Section Counter.
Context {K : Type} `{EqDecision K}.
Implicit Types (c : list (K * nat)) (l : list K).

Lemma counter_add_keys c k e :
  e ∈ counter_add c k → e.1 = k ∨ e.1 ∈ c.*1.
Proof.
  induction c as [|[k' n] c IH]; simpl.
  - intros ->%list_elem_of_singleton. by left.
  - case_decide as Hk.
    + intros [->|He]%elem_of_cons; simpl.
      * right. left.
      * right. right. by apply (list_elem_of_fmap_2 fst) in He.
    + intros [->|He]%elem_of_cons; simpl.
      * right. left.
      * destruct (IH He); [by left|]. right. by right.
Qed.

Lemma counter_add_nonempty c k : counter_add c k ≠ [].
Proof. destruct c as [|[k' n] c]; simpl; [done|]. by case_decide. Qed.

Lemma foldl_counter_add_keys l c e :
  e ∈ foldl counter_add c l → e.1 ∈ l ∨ e.1 ∈ c.*1.
Proof.
  revert c. induction l as [|k l IH]; intros c; simpl.
  { intros He. right. by apply (list_elem_of_fmap_2 fst). }
  intros [He|He]%IH.
  - left. by right.
  - apply list_elem_of_fmap in He as (e' & -> & He').
    destruct (counter_add_keys _ _ _ He') as [->|?]; [left; left|by right].
Qed.

Lemma foldl_counter_add_nonempty l c :
  c ≠ [] → foldl counter_add c l ≠ [].
Proof.
  revert c. induction l as [|k l IH]; intros c Hc; simpl; [done|].
  apply IH, counter_add_nonempty.
Qed.

Lemma most_common_1_elem c e :
  e ∈ most_common_1 c → e ∈ c.
Proof.
  destruct c as [|e0 c]; simpl; [done|].
  intros ->%list_elem_of_singleton.
  revert e0. induction c as [|e1 c IH]; intros e0; simpl; [left|].
  destruct (_ <? _)%nat.
  - right. apply IH.
  - specialize (IH e0). apply elem_of_cons in IH as [->|?]; [left|].
    right. by right.
Qed.
End Counter.

Lemma most_common_color_elem samples color :
  most_common_color samples = Some color → color ∈ samples.
Proof.
  unfold most_common_color.
  destruct (most_common_1 (Counter samples)) as [|[c n] rest] eqn:Hm; [done|].
  intros [= <-].
  assert ((c, n) ∈ Counter samples) as Hin.
  { apply most_common_1_elem. rewrite Hm. left. }
  destruct (foldl_counter_add_keys _ _ _ Hin) as [?|Hnil]; [done|].
  by apply elem_of_nil in Hnil.
Qed.

Lemma most_common_color_is_Some samples :
  samples ≠ [] → is_Some (most_common_color samples).
Proof.
  intros Hs. unfold most_common_color, Counter.
  destruct samples as [|s samples]; [done|]. simpl.
  pose proof (foldl_counter_add_nonempty samples [(s, 1%nat)]) as Hne.
  destruct (foldl counter_add [(s, 1%nat)] samples) as [|e c];
    [by destruct Hne|].
  simpl. destruct (foldl _ e c). eauto.
Qed.

Lemma getpixel_classify {F : Float64} (img : Grid Pixel)
    (bg_color item : Pixel)
    (w h x y : nat) :
  has_size w h img → (x < w)%nat → (y < h)%nat →
  getpixel img x y = Some item →
  getpixel (putdata img (classify_pixels img bg_color)) x y =
    Some (if within_tolerance w h x y item bg_color
          then (255, 255, 255, 0)
          else item).
Proof.
  intros Himg Hx Hy Hitem. unfold putdata, classify_pixels.
  rewrite (getpixel_imap _ img w h) by done. rewrite Hitem. simpl.
  destruct Himg as (-> & -> & _).
  by rewrite index_mod, index_div.
Qed.

Section UniformStrategy4.
Context {F : Float64} {FL : Float64Laws F}.
Context {P : PIL} {HL : PILLaws P} {HB : PILBlankLaws P}.

(** The body of strategy 4 returns an image of one colour fully
    transparent when both sides are at least 20 pixels. *)
Lemma uniform_smart_v2_body (img : Grid Pixel) c w h :
  has_size w h img → (20 ≤ Nat.min w h)%nat → uniform_rgb img c →
  ∃ out, smart_v2_body img = Some out ∧ has_size w h out ∧
         fully_transparent w h out.
Proof.
  intros Himg Hbig Hc.
  destruct (sample_points_spec img w h Himg) as (samples & Hs & Hall).
  assert (samples ≠ []) as Hne.
  { apply (sample_points_nonempty img); [|done].
    destruct Himg as (-> & -> & _). done. }
  destruct (most_common_color_is_Some samples Hne) as [bg_color Hbg].
  assert ((red bg_color, green bg_color, blue bg_color) = c) as Hbgc.
  { apply most_common_color_elem in Hbg.
    rewrite Forall_forall in Hall.
    destruct (Hall bg_color Hbg) as (x & y & Hxy). by apply (Hc x y). }
  set (classified := putdata img (classify_pixels img bg_color)).
  pose proof (has_size_classify img bg_color w h Himg) as Hcl.
  fold classified in Hcl.
  assert (∀ x y, (x < w)%nat → (y < h)%nat →
            getpixel classified x y = Some (255, 255, 255, 0)) as Hwhite.
  { intros x y Hx Hy.
    destruct (getpixel_is_Some img w h x y) as [item Hitem]; [done..|].
    unfold classified.
    rewrite (getpixel_classify img bg_color item w h) by done.
    rewrite within_tolerance_same; [done..|].
    rewrite Hbgc. by apply (Hc x y). }
  destruct (remove_small_regions_spec classified w h Hcl)
    as (mask & out & Hmask & Hout & Hsz & Hcomp).
  destruct (occupancy_mask_spec classified w h Hcl)
    as (mask' & Hmask' & Hsize & Hget).
  assert (mask' = mask) as -> by congruence.
  assert (blank w h mask) as Hblank.
  { intros x y Hx Hy. destruct (Hget x y Hx Hy) as (p & Hp & ->).
    rewrite Hwhite in Hp by done. by injection Hp as <-. }
  exists out. split_and!; [|done|].
  - unfold smart_v2_body. rewrite Hs. cbn [mbind option_bind].
    rewrite Hbg. cbn [mbind option_bind]. done.
  - intros x y Hx Hy. destruct (Hcomp x y Hx Hy) as (m & p & Hm & _ & Ho).
    rewrite (MedianFilter3_blank _ _ _ Hsize Hblank x y Hx Hy) in Hm.
    injection Hm as <-. eauto.
Qed.

Lemma uniform_smart_background_removal_v2 fs path img c :
  fs !! path = Some img → image_ok img →
  (20 ≤ Nat.min (image_width img) (image_height img))%nat →
  uniform_rgb (convert_RGBA img) c →
  ∃ out, smart_background_removal_v2 fs path = Some out ∧
         has_size (image_width img) (image_height img) out ∧
         fully_transparent (image_width img) (image_height img) out.
Proof.
  intros Hopen Hok Hbig Hc.
  destruct (uniform_smart_v2_body (convert_RGBA img) c
              (image_width img) (image_height img))
    as (out & Hout & Hsz & Hclear);
    [by apply image_ok_convert_RGBA|done..|].
  exists out. split_and!; [|done..].
  unfold smart_background_removal_v2.
  rewrite (smart_background_removal_v2_readable fs _ path img Hopen).
  unfold strategy4_result. by rewrite Hout.
Qed.
End UniformStrategy4.

(** The reference backend smooths a blank mask to a blank mask. *)
Lemma window3_blank (g : Grid Z) w h x y :
  has_size w h g → blank w h g → window3 g x y = replicate 9 0.
Proof.
  intros Hg Hblank.
  assert (∀ x' y', default 0 (getpixel g x' y') = 0) as Hzero.
  { intros x' y'. destruct (decide (x' < w ∧ y' < h)%nat) as [[??]|Hout].
    - by rewrite Hblank.
    - unfold getpixel, in_bounds. destruct Hg as (-> & -> & _).
      destruct (Nat.ltb_spec x' w), (Nat.ltb_spec y' h); simpl; try done.
      lia. }
  unfold window3. simpl. by rewrite !Hzero.
Qed.

Lemma filter3_blank f (g : Grid Z) w h :
  f (replicate 9 0) = 0 →
  has_size w h g → blank w h g → blank w h (filter3 f g).
Proof.
  intros Hf Hg Hblank x y Hx Hy. unfold filter3.
  rewrite (getpixel_imap _ g w h) by done.
  rewrite Hblank by done. cbn [fmap option_fmap option_map].
  by rewrite (window3_blank g w h), Hf.
Qed.

Lemma reference_PIL_blank_laws : PILBlankLaws reference_PIL.
Proof. split; simpl; intros w h g; by apply filter3_blank. Qed.

(** ** The real-number reading of the integer tests *)

Lemma sqrt_lt_iff (a : Z) (b : R) :
  0 ≤ a → (0 <= b)%R → (sqrt (IZR a) < b)%R ↔ (IZR a < b * b)%R.
Proof.
  intros Ha Hb. apply IZR_le in Ha. split; intros Hlt.
  - rewrite <- (sqrt_sqrt (IZR a)) by done.
    pose proof (sqrt_pos (IZR a)). nra.
  - apply Rsqr_incrst_0; [|apply sqrt_pos|done].
    unfold Rsqr. rewrite sqrt_sqrt by done. done.
Qed.

(** [np.sqrt(s) < 50] is [s < 2500]. *)
Lemma sqrt_lt_50 (s : Z) :
  0 ≤ s → (s <? 2500) = true ↔ (sqrt (IZR s) < 50)%R.
Proof.
  intros Hs. rewrite Z.ltb_lt, sqrt_lt_iff by (done || lra).
  split; intros Hlt.
  - apply IZR_lt in Hlt. lra.
  - apply lt_IZR. lra.
Qed.

Lemma sqrt_lt_20 (s : Z) :
  0 ≤ s → (s <? 400) = true ↔ (sqrt (IZR s) < 20)%R.
Proof.
  intros Hs. rewrite Z.ltb_lt, sqrt_lt_iff by (done || lra).
  split; intros Hlt.
  - apply IZR_lt in Hlt. lra.
  - apply lt_IZR. lra.
Qed.

Lemma within_tolerance_real (w h x y : nat) (item bg_color : Pixel) :
  (0 < w)%nat →
  real_within_tolerance w h x y item bg_color = true
  ↔ (color_distance item bg_color < tolerance w h x y)%R.
Proof.
  intros Hw. unfold real_within_tolerance, color_distance, tolerance.
  fold (rgb_distance_sq item bg_color).
  set (d := rgb_distance_sq item bg_color).
  set (c := (Z.of_nat x - Z.of_nat (w / 2)) * (Z.of_nat x - Z.of_nat (w / 2))
            + (Z.of_nat y - Z.of_nat (h / 2))
              * (Z.of_nat y - Z.of_nat (h / 2))).
  set (n := Z.of_nat w * Z.of_nat w + Z.of_nat h * Z.of_nat h).
  cbv zeta.
  assert (0 ≤ d) as Hd.
  { unfold d, rgb_distance_sq.
    pose proof (Z.square_nonneg (red item - red bg_color)).
    pose proof (Z.square_nonneg (green item - green bg_color)).
    pose proof (Z.square_nonneg (blue item - blue bg_color)). lia. }
  assert (0 ≤ c) as Hc.
  { unfold c.
    pose proof (Z.square_nonneg (Z.of_nat x - Z.of_nat (w / 2))).
    pose proof (Z.square_nonneg (Z.of_nat y - Z.of_nat (h / 2))). lia. }
  assert (0 < n) as Hn.
  { unfold n. pose proof (Z.square_nonneg (Z.of_nat h)).
    assert (0 < Z.of_nat w * Z.of_nat w) by nia. lia. }
  apply IZR_le in Hd, Hc. apply IZR_lt in Hn.
  assert ((INR w / 2) * (INR w / 2) + (INR h / 2) * (INR h / 2)
          = (sqrt (IZR n) / 2) * (sqrt (IZR n) / 2))%R as Hmax.
  { assert (sqrt (IZR n) * sqrt (IZR n) = IZR n)%R as Hs
      by (apply sqrt_sqrt; lra).
    assert (IZR n = INR w * INR w + INR h * INR h)%R as Hval.
    { unfold n. by rewrite plus_IZR, !mult_IZR, <- !INR_IZR_INZ. }
    lra. }
  pose proof (sqrt_lt_R0 (IZR n) Hn) as HsN.
  rewrite Hmax, sqrt_square by lra.
  pose proof (sqrt_pos (IZR c)) as HsC.
  pose proof (sqrt_pos (IZR d)) as HsD.
  pose proof (sqrt_sqrt (IZR c) Hc) as HC.
  pose proof (sqrt_sqrt (IZR d) Hd) as HD.
  pose proof (sqrt_sqrt (IZR n) (Rlt_le _ _ Hn)) as HN.
  set (sN := sqrt (IZR n)) in *. set (sC := sqrt (IZR c)) in *.
  set (sD := sqrt (IZR d)) in *.
  assert ((sD < 30 + sC / (sN / 2) * 40)%R
          ↔ (sD * sN < 30 * sN + 80 * sC)%R) as ->.
  { replace (30 + sC / (sN / 2) * 40)%R
      with ((30 * sN + 80 * sC) / sN)%R by (field; lra).
    split; intros Hlt.
    - apply (Rmult_lt_compat_r sN) in Hlt; [|done].
      replace ((30 * sN + 80 * sC) / sN * sN)%R
        with (30 * sN + 80 * sC)%R in Hlt by (field; lra). done.
    - apply (Rmult_lt_reg_r sN); [done|].
      replace ((30 * sN + 80 * sC) / sN * sN)%R
        with (30 * sN + 80 * sC)%R by (field; lra). done. }
  set (t := d * n - 900 * n - 6400 * c).
  assert (IZR t = IZR d * IZR n - 900 * IZR n - 6400 * IZR c)%R as Ht.
  { unfold t. rewrite !minus_IZR, !mult_IZR. done. }
  rewrite orb_true_iff, !Z.ltb_lt.
  assert (t * t < 23040000 * (n * c)
          ↔ (IZR t * IZR t < 23040000 * (IZR n * IZR c))%R) as ->.
  { rewrite <- !mult_IZR. split; [apply IZR_lt|apply lt_IZR]. }
  assert (t < 0 ↔ (IZR t < 0)%R) as ->.
  { split; [apply IZR_lt|apply lt_IZR]. }
  set (q := (4800 * (sN * sC))%R).
  assert (0 <= q)%R as Hq by (unfold q; nra).
  assert (q * q = 23040000 * (IZR n * IZR c))%R as Hqq by (unfold q; nra).
  assert ((sD * sN < 30 * sN + 80 * sC)%R ↔ (IZR t < q)%R) as ->.
  { assert (0 <= sD * sN)%R by nra.
    assert (0 <= 30 * sN + 80 * sC)%R by nra.
    assert ((sD * sN) * (sD * sN) = IZR d * IZR n)%R as Ha by nra.
    assert ((30 * sN + 80 * sC) * (30 * sN + 80 * sC)
            = 900 * IZR n + q + 6400 * IZR c)%R as Hb by (unfold q; nra).
    split; intros Hlt.
    - assert ((sD * sN) * (sD * sN)
              < (30 * sN + 80 * sC) * (30 * sN + 80 * sC))%R by nra.
      lra.
    - apply Rnot_le_lt. intros Hle.
      assert ((30 * sN + 80 * sC) * (30 * sN + 80 * sC)
              <= (sD * sN) * (sD * sN))%R by nra.
      lra. }
  rewrite <- Hqq. split.
  - intros [Hneg|Hsq]; [lra|]. apply Rnot_le_lt. intros Hle.
    assert (q * q <= IZR t * IZR t)%R by nra. lra.
  - intros Hlt. destruct (Rlt_le_dec (IZR t) 0) as [?|Hpos]; [by left|].
    right. nra.
Qed.

Lemma lt_sqrt_iff (t x : R) :
  (0 <= t)%R → (0 <= x)%R → (t < sqrt x)%R ↔ (t * t < x)%R.
Proof.
  intros Ht Hx. pose proof (sqrt_pos x). pose proof (sqrt_sqrt x Hx).
  split; intros Hlt; [nra|].
  apply Rnot_le_lt. intros Hle. nra.
Qed.

Lemma farther_than_threshold_real (n : Z) (sums pixel : RGB) (e : Z) :
  0 < n → 0 ≤ e →
  real_farther_than_threshold n sums pixel e = true
  ↔ (clustering_threshold e < clustering_distance n sums pixel)%R.
Proof.
  intros Hn He. unfold real_farther_than_threshold, clustering_distance,
    clustering_threshold. cbv zeta.
  apply IZR_lt in Hn. apply IZR_le in He.
  set (N := IZR n) in *. set (E := IZR e) in *.
  set (pr := IZR pixel.1.1). set (pg := IZR pixel.1.2). set (pb := IZR pixel.2).
  set (sr := IZR sums.1.1). set (sg := IZR sums.1.2). set (sb := IZR sums.2).
  rewrite Z.ltb_lt.
  assert (∀ p s : R, (p - s / N) * (p - s / N)
                     = (N * p - s) * (N * p - s) / (N * N))%R as Hsq.
  { intros p s. field. lra. }
  rewrite lt_sqrt_iff; [|lra|].
  2:{ pose proof (Rle_0_sqr (pr - sr / N)). pose proof (Rle_0_sqr (pg - sg / N)).
      pose proof (Rle_0_sqr (pb - sb / N)). unfold Rsqr in *. lra. }
  rewrite !Hsq.
  set (X := ((N * pr - sr) * (N * pr - sr) + (N * pg - sg) * (N * pg - sg)
             + (N * pb - sb) * (N * pb - sb))%R).
  replace ((N * pr - sr) * (N * pr - sr) / (N * N)
           + (N * pg - sg) * (N * pg - sg) / (N * N)
           + (N * pb - sb) * (N * pb - sb) / (N * N))%R
    with (X / (N * N))%R by (unfold X; field; lra).
  assert ((n * (120 + e)) * (n * (120 + e))
            < 4 * ((n * pixel.1.1 - sums.1.1) * (n * pixel.1.1 - sums.1.1)
                   + (n * pixel.1.2 - sums.1.2) * (n * pixel.1.2 - sums.1.2)
                   + (n * pixel.2 - sums.2) * (n * pixel.2 - sums.2))
          ↔ ((N * (120 + E)) * (N * (120 + E)) < 4 * X)%R) as ->.
  { unfold X, N, E, pr, pg, pb, sr, sg, sb.
    rewrite <- !mult_IZR, <- !minus_IZR, <- !plus_IZR, <- !mult_IZR,
      <- !plus_IZR, <- !mult_IZR.
    split; [apply IZR_lt|apply lt_IZR]. }
  assert (0 < N * N)%R as HNN by nra.
  split; intros Hlt.
  - apply (Rmult_lt_reg_r (N * N)); [done|].
    replace (X / (N * N) * (N * N))%R with X by (field; lra). nra.
  - apply (Rmult_lt_compat_r (N * N)) in Hlt; [|done].
    replace (X / (N * N) * (N * N))%R with X in Hlt by (field; lra). nra.
Qed.

(** The comparisons on the reals meet the laws of images of one
    colour. *)
Lemma real_arithmetic_laws : Float64Laws real_arithmetic.
Proof.
  split.
  - intros samples c e Hne Hc He.
    cbn [farther_than_threshold real_arithmetic].
    rewrite (rgb_sum_uniform c samples Hc).
    unfold real_farther_than_threshold. simpl. apply Z.ltb_ge.
    rewrite !Z.sub_diag. simpl. apply Z.square_nonneg.
  - intros w h x y item bg_color Hx Hy [= Hr Hg Hb].
    cbn [within_tolerance real_arithmetic].
    unfold real_within_tolerance. rewrite Hr, Hg, Hb.
    apply orb_true_iff. left. apply Z.ltb_lt.
    rewrite !Z.sub_diag.
    set (dx := Z.of_nat x - Z.of_nat (w / 2)).
    set (dy := Z.of_nat y - Z.of_nat (h / 2)).
    pose proof (Z.square_nonneg dx). pose proof (Z.square_nonneg dy).
    pose proof (Z.square_nonneg (Z.of_nat h)).
    assert (0 < Z.of_nat w * Z.of_nat w) by nia.
    lia.
Qed.

(** The falloff value is the truncation of [255 * (50 - sqrt d) / 30]. *)
Lemma distance_mask_value_real (d : Z) :
  400 ≤ d < 2500 →
  (IZR (distance_mask_value (Some d))
     <= 255 * (50 - sqrt (IZR d)) / 30
     < IZR (distance_mask_value (Some d)) + 1)%R.
Proof.
  intros [Hlo Hhi]. unfold distance_mask_value.
  destruct (Z.ltb_spec d 400); [lia|]. destruct (Z.ltb_spec d 2500); [|lia].
  assert (255 * sqrt (IZR d) = sqrt (IZR (65025 * d)))%R as Hr.
  { rewrite mult_IZR, sqrt_mult by (try apply IZR_le; lra || lia).
    replace 65025%R with (255 * 255)%R by lra.
    rewrite sqrt_square by lra. done. }
  assert (0 < 65025 * d) as Hm by lia.
  set (m := 65025 * d) in *. set (u := Z.sqrt_up m).
  destruct (Z.sqrt_up_spec m Hm) as [Hu1 Hu2].
  fold u in Hu1, Hu2. unfold Z.pred in Hu1.
  assert (0 < u) as Hupos by (unfold u; apply Z.sqrt_up_pos; lia).
  set (r := sqrt (IZR m)) in *.
  assert (IZR u - 1 < r <= IZR u)%R as [Hr1 Hr2].
  { assert (0 <= IZR m)%R as Hnn by (apply IZR_le; lia).
    pose proof (sqrt_pos (IZR m)) as Hrpos. fold r in Hrpos.
    pose proof (sqrt_sqrt _ Hnn) as Hrr. fold r in Hrr.
    apply IZR_lt in Hu1. apply IZR_le in Hu2. apply IZR_lt in Hupos.
    rewrite mult_IZR, plus_IZR in Hu1. rewrite mult_IZR in Hu2.
    split.
    - apply Rnot_le_lt. intros Hle.
      assert (r * r <= (IZR u - 1) * (IZR u - 1))%R
        by (apply Rmult_le_compat; lra).
      lra.
    - apply Rnot_lt_le. intros Hlt.
      assert (IZR u * IZR u < r * r)%R
        by (apply Rmult_le_0_lt_compat; lra).
      lra. }
  set (v := (12750 - u) / 30).
  pose proof (Z.div_mod (12750 - u) 30 ltac:(lia)) as Hdm.
  pose proof (Z.mod_pos_bound (12750 - u) 30 ltac:(lia)) as Hmod.
  fold v in Hdm.
  assert (30 * v ≤ 12750 - u ≤ 30 * v + 29) as [Hv1 Hv2] by lia.
  apply IZR_le in Hv1, Hv2.
  rewrite minus_IZR in Hv1, Hv2. rewrite mult_IZR in Hv1.
  rewrite plus_IZR, mult_IZR in Hv2.
  replace (255 * (50 - sqrt (IZR d)) / 30)%R with ((12750 - r) / 30)%R
    by (rewrite <- Hr; field).
  split; lra.
Qed.

(** ** Grids with the same pixels *)

Lemma grid_ext {A} (g1 g2 : Grid A) w h :
  has_size w h g1 → has_size w h g2 →
  (∀ x y, (x < w)%nat → (y < h)%nat → getpixel g1 x y = getpixel g2 x y) →
  g1 = g2.
Proof.
  intros (Hw1 & Hh1 & Hl1) (Hw2 & Hh2 & Hl2) Hget.
  assert (has_size w h g1) as Hg1 by done.
  assert (has_size w h g2) as Hg2 by done.
  destruct g1 as [w1 h1 c1], g2 as [w2 h2 c2]. simpl in *. subst.
  f_equal. apply list_eq. intros i.
  destruct (decide (i < h * w)%nat) as [Hi|Hi].
  - assert (0 < w)%nat as Hw by nia.
    assert (i mod w < w)%nat as Hx by (apply Nat.mod_upper_bound; lia).
    assert (i / w < h)%nat as Hy by (apply Nat.Div0.div_lt_upper_bound; lia).
    specialize (Hget (i mod w)%nat (i / w)%nat Hx Hy).
    unfold getpixel in Hget.
    rewrite (in_bounds_true _ w h), (in_bounds_true _ w h) in Hget by done.
    simpl in Hget.
    replace (i / w * w + i mod w)%nat with i in Hget; [done|].
    rewrite (Nat.div_mod_eq i w) at 1. lia.
  - rewrite !lookup_ge_None_2 by lia. done.
Qed.

(** ** The concrete images are readable *)

Lemma image_ok_one_pixel : image_ok one_pixel.
Proof. split_and!; simpl; [lia|lia|by split_and!]. Qed.

Lemma image_ok_one_grey_pixel : image_ok one_grey_pixel.
Proof. split_and!; simpl; [lia|lia|by split_and!]. Qed.

Lemma image_ok_flat_block : image_ok flat_block.
Proof. split_and!; simpl; [lia|lia|by split_and!]. Qed.

(** * The claims *)

(** ** C1: the fallback chain *)

Section Fallback.
Context {F : Float64} `{PILLaws}.

(** C1.  For a readable image the view gets an image under every
    selector.  With "white" it is the result of strategy 4, or the
    original converted to RGBA when the body of strategy 4 raises.
    With any selector other than "white", "edge" and "color" it is the
    consensus of strategies 1 to 3, or, when one of them or the
    combiner raises, what strategy 4 returns, with the same last
    resort.  "edge" and "color" call strategy 3 and strategy 2, which
    return on every readable image, and the result is theirs. *)
Theorem fallback_chain (fs : gmap string Image) (method : option string)
    (path : string) (img : Image) :
  fs !! path = Some img → image_ok img →
  let original := convert_RGBA img in
  let consensus :=
    r1 ← grabcut_simulation img;
    r2 ← color_clustering_removal img;
    r3 ← advanced_edge_segmentation img;
    combine_results [r1; r2; r3] original in
  let strategy4 := default original (smart_v2_body original) in
  let result := home_process fs method path in
  is_Some result ∧
  (method = Some "white" → result = Some strategy4) ∧
  (¬ recognised method → result = Some (default strategy4 consensus)) ∧
  (method = Some "edge" →
     is_Some (advanced_edge_segmentation img) ∧
     result = advanced_edge_segmentation img) ∧
  (method = Some "color" →
     is_Some (color_clustering_removal img) ∧
     result = color_clustering_removal img).
Proof.
  intros Hopen Hok original consensus strategy4 result.
  pose proof (home_process_readable fs grabcut_simulation
    color_clustering_removal advanced_edge_segmentation smart_v2_body
    method path img Hopen) as (Hwhite & Hdefault & Hedge & Hcolor).
  cbv zeta in Hwhite, Hdefault, Hedge, Hcolor.
  unfold strategy4_result, ensemble in Hwhite, Hdefault.
  fold (home_process fs method path) in Hwhite, Hdefault, Hedge, Hcolor.
  fold result in Hwhite, Hdefault, Hedge, Hcolor.
  fold original in Hwhite, Hdefault. fold strategy4 in Hwhite, Hdefault.
  fold consensus in Hdefault.
  destruct (color_clustering_removal_spec img Hok)
    as (_ & r2 & _ & Hr2 & _).
  destruct (advanced_edge_segmentation_spec img Hok) as (r3 & Hr3 & _).
  split_and!; [|exact Hwhite|exact Hdefault| |].
  - destruct (decide (method = Some "white")) as [Hm|Hnw].
    { rewrite (Hwhite Hm). eauto. }
    destruct (decide (method = Some "edge")) as [Hm|Hne].
    { rewrite (Hedge Hm), Hr3. eauto. }
    destruct (decide (method = Some "color")) as [Hm|Hnc].
    { rewrite (Hcolor Hm), Hr2. eauto. }
    rewrite Hdefault; [eauto|]. intros [?|[?|?]]; done.
  - intros Hm. split; [rewrite Hr3; eauto|exact (Hedge Hm)].
  - intros Hm. split; [rewrite Hr2; eauto|exact (Hcolor Hm)].
Qed.
End Fallback.

(** On a grey upload strategy 1 raises, and the default selector
    returns what strategy 4 returns: here the converted original. *)
Lemma fallback_chain_witness :
  uploads one_grey_pixel !! "upload.png" = Some one_grey_pixel ∧
  image_ok one_grey_pixel ∧
  home_process (F:=real_arithmetic) (H:=reference_PIL)
    (uploads one_grey_pixel) None "upload.png"
  = Some (mkGrid 1 1 [(7, 7, 7, 255)]).
Proof.
  split; [by vm_compute|]. split; [exact image_ok_one_grey_pixel|].
  destruct (fallback_chain (F:=real_arithmetic) (H:=reference_PIL_laws)
    (uploads one_grey_pixel) None "upload.png" one_grey_pixel
    eq_refl image_ok_one_grey_pixel) as (_ & _ & Hdefault & _).
  rewrite Hdefault; [by vm_compute|].
  intros [?|[?|?]]; discriminate.
Defined.

(** ** C2: the consensus law *)

(** C2.  At every position of three strategy results of one size, the
    combined pixel is non-transparent iff at least two of the three
    pixels have alpha > 0; it is then, channel by channel, the
    truncated average over exactly those pixels, and (0,0,0,0)
    otherwise. *)
Theorem combine_results_majority
    (r1 r2 r3 original : Grid Pixel) (w h x y : nat) :
  has_size w h r1 → has_size w h r2 → has_size w h r3 →
  has_size w h original →
  (x < w)%nat → (y < h)%nat →
  ∃ out p1 p2 p3 p,
    combine_results [r1; r2; r3] original = Some out ∧
    getpixel r1 x y = Some p1 ∧ getpixel r2 x y = Some p2 ∧
    getpixel r3 x y = Some p3 ∧ getpixel out x y = Some p ∧
    let vs := voters [p1; p2; p3] in
    let n := Z.of_nat (length vs) in
    (0 < alpha p ↔ 2 ≤ n) ∧
    (2 ≤ n →
       red p = channel_sum red vs / n ∧
       green p = channel_sum green vs / n ∧
       blue p = channel_sum blue vs / n ∧
       alpha p = channel_sum alpha vs / n) ∧
    (n < 2 → p = (0, 0, 0, 0)).
Proof.
  intros H1 H2 H3 Ho Hx Hy.
  destruct (combine_results_pixel r1 r2 r3 original w h)
    as (out & Hout & _ & Hget); [done..|].
  destruct (Hget x y) as (p1 & p2 & p3 & Hp1 & Hp2 & Hp3 & Hp); [done..|].
  cbv zeta in Hp. eexists out, p1, p2, p3, _.
  split_and!; [done..|]. cbv zeta.
  pose proof (voters_alpha_sum [p1; p2; p3]) as Hsum.
  set (vs := voters [p1; p2; p3]) in *.
  set (n := Z.of_nat (length vs)) in *.
  destruct (Z.leb_spec 2 n) as [Hn|Hn].
  - split_and!; [|intros _; by split_and!|lia].
    split; [done|]. intros _. unfold alpha at 1. simpl.
    apply Z.lt_le_trans with 1; [done|].
    apply Z.div_le_lower_bound; lia.
  - split_and!; [|lia|done].
    unfold alpha. simpl. lia.
Qed.

Lemma combine_results_majority_witness :
  has_size 2 1 vote_a ∧ has_size 2 1 vote_b ∧ has_size 2 1 vote_c ∧
  (0 < 2)%nat ∧ (0 < 1)%nat ∧
  ∃ out p1 p2 p3 p,
    combine_results [vote_a; vote_b; vote_c] vote_a = Some out ∧
    getpixel vote_a 0 0 = Some p1 ∧ getpixel vote_b 0 0 = Some p2 ∧
    getpixel vote_c 0 0 = Some p3 ∧ getpixel out 0 0 = Some p ∧
    let vs := voters [p1; p2; p3] in
    let n := Z.of_nat (length vs) in
    (0 < alpha p ↔ 2 ≤ n) ∧
    (2 ≤ n →
       red p = channel_sum red vs / n ∧
       green p = channel_sum green vs / n ∧
       blue p = channel_sum blue vs / n ∧
       alpha p = channel_sum alpha vs / n) ∧
    (n < 2 → p = (0, 0, 0, 0)).
Proof.
  assert (has_size 2 1 vote_a) as Ha by (by split_and!).
  assert (has_size 2 1 vote_b) as Hb by (by split_and!).
  assert (has_size 2 1 vote_c) as Hc by (by split_and!).
  split_and!; [done| done| done| lia| lia|].
  apply (combine_results_majority vote_a vote_b vote_c vote_a 2 1 0 0);
    [done| done| done| done| lia| lia].
Defined.

(** The consensus of the three examples: the first pixel has two
    votes and is their truncated average, the second has one vote and
    is transparent. *)
Example combine_results_example :
  combine_results [vote_a; vote_b; vote_c] vote_a
  = Some (mkGrid 2 1 [(11, 20, 30, 255); (0, 0, 0, 0)]).
Proof. by vm_compute. Qed.

(** ** C3: the method selector *)

Section Dispatch.
Context {F : Float64} `{PILLaws}.

(** C3, as the code has it.  "white" runs strategy 4 alone, "edge"
    strategy 3 alone and "color" strategy 2 alone; "smart", an absent
    selector and any other value select the ensemble, which returns an
    image for every readable upload.  On an image with several bands
    strategies 1, 2 and 3 all return and the result is the consensus of
    their three results and of no other.  On an image with one band
    strategy 1 raises, no consensus is formed, and the result is what
    strategy 4 returns. *)
Theorem method_dispatch (fs : gmap string Image) (method : option string)
    (path : string) (img : Image) :
  fs !! path = Some img → image_ok img →
  let result := home_process fs method path in
  (method = Some "white" → result = smart_background_removal_v2 fs path) ∧
  (method = Some "edge" → result = advanced_edge_segmentation img) ∧
  (method = Some "color" → result = color_clustering_removal img) ∧
  (¬ recognised method →
     result = advanced_background_removal fs path ∧ is_Some result ∧
     (multiband img = true →
        ∃ r1 r2 r3,
          grabcut_simulation img = Some r1 ∧
          color_clustering_removal img = Some r2 ∧
          advanced_edge_segmentation img = Some r3 ∧
          is_Some (combine_results [r1; r2; r3] (convert_RGBA img)) ∧
          result = combine_results [r1; r2; r3] (convert_RGBA img)) ∧
     (multiband img = false →
        grabcut_simulation img = None ∧
        result = smart_background_removal_v2 fs path)).
Proof.
  intros Hopen Hok result.
  pose proof (home_process_readable fs grabcut_simulation
    color_clustering_removal advanced_edge_segmentation smart_v2_body
    method path img Hopen) as (Hwhite & Hdefault & Hedge & Hcolor).
  cbv zeta in Hwhite, Hdefault, Hedge, Hcolor.
  unfold strategy4_result, ensemble in Hwhite, Hdefault.
  fold (home_process fs method path) in Hwhite, Hdefault, Hedge, Hcolor.
  fold result in Hwhite, Hdefault, Hedge, Hcolor.
  assert (smart_background_removal_v2 fs path
          = Some (default (convert_RGBA img)
                    (smart_v2_body (convert_RGBA img)))) as Hs4.
  { unfold smart_background_removal_v2.
    by rewrite (smart_background_removal_v2_readable fs _ path img). }
  split_and!; [|done|done|].
  - intros Hm. by rewrite Hwhite, Hs4.
  - intros Hm. split_and!.
    + unfold result, home_process. by apply home_process_default.
    + rewrite Hdefault by done. eauto.
    + intros Hmb.
      destruct (grabcut_simulation_spec img Hok Hmb)
        as (_ & r1 & _ & Hr1 & _).
      destruct (color_clustering_removal_spec img Hok)
        as (_ & r2 & _ & Hr2 & Hs2 & _).
      destruct (advanced_edge_segmentation_spec img Hok)
        as (r3 & Hr3 & Hs3).
      destruct (combine_results_pixel r1 r2 r3 (convert_RGBA img)
                  (image_width img) (image_height img))
        as (out & Hout & _);
        [by apply grabcut_simulation_size|done|done|
         by apply image_ok_convert_RGBA|].
      exists r1, r2, r3. split_and!; [done..|by rewrite Hout|].
      rewrite Hdefault by done. rewrite Hr1, Hr2, Hr3.
      cbn [mbind option_bind]. by rewrite Hout.
    + intros Hmb. destruct img as [g| |]; try discriminate.
      assert (grabcut_simulation (ImgL g) = None) as Hr1.
      { unfold grabcut_simulation.
        by rewrite (grabcut_mask_single_band g Hok). }
      split; [done|]. rewrite Hdefault by done. by rewrite Hr1, Hs4.
Qed.
End Dispatch.

Lemma method_dispatch_witness :
  uploads flat_block !! "upload.png" = Some flat_block ∧
  image_ok flat_block ∧
  home_process (F:=real_arithmetic) (H:=reference_PIL)
    (uploads flat_block) (Some "auto") "upload.png"
  = advanced_background_removal (F:=real_arithmetic) (H:=reference_PIL)
      (uploads flat_block) "upload.png".
Proof.
  split; [by vm_compute|]. split; [exact image_ok_flat_block|].
  destruct (method_dispatch (F:=real_arithmetic) (H:=reference_PIL_laws)
    (uploads flat_block) (Some "auto") "upload.png" flat_block eq_refl
    image_ok_flat_block) as (_ & _ & _ & Hd).
  destruct Hd as (Heq & _); [|exact Heq].
  intros [?|[?|?]]; discriminate.
Defined.

(** The claim fails on a grey upload.  Strategy 1 raises on it, so the
    three strategies have no results to combine, and the absent
    selector returns what strategy 4 returns: here the original
    converted to RGBA. *)
Lemma grey_upload_has_no_consensus :
  image_ok one_grey_pixel ∧
  grabcut_simulation (H:=reference_PIL) one_grey_pixel = None ∧
  home_process (F:=real_arithmetic) (H:=reference_PIL)
    (uploads one_grey_pixel) None "upload.png"
  = smart_background_removal_v2 (F:=real_arithmetic) (H:=reference_PIL)
      (uploads one_grey_pixel) "upload.png" ∧
  home_process (F:=real_arithmetic) (H:=reference_PIL)
    (uploads one_grey_pixel) None "upload.png"
  = Some (mkGrid 1 1 [(7, 7, 7, 255)]) ∧
  ¬ ∃ r1 r2 r3,
      grabcut_simulation (H:=reference_PIL) one_grey_pixel = Some r1 ∧
      color_clustering_removal (F:=real_arithmetic) (H:=reference_PIL)
        one_grey_pixel = Some r2 ∧
      advanced_edge_segmentation (H:=reference_PIL) one_grey_pixel
        = Some r3 ∧
      home_process (F:=real_arithmetic) (H:=reference_PIL)
        (uploads one_grey_pixel) None "upload.png"
      = combine_results [r1; r2; r3] (convert_RGBA one_grey_pixel).
Proof.
  split; [exact image_ok_one_grey_pixel|].
  split; [by vm_compute|]. split; [by vm_compute|].
  split; [by vm_compute|].
  intros (r1 & r2 & r3 & Hr1 & _). vm_compute in Hr1. discriminate Hr1.
Qed.

(** ** C4: the centre-seed mask *)

(** C4 at a 4×4 black image whose corner pixel is (64, 0, 0).  The
    corner lies outside the seeded rectangle and at Euclidean distance
    64 from the centre colour, which is not below 50; the [uint8]
    arithmetic of the source squares 64 to 0, and the mask marks the
    corner foreground. *)
Theorem grabcut_distance_wraps_around :
  ∃ mask,
    grabcut_mask dark_red_corner = Some mask ∧
    np_get (np_array dark_red_corner) 0 0 = Some (Bands [64; 0; 0]) ∧
    np_get (np_array dark_red_corner) 2 2 = Some (Bands [0; 0; 0]) ∧
    in_center_rect 4 4 0 0 = false ∧
    distance_sq [64; 0; 0] [0; 0; 0] = 64 * 64 ∧
    sum_sq_diff_uint8 [64; 0; 0] [0; 0; 0] = 0 ∧
    np_get mask 0 0 = Some 255.
Proof. eexists. split_and!; vm_compute; reflexivity. Qed.

(** The claim holds on the wrapped distance, which is what the code
    computes: before the median filter a pixel of an RGB or RGBA image
    is foreground iff it lies in the central rectangle or its wrapped
    squared distance to the centre colour is below 2500; and the
    strategy copies a pixel iff the filtered mask exceeds 128. *)
Lemma grabcut_mask_on_wrapped_distance `{PILLaws} img x y :
  image_ok img → multiband img = true →
  (x < image_width img)%nat → (y < image_height img)%nat →
  ∃ mask out pc cc m p,
    grabcut_mask img = Some mask ∧ grabcut_simulation img = Some out ∧
    np_get (np_array img) y x = Some (Bands pc) ∧
    np_get (np_array img) (image_height img / 2) (image_width img / 2)
      = Some (Bands cc) ∧
    np_get mask y x =
      Some (if in_center_rect (image_width img) (image_height img) x y
               || (sum_sq_diff_uint8 (take 3 pc) (take 3 cc) <? 2500)
            then 255 else 0) ∧
    getpixel (MedianFilter3 mask) x y = Some m ∧
    getpixel (convert_RGBA img) x y = Some p ∧
    getpixel out x y = Some (if 128 <? m then p else (0, 0, 0, 0)).
Proof.
  intros Hok Hmb Hx Hy.
  destruct (grabcut_mask_spec img Hok Hmb)
    as (mask & cc & Hmask & _ & Hcc & Hget).
  destruct (grabcut_simulation_spec img Hok Hmb)
    as (mask' & out & Hmask' & Hout & _ & Hcomp).
  assert (mask' = mask) as -> by congruence.
  destruct (Hget x y Hx Hy) as (pc & Hpc & Hm).
  destruct (Hcomp x y Hx Hy) as (m & p & Hfm & Hp & Ho).
  exists mask, out, pc, cc, m, p. split_and!; done.
Qed.

(** ** C5: images of one colour *)

Section FlatBlock.
Context {F : Float64} {FL : Float64Laws F}.

(** C5 at a 2×2 image of one colour: strategy 2 returns it fully
    transparent, strategy 4 returns it fully opaque.  The image is
    narrower than 20 pixels, its border strip is empty, and strategy 4
    ends in its exception handler. *)
Theorem flat_small_image_stays_opaque :
  color_clustering_removal (H:=reference_PIL) flat_block
    = Some (mkGrid 2 2 (replicate 4 (0, 0, 0, 0))) ∧
  sample_points (convert_RGBA flat_block) = Some [] ∧
  smart_v2_body (H:=reference_PIL) (convert_RGBA flat_block) = None ∧
  smart_background_removal_v2 (H:=reference_PIL) (uploads flat_block)
    "upload.png"
    = Some (mkGrid 2 2 (replicate 4 (10, 20, 30, 255))).
Proof.
  assert (smart_v2_body (H:=reference_PIL) (convert_RGBA flat_block) = None)
    as Hbody by (apply smart_v2_body_small; simpl; lia).
  split_and!; [|by vm_compute|exact Hbody|].
  - destruct (color_clustering_mask_spec flat_block image_ok_flat_block)
      as (samples & mask & Hs & Hmask & Hsz & Hget).
    destruct (color_clustering_removal_spec (H:=reference_PIL_laws)
                flat_block image_ok_flat_block)
      as (mask' & out & Hmask' & Hout & Hosz & Hcomp).
    assert (mask' = mask) as -> by congruence.
    vm_compute in Hs. injection Hs as <-.
    assert (blank 2 2 mask) as Hblank.
    { intros x y Hx Hy. destruct (Hget x y Hx Hy) as (pixel & Hpixel & Hm).
      unfold np_get in Hpixel, Hm. rewrite Hm.
      assert (pixel = (10, 20, 30)) as ->.
      { destruct x as [|[|x]], y as [|[|y]]; try lia;
          vm_compute in Hpixel; congruence. }
      rewrite farther_than_threshold_same; [reflexivity|discriminate| |lia].
      repeat apply Forall_cons_2; [reflexivity..|apply Forall_nil_2]. }
    rewrite Hout. f_equal.
    apply (grid_ext _ _ 2 2); [exact Hosz|by split_and!|].
    intros x y Hx Hy. destruct (Hcomp x y Hx Hy) as (m & p & Hm & _ & ->).
    rewrite (GaussianBlur2_blank (PILBlankLaws:=reference_PIL_blank_laws)
               _ _ mask Hsz Hblank x y Hx Hy) in Hm.
    injection Hm as <-.
    destruct x as [|[|x]], y as [|[|y]]; try lia; reflexivity.
  - unfold smart_background_removal_v2.
    rewrite (smart_background_removal_v2_readable (uploads flat_block) _
               "upload.png" flat_block) by (by vm_compute).
    unfold strategy4_result. rewrite Hbody. reflexivity.
Qed.
End FlatBlock.

Lemma flat_small_image_stays_opaque_witness :
  color_clustering_removal (F:=real_arithmetic) (H:=reference_PIL)
    flat_block
  = Some (mkGrid 2 2 (replicate 4 (0, 0, 0, 0))).
Proof.
  destruct (flat_small_image_stays_opaque (FL:=real_arithmetic_laws))
    as (Hclear & _).
  exact Hclear.
Defined.

(** ** C6 and C7: no crash, same size *)

Section Totality.
Context {F : Float64} `{PILLaws}.

Lemma strategy4_result_size img :
  image_ok img →
  has_size (image_width img) (image_height img)
    (strategy4_result smart_v2_body img).
Proof.
  intros Hok. unfold strategy4_result.
  pose proof (image_ok_convert_RGBA img Hok) as Hconv.
  destruct (smart_v2_body (convert_RGBA img)) as [out|] eqn:Hbody; simpl;
    [|done].
  by apply (smart_v2_body_size (convert_RGBA img)).
Qed.

Lemma ensemble_size img out :
  image_ok img →
  ensemble grabcut_simulation color_clustering_removal
    advanced_edge_segmentation img = Some out →
  has_size (image_width img) (image_height img) out.
Proof.
  intros Hok. unfold ensemble.
  destruct (grabcut_simulation img) as [r1|] eqn:Hr1; [|done].
  destruct (color_clustering_removal_spec img Hok)
    as (_ & r2 & _ & -> & Hs2 & _).
  destruct (advanced_edge_segmentation_spec img Hok) as (r3 & -> & Hs3).
  cbn [mbind option_bind]. intros Hout.
  destruct (combine_results_pixel r1 r2 r3 (convert_RGBA img)
              (image_width img) (image_height img))
    as (out' & Hout' & Hsz & _);
    [by apply grabcut_simulation_size|done|done|
     by apply image_ok_convert_RGBA|].
  by simplify_eq.
Qed.

(** Every entry point returns an image of the size of a readable
    upload, whatever the selector. *)
Lemma home_process_total fs method path img :
  fs !! path = Some img → image_ok img →
  ∃ out, home_process fs method path = Some out ∧
         has_size (image_width img) (image_height img) out.
Proof.
  intros Hopen Hok.
  pose proof (home_process_readable fs grabcut_simulation
    color_clustering_removal advanced_edge_segmentation smart_v2_body
    method path img Hopen) as (Hwhite & Hdefault & Hedge & Hcolor).
  cbv zeta in Hwhite, Hdefault, Hedge, Hcolor.
  fold (home_process fs method path) in Hwhite, Hdefault, Hedge, Hcolor.
  fold (strategy4_result smart_v2_body img) in Hwhite, Hdefault.
  fold (ensemble grabcut_simulation color_clustering_removal
          advanced_edge_segmentation img) in Hdefault.
  destruct (decide (method = Some "white")) as [Hw|Hw].
  { rewrite Hwhite by done. eauto using strategy4_result_size. }
  destruct (decide (method = Some "edge")) as [He|He].
  { rewrite Hedge by done. by apply advanced_edge_segmentation_spec. }
  destruct (decide (method = Some "color")) as [Hc|Hc].
  { rewrite Hcolor by done.
    destruct (color_clustering_removal_spec img Hok)
      as (_ & out & _ & -> & Hs & _). eauto. }
  rewrite Hdefault by (unfold recognised; tauto).
  eexists. split; [done|].
  destruct (ensemble _ _ _ img) as [out|] eqn:Hens; simpl.
  - by apply ensemble_size.
  - by apply strategy4_result_size.
Qed.

(** C6.  On a 1×1 image of any mode: strategies 2 and 3 return;
    strategy 1 returns on an image with several bands and raises on a
    grey one, inside the ensemble, which catches it; the border
    sampling of strategy 4 reads no pixel at all, its body raises on
    the empty sample list and its own handler returns an image; so
    every entry point and every selector of the view returns an
    image. *)
Theorem one_pixel_image_never_crashes (fs : gmap string Image)
    (path : string) (img : Image) :
  fs !! path = Some img → image_ok img →
  image_width img = 1%nat → image_height img = 1%nat →
  is_Some (color_clustering_removal img) ∧
  is_Some (advanced_edge_segmentation img) ∧
  (multiband img = true → is_Some (grabcut_simulation img)) ∧
  (multiband img = false →
     grabcut_simulation img = None ∧
     is_Some (advanced_background_removal fs path)) ∧
  sample_points (convert_RGBA img) = Some [] ∧
  smart_v2_body (convert_RGBA img) = None ∧
  is_Some (smart_background_removal_v2 fs path) ∧
  ∀ method, is_Some (home_process fs method path).
Proof.
  intros Hopen Hok Hw Hh.
  assert (∀ method, is_Some (home_process fs method path)) as Htotal.
  { intros method.
    destruct (home_process_total fs method path img Hopen Hok)
      as (out & -> & _). eauto. }
  split_and!.
  - destruct (color_clustering_removal_spec img Hok)
      as (_ & out & _ & -> & _). eauto.
  - destruct (advanced_edge_segmentation_spec img Hok) as (out & -> & _).
    eauto.
  - intros Hmb.
    destruct (grabcut_simulation_spec img Hok Hmb)
      as (_ & out & _ & -> & _). eauto.
  - intros Hmb. split.
    + destruct img; try done. by apply grabcut_simulation_single_band.
    + apply (Htotal None).
  - apply sample_points_small.
    pose proof (image_ok_convert_RGBA img Hok) as (-> & -> & _). lia.
  - apply smart_v2_body_small.
    pose proof (image_ok_convert_RGBA img Hok) as (-> & -> & _). lia.
  - apply (Htotal (Some "white")).
  - done.
Qed.

(** C7.  For a readable image, strategies 2, 3 and 4 and the ensemble
    return an image of the width and height of the input; strategy 1
    does on every image with several bands, and on a grey image it
    returns nothing. *)
Theorem strategies_preserve_size (fs : gmap string Image) (path : string)
    (img : Image) :
  fs !! path = Some img → image_ok img →
  let w := image_width img in
  let h := image_height img in
  (∀ out, grabcut_simulation img = Some out → has_size w h out) ∧
  (multiband img = true →
     ∃ out, grabcut_simulation img = Some out ∧ has_size w h out) ∧
  (∃ out, color_clustering_removal img = Some out ∧ has_size w h out) ∧
  (∃ out, advanced_edge_segmentation img = Some out ∧ has_size w h out) ∧
  (∃ out, smart_background_removal_v2 fs path = Some out ∧
          has_size w h out) ∧
  (∃ out, advanced_background_removal fs path = Some out ∧
          has_size w h out).
Proof.
  intros Hopen Hok w h. split_and!.
  - intros out. by apply grabcut_simulation_size.
  - intros Hmb.
    destruct (grabcut_simulation_spec img Hok Hmb)
      as (_ & out & _ & Hout & Hs & _). eauto.
  - destruct (color_clustering_removal_spec img Hok)
      as (_ & out & _ & Hout & Hs & _). eauto.
  - by apply advanced_edge_segmentation_spec.
  - apply (home_process_total fs (Some "white") path img Hopen Hok).
  - apply (home_process_total fs None path img Hopen Hok).
Qed.
End Totality.

Lemma one_pixel_image_never_crashes_witness :
  uploads one_grey_pixel !! "upload.png" = Some one_grey_pixel ∧
  image_ok one_grey_pixel ∧
  image_width one_grey_pixel = 1%nat ∧ image_height one_grey_pixel = 1%nat ∧
  grabcut_simulation (H:=reference_PIL) one_grey_pixel = None ∧
  ∀ method,
    is_Some (home_process (F:=real_arithmetic) (H:=reference_PIL)
               (uploads one_grey_pixel) method "upload.png").
Proof.
  split_and!; [by vm_compute|apply image_ok_one_grey_pixel|done|done|..];
    destruct (one_pixel_image_never_crashes (F:=real_arithmetic)
      (H:=reference_PIL_laws) (uploads one_grey_pixel) "upload.png"
      one_grey_pixel eq_refl
      image_ok_one_grey_pixel eq_refl eq_refl)
      as (_ & _ & _ & Hgrey & _ & _ & _ & Hall).
  - by destruct Hgrey as [-> _].
  - exact Hall.
Defined.

Lemma strategies_preserve_size_witness :
  uploads flat_block !! "upload.png" = Some flat_block ∧
  image_ok flat_block ∧
  ∃ out, advanced_background_removal (F:=real_arithmetic)
           (H:=reference_PIL) (uploads flat_block) "upload.png"
         = Some out ∧
         has_size 2 2 out.
Proof.
  split_and!; [by vm_compute|apply image_ok_flat_block|].
  destruct (strategies_preserve_size (F:=real_arithmetic)
    (H:=reference_PIL_laws) (uploads flat_block) "upload.png" flat_block
    eq_refl image_ok_flat_block)
    as (_ & _ & _ & _ & _ & Hens).
  exact Hens.
Defined.

(** ** C9: what the classification pass writes *)

Section Classification.
Context {F : Float64} {P : PIL}.

(** C9.  On an image whose sides are both at least 20 pixels the body
    of strategy 4 finds a background colour and is the clean-up pass
    applied to the classified image.  In the classified image the
    pixel at a position is [(255, 255, 255, 0)], whatever its colour
    was, when the test [color_distance < tolerance] holds there, and
    the pixel itself, unchanged, when it does not; the image keeps its
    size.  (On a smaller image the body raises before a pixel is
    classified.) *)
Theorem classification_writes_white_transparent (img : Grid Pixel)
    (w h : nat) :
  has_size w h img → (20 ≤ Nat.min w h)%nat →
  ∃ sample_points' bg_color,
    sample_points img = Some sample_points' ∧
    most_common_color sample_points' = Some bg_color ∧
    let new_data := classify_pixels img bg_color in
    smart_v2_body img = remove_small_regions (putdata img new_data) ∧
    has_size w h (putdata img new_data) ∧
    ∀ x y item, (x < w)%nat → (y < h)%nat →
      getpixel img x y = Some item →
      ∃ written,
        getpixel (putdata img new_data) x y = Some written ∧
        (within_tolerance w h x y item bg_color = true →
           written = (255, 255, 255, 0)) ∧
        (within_tolerance w h x y item bg_color = false →
           written = item).
Proof.
  intros Himg Hbig.
  destruct (sample_points_spec img w h Himg) as (samples & Hs & _).
  assert (samples ≠ []) as Hne.
  { apply (sample_points_nonempty img); [|done].
    destruct Himg as (-> & -> & _). done. }
  destruct (most_common_color_is_Some samples Hne) as [bg_color Hbg].
  exists samples, bg_color. cbv zeta. split_and!; [done|done| | |].
  - unfold smart_v2_body. rewrite Hs. cbn [mbind option_bind].
    rewrite Hbg. reflexivity.
  - by apply has_size_classify.
  - intros x y item Hx Hy Hitem.
    rewrite (getpixel_classify img bg_color item w h x y Himg Hx Hy Hitem).
    destruct (within_tolerance w h x y item bg_color).
    + exists (255, 255, 255, 0). split_and!; done.
    + exists item. split_and!; done.
Qed.
End Classification.

Lemma classification_writes_white_transparent_witness :
  has_size 20 20 (convert_RGBA flat_tile) ∧
  (20 ≤ Nat.min 20 20)%nat ∧
  ∃ bg_color,
    getpixel (putdata (convert_RGBA flat_tile)
                (classify_pixels (F:=real_arithmetic)
                   (convert_RGBA flat_tile) bg_color)) 0 0
    = Some (255, 255, 255, 0).
Proof.
  assert (has_size 20 20 (convert_RGBA flat_tile)) as Hsz
    by (split; [reflexivity|split; reflexivity]).
  assert (20 ≤ Nat.min 20 20)%nat as Hbig by (simpl; lia).
  split; [exact Hsz|]. split; [exact Hbig|].
  destruct (classification_writes_white_transparent (F:=real_arithmetic)
              (P:=reference_PIL) (convert_RGBA flat_tile) 20 20 Hsz Hbig)
    as (samples & bg_color & Hs & Hbg & _ & _ & Hrule).
  vm_compute in Hs. injection Hs as <-.
  vm_compute in Hbg. injection Hbg as <-.
  destruct (Hrule 0%nat 0%nat (10, 20, 30, 255)) as (written & Hw & Hin & _);
    [lia|lia|reflexivity|].
  exists (10, 20, 30, 255). rewrite Hw. f_equal. apply Hin. reflexivity.
Defined.

(** ** C10: images smaller than the border strip *)

(** C10, as the code has it.  When the smaller side of a readable
    image is below 20 the strip is 0 pixels wide, no sample is
    collected, the most common colour of no sample raises, and
    strategy 4 returns the original converted to RGBA: every pixel
    opaque when the original has no alpha channel, and the original
    itself, with its own alpha, when it has one. *)
Theorem small_image_returned_unchanged {F : Float64} `{PIL}
    (fs : gmap string Image)
    (path : string) (img : Image) :
  fs !! path = Some img →
  (Nat.min (image_width img) (image_height img) < 20)%nat →
  let converted := convert_RGBA img in
  (Nat.min (width converted) (height converted) / 20 = 0)%nat ∧
  sample_points converted = Some [] ∧
  most_common_color [] = None ∧
  smart_v2_body converted = None ∧
  smart_background_removal_v2 fs path = Some converted ∧
  (has_alpha img = false → Forall (λ p, alpha p = 255) (cells converted)) ∧
  (∀ g, img = ImgRGBA g → converted = g).
Proof.
  intros Hopen Hsmall converted.
  assert (Nat.min (width converted) (height converted) < 20)%nat as Hsmall'.
  { unfold converted. by destruct img. }
  split_and!.
  - by apply Nat.div_small.
  - by apply sample_points_small.
  - done.
  - unfold smart_v2_body. by rewrite sample_points_small.
  - unfold smart_background_removal_v2.
    rewrite (smart_background_removal_v2_readable fs _ path img Hopen).
    unfold strategy4_result. fold converted.
    unfold smart_v2_body. by rewrite sample_points_small.
  - intros Halpha. unfold converted.
    destruct img as [g|g|g]; [| |done]; simpl;
      apply Forall_fmap, Forall_true; done.
  - by intros g ->.
Qed.

Lemma small_image_returned_unchanged_witness :
  uploads flat_block !! "upload.png" = Some flat_block ∧
  (Nat.min (image_width flat_block) (image_height flat_block) < 20)%nat ∧
  smart_background_removal_v2 (F:=real_arithmetic) (H:=reference_PIL)
    (uploads flat_block) "upload.png" = Some (convert_RGBA flat_block).
Proof.
  assert (Nat.min (image_width flat_block) (image_height flat_block) < 20)%nat
    as Hsmall by (simpl; lia).
  split_and!; [by vm_compute|done|].
  destruct (small_image_returned_unchanged (F:=real_arithmetic)
    (H:=reference_PIL) (uploads flat_block) "upload.png" flat_block
    eq_refl Hsmall)
    as (_ & _ & _ & _ & Hrun & _).
  exact Hrun.
Defined.

(** The claim fails on an image with an alpha channel: a transparent
    1×1 RGBA upload comes back transparent, not fully opaque. *)
Lemma small_clear_image_stays_clear :
  (Nat.min (image_width one_clear_pixel) (image_height one_clear_pixel)
   < 20)%nat ∧
  smart_background_removal_v2 (F:=real_arithmetic) (H:=reference_PIL)
    (uploads one_clear_pixel) "upload.png"
    = Some (mkGrid 1 1 [(10, 20, 30, 0)]) ∧
  ¬ Forall (λ p, alpha p = 255) [(10, 20, 30, 0)].
Proof.
  split_and!; [simpl; lia|by vm_compute|].
  intros Hall. apply Forall_cons in Hall as [Ha _]. discriminate Ha.
Qed.

(** * Further properties

    Properties of the code beyond the claims above: the error and edge
    behaviour of the strategies and of the combiner, the invariants of
    the sampling and counting passes, and how the strategies compose in
    the ensemble. *)

(** ** Loops and grids *)

(** A loop raises as soon as one of its iterations raises whatever the
    state. *)
Lemma for_each_fails {A S} (l : list A) (body : A → S → option S) a s :
  a ∈ l → (∀ s', body a s' = None) → for_each l body s = None.
Proof.
  intros Hin Hfail. revert s.
  induction l as [|b l IH]; intros s; [by apply elem_of_nil in Hin|].
  simpl. apply elem_of_cons in Hin as [<-|Hin].
  - by rewrite Hfail.
  - destruct (body b s); simpl; [by apply IH|done].
Qed.

Lemma for_each_length_exact {A B} (k : nat) (l : list A)
    (body : A → list B → option (list B)) s s' :
  (∀ a t t', body a t = Some t' → length t' = (length t + k)%nat) →
  for_each l body s = Some s' →
  length s' = (length s + k * length l)%nat.
Proof.
  intros Hbody. revert s. induction l as [|a l IH]; intros s; simpl.
  { intros [= <-]. lia. }
  destruct (body a s) as [t|] eqn:Ht; simpl; [|done].
  intros Hs'. rewrite (IH _ Hs'), (Hbody _ _ _ Ht). lia.
Qed.

Lemma length_range_step stop step :
  length (range_step stop step) = ((stop + step - 1) / step)%nat.
Proof. unfold range_step. by rewrite length_fmap, length_seq. Qed.

Lemma getpixel_in_bounds {A} (g : Grid A) w h x y v :
  has_size w h g → getpixel g x y = Some v →
  (x < w)%nat ∧ (y < h)%nat ∧ v ∈ cells g.
Proof.
  intros (Hw & Hh & _). unfold getpixel, in_bounds. rewrite Hw, Hh.
  destruct (Nat.ltb_spec x w), (Nat.ltb_spec y h); simpl; try done.
  intros Hv. split_and!; [done..|]. by apply list_elem_of_lookup_2 in Hv.
Qed.

(** ** The reference backend keeps a full mask full *)

Lemma window3_full (g : Grid Z) w h x y :
  has_size w h g → full w h g → (x < w)%nat → (y < h)%nat →
  window3 g x y = replicate 9 255.
Proof.
  intros Hg Hfull Hx Hy.
  assert (∀ x' y', default 0 (getpixel g (Nat.min (width g - 1) x')
                                         (Nat.min (height g - 1) y')) = 255)
    as Hval.
  { intros x' y'. destruct Hg as (Hw & Hh & _). rewrite Hw, Hh.
    rewrite Hfull; [done|lia..]. }
  unfold window3. simpl. by rewrite !Hval.
Qed.

Lemma filter3_full f (g : Grid Z) w h :
  f (replicate 9 255) = 255 →
  has_size w h g → full w h g → full w h (filter3 f g).
Proof.
  intros Hf Hg Hfull x y Hx Hy. unfold filter3.
  rewrite (getpixel_imap _ g w h) by done.
  rewrite Hfull by done. cbn [fmap option_fmap option_map].
  destruct Hg as (Hw & Hh & Hlen). rewrite Hw.
  rewrite index_mod, index_div by done.
  by rewrite (window3_full g w h), Hf.
Qed.

Lemma reference_PIL_full_laws : PILFullLaws reference_PIL.
Proof. split; simpl; intros w h g; by apply filter3_full. Qed.

(** ** More concrete images *)

Lemma image_ok_flat_tile : image_ok flat_tile.
Proof. split_and!; simpl; [lia|lia|apply has_size_new]. Qed.

Lemma has_size_flat_tile : has_size 20 20 (convert_RGBA flat_tile).
Proof. exact (image_ok_convert_RGBA flat_tile image_ok_flat_tile). Qed.

Lemma image_ok_convert_flat_block :
  has_size 2 2 (convert_RGBA flat_block).
Proof. exact (image_ok_convert_RGBA flat_block image_ok_flat_block). Qed.

Lemma uniform_rgb_new (w h : nat) (c : RGB) :
  uniform_rgb (convert_RGBA (ImgRGB (Image_new w h c))) c.
Proof.
  intros x y p Hp. unfold convert_RGBA in Hp.
  rewrite getpixel_grid_map in Hp.
  destruct (getpixel (Image_new w h c) x y) as [c'|] eqn:Hc; [|done].
  injection Hp as <-.
  destruct (getpixel_in_bounds _ w h x y c' (has_size_new w h c) Hc)
    as (_ & _ & Hin).
  apply elem_of_replicate in Hin as [-> _]. by destruct c as [[r g] b].
Qed.

Lemma uniform_rgb_flat_tile :
  uniform_rgb (convert_RGBA flat_tile) (10, 20, 30).
Proof. apply uniform_rgb_new. Qed.

(** ** Uploads that cannot be read, and grey uploads *)

(** X1.  An upload that cannot be opened makes every entry point of
    the engine raise, and with it the view's dispatch under every
    selector: the handler of [advanced_background_removal] calls
    strategy 4, and the handler of strategy 4 opens the file again. *)
Theorem unreadable_upload_raises {F : Float64} `{PIL}
    (fs : gmap string Image)
    (path : string) :
  fs !! path = None →
  smart_background_removal_v2 fs path = None ∧
  advanced_background_removal fs path = None ∧
  edge_based_removal fs path = None ∧
  color_threshold_removal fs path = None ∧
  ∀ method, home_process fs method path = None.
Proof.
  intros Hopen.
  assert (smart_background_removal_v2 fs path = None) as H4.
  { unfold smart_background_removal_v2.
    by apply smart_background_removal_v2_unreadable. }
  assert (advanced_background_removal fs path = None) as Hens.
  { unfold advanced_background_removal,
      Orchestrator.advanced_background_removal.
    fold (smart_background_removal_v2 fs path). rewrite H4.
    unfold Orchestrator.Image_open. by rewrite Hopen. }
  assert (edge_based_removal fs path = None) as H3.
  { unfold edge_based_removal, Orchestrator.edge_based_removal,
      Orchestrator.Image_open. by rewrite Hopen. }
  assert (color_threshold_removal fs path = None) as H2.
  { unfold color_threshold_removal, Orchestrator.color_threshold_removal,
      Orchestrator.Image_open. by rewrite Hopen. }
  split_and!; [done..|]. intros method.
  unfold home_process, Orchestrator.home_process.
  fold (remove_white_background fs path). fold (edge_based_removal fs path).
  fold (color_threshold_removal fs path).
  fold (smart_background_removal fs path).
  repeat case_decide; done.
Qed.

Lemma unreadable_upload_raises_witness :
  uploads one_pixel !! "missing.png" = None ∧
  ∀ method,
    home_process (F:=real_arithmetic) (H:=reference_PIL)
      (uploads one_pixel) method "missing.png"
    = None.
Proof.
  split; [by vm_compute|].
  destruct (unreadable_upload_raises (F:=real_arithmetic)
              (H:=reference_PIL) (uploads one_pixel) "missing.png")
    as (_ & _ & _ & _ & Hhome); [by vm_compute|].
  exact Hhome.
Defined.

(** X2.  On a readable grey (single-band) image strategy 1 raises:
    [pixel_color[:3]] slices a numpy scalar.  The ensemble never gets
    to vote, and the default selector returns exactly what the selector
    "white" returns, the result of strategy 4. *)
Theorem grey_upload_gets_strategy4 {F : Float64} `{PIL}
    (fs : gmap string Image)
    (path : string) (g : Grid Z) :
  fs !! path = Some (ImgL g) → image_ok (ImgL g) →
  grabcut_mask (ImgL g) = None ∧
  grabcut_simulation (ImgL g) = None ∧
  advanced_background_removal fs path = smart_background_removal_v2 fs path ∧
  home_process fs None path = home_process fs (Some "white") path.
Proof.
  intros Hopen Hok.
  pose proof (grabcut_mask_single_band g Hok) as Hmask.
  assert (grabcut_simulation (ImgL g) = None) as Hs1.
  { unfold grabcut_simulation. by rewrite Hmask. }
  assert (advanced_background_removal fs path
          = smart_background_removal_v2 fs path) as Hens.
  { unfold advanced_background_removal, smart_background_removal_v2.
    rewrite (advanced_background_removal_readable fs _ _ _ _ path _ Hopen).
    rewrite (smart_background_removal_v2_readable fs _ path _ Hopen).
    unfold ensemble. by rewrite Hs1. }
  split_and!; [done..|].
  pose proof (home_process_readable fs grabcut_simulation
    color_clustering_removal advanced_edge_segmentation smart_v2_body
    None path _ Hopen) as (_ & Hdefault & _).
  pose proof (home_process_readable fs grabcut_simulation
    color_clustering_removal advanced_edge_segmentation smart_v2_body
    (Some "white") path _ Hopen) as (Hwhite & _).
  unfold home_process. cbv zeta in Hdefault, Hwhite.
  rewrite Hwhite by done.
  rewrite Hdefault by (intros [?|[?|?]]; discriminate).
  unfold ensemble. by rewrite Hs1.
Qed.

Lemma grey_upload_gets_strategy4_witness :
  uploads one_grey_pixel !! "upload.png" = Some one_grey_pixel ∧
  image_ok one_grey_pixel ∧
  home_process (F:=real_arithmetic) (H:=reference_PIL)
    (uploads one_grey_pixel) None "upload.png"
  = home_process (F:=real_arithmetic) (H:=reference_PIL)
      (uploads one_grey_pixel) (Some "white") "upload.png".
Proof.
  split_and!; [by vm_compute|apply image_ok_one_grey_pixel|].
  destruct (grey_upload_gets_strategy4 (F:=real_arithmetic)
    (H:=reference_PIL)
    (uploads one_grey_pixel) "upload.png" (mkGrid 1 1 [7]) eq_refl
    image_ok_one_grey_pixel) as (_ & _ & _ & Hhome).
  exact Hhome.
Defined.

(** ** Strategy 1 returns its input *)

Lemma pixel_div_same (p : Pixel) (k : Z) :
  0 < k →
  (k * red p / k, k * green p / k, k * blue p / k, k * alpha p / k) = p.
Proof.
  intros Hk. destruct p as [[[r g] b] a]. unfold red, green, blue, alpha.
  simpl. pair_eq; rewrite Z.mul_comm; apply Z.div_mul; lia.
Qed.

Section Strategy1Identity.
Context {P : PIL} {HL : PILLaws P} {HF : PILFullLaws P}.

Lemma grabcut_simulation_identity img :
  image_ok img → multiband img = true →
  grabcut_simulation img = Some (convert_RGBA img).
Proof.
  intros Hok Hmb.
  destruct (grabcut_simulation_spec img Hok Hmb)
    as (mask & out & Hmask & Hout & Hsz & Hpix).
  destruct (grabcut_mask_all_foreground img Hok Hmb)
    as (mask' & Hmask' & Hmsz & Hfull).
  rewrite Hmask in Hmask'. injection Hmask' as <-.
  rewrite Hout. f_equal.
  apply (grid_ext _ _ (image_width img) (image_height img));
    [done|by apply image_ok_convert_RGBA|].
  intros x y Hx Hy.
  destruct (Hpix x y Hx Hy) as (m & p & Hm & Hp & ->).
  rewrite (MedianFilter3_full _ _ mask Hmsz) in Hm; [|exact Hfull|done..].
  injection Hm as <-. by rewrite Hp.
Qed.

(** X3.  Strategy 1 removes nothing.  On every image with several
    bands the mask it builds is 255 at every position before the median
    filter (the [uint8] distance to the centre colour is always below
    50), so with a median filter that keeps such a mask the result is
    the input converted to RGBA, pixel for pixel. *)
Theorem grabcut_simulation_returns_input (img : Image) :
  image_ok img → multiband img = true →
  (∃ mask, grabcut_mask img = Some mask ∧
           full (image_width img) (image_height img) mask) ∧
  grabcut_simulation img = Some (convert_RGBA img).
Proof.
  intros Hok Hmb. split; [|by apply grabcut_simulation_identity].
  destruct (grabcut_mask_all_foreground img Hok Hmb)
    as (mask & Hmask & _ & Hfull).
  exists mask. done.
Qed.

End Strategy1Identity.

Lemma grabcut_simulation_returns_input_witness :
  image_ok flat_block ∧ multiband flat_block = true ∧
  grabcut_simulation (H:=reference_PIL) flat_block
  = Some (convert_RGBA flat_block).
Proof.
  split_and!; [exact image_ok_flat_block|reflexivity|].
  destruct (grabcut_simulation_returns_input (HL:=reference_PIL_laws)
              (HF:=reference_PIL_full_laws) flat_block image_ok_flat_block
              eq_refl) as [_ Hid].
  exact Hid.
Defined.

(** ** The combiner over any number of results *)

Lemma pixels_at_is_Some (results : list (Grid Pixel)) w h x y :
  Forall (has_size w h) results → (x < w)%nat → (y < h)%nat →
  is_Some (pixels_at results x y).
Proof.
  intros Hall Hx Hy. unfold pixels_at.
  induction Hall as [|r results Hr _ IH]; [by eexists|].
  destruct IH as [ps Hps].
  destruct (getpixel_is_Some r w h x y) as [p Hp]; [done..|].
  exists (p :: ps). rewrite mapM_Some. constructor; [done|].
  by apply mapM_Some.
Qed.

Lemma count_votes_from (results : list (Grid Pixel)) x y ps
    (votes : Z) (pixel_sum : Pixel) :
  pixels_at results x y = Some ps →
  for_each results (λ result '(votes, pixel_sum),
    pixel ← getpixel result x y;
    if 0 <? alpha pixel
    then Some (votes + 1, pixel_add pixel_sum pixel)
    else Some (votes, pixel_sum)) (votes, pixel_sum)
  = Some (votes + Z.of_nat (length (voters ps)),
          (red pixel_sum + channel_sum red (voters ps),
           green pixel_sum + channel_sum green (voters ps),
           blue pixel_sum + channel_sum blue (voters ps),
           alpha pixel_sum + channel_sum alpha (voters ps))).
Proof.
  unfold pixels_at. rewrite mapM_Some. intros Hps.
  revert votes pixel_sum.
  induction Hps as [|r p results ps Hp _ IH]; intros votes pixel_sum.
  { destruct pixel_sum as [[[r g] b] a]. unfold voters. simpl.
    f_equal. unfold red, green, blue, alpha. simpl.
    pair_eq; lia. }
  cbn [for_each]. rewrite Hp. cbn [mbind option_bind].
  unfold voters. cbn [List.filter]. fold (voters ps).
  destruct (0 <? alpha p); cbn [mbind option_bind].
  - rewrite IH. f_equal. rewrite length_cons, Nat2Z.inj_succ.
    unfold pixel_add, red, green, blue, alpha. simpl.
    pair_eq; lia.
  - apply IH.
Qed.

Lemma count_votes_any (results : list (Grid Pixel)) x y ps :
  pixels_at results x y = Some ps →
  count_votes results x y =
    Some (Z.of_nat (length (voters ps)),
          (channel_sum red (voters ps), channel_sum green (voters ps),
           channel_sum blue (voters ps), channel_sum alpha (voters ps))).
Proof.
  intros Hps.
  exact (count_votes_from results x y ps 0 (0, 0, 0, 0) Hps).
Qed.

Lemma combine_results_pixels (results : list (Grid Pixel))
    (original : Grid Pixel) (w h : nat) :
  Forall (has_size w h) results → has_size w h original →
  ∃ out, combine_results results original = Some out ∧
         has_size w h out ∧
         ∀ x y, (x < w)%nat → (y < h)%nat →
           ∃ ps, pixels_at results x y = Some ps ∧
                 getpixel out x y =
                   Some (if 2 <=? Z.of_nat (length (voters ps))
                         then average (voters ps)
                         else (0, 0, 0, 0)).
Proof.
  intros Hall Ho. unfold combine_results.
  destruct Ho as (Hw & Hh & _). rewrite Hw, Hh.
  destruct (paint_xy
    (λ x y, '(votes, pixel_sum) ← count_votes results x y;
            if 2 <=? votes then Some (Some (pixel_div pixel_sum votes))
            else Some None)
    (λ x y final_result,
       '(votes, pixel_sum) ← count_votes results x y;
       if 2 <=? votes
       then putpixel final_result x y (pixel_div pixel_sum votes)
       else Some final_result)
    w h (Image_new w h (0, 0, 0, 0)))
    as (out & Hloop & Hout & Hget).
  - apply has_size_new.
  - intros x y Hx Hy.
    destruct (pixels_at_is_Some results w h x y) as [ps Hps]; [done..|].
    rewrite (count_votes_any _ _ _ ps) by done. simpl.
    by destruct (2 <=? _).
  - intros x y g' Hx Hy.
    destruct (count_votes results x y) as [[votes pixel_sum]|];
      simpl; [|done].
    by destruct (2 <=? votes).
  - exists out. split_and!; [done..|]. intros x y Hx Hy.
    destruct (pixels_at_is_Some results w h x y) as [ps Hps]; [done..|].
    exists ps. split; [done|].
    rewrite Hget by done.
    rewrite (count_votes_any _ _ _ ps) by done. simpl.
    destruct (2 <=? _); simpl; [done|]. by apply getpixel_new.
Qed.

Lemma voters_length_le (ps : list Pixel) :
  (length (voters ps) ≤ length ps)%nat.
Proof. unfold voters. apply List.filter_length_le. Qed.

Lemma pixels_at_length results x y ps :
  pixels_at results x y = Some ps → length ps = length results.
Proof.
  unfold pixels_at. rewrite mapM_Some. intros Hps.
  symmetry. by apply Forall2_length in Hps.
Qed.

(** Voters that are all copies of one pixel average to that pixel. *)
Lemma average_same (p : Pixel) (vs : list Pixel) :
  vs ≠ [] → Forall (λ q, q = p) vs → average vs = p.
Proof.
  intros Hne Hall. unfold average.
  assert (∀ channel : Pixel → Z,
            channel_sum channel vs = Z.of_nat (length vs) * channel p)
    as Hsum.
  { intros channel. unfold channel_sum.
    induction Hall as [|q vs -> _ IH]; [simpl; lia|].
    rewrite length_cons, Nat2Z.inj_succ. cbn [foldr].
    destruct vs as [|q' vs']; [simpl; lia|].
    rewrite IH by done. lia. }
  rewrite !Hsum. apply pixel_div_same.
  destruct vs; [done|]. rewrite length_cons. lia.
Qed.

(** X4.  [combine_results] over any number of results of the size of
    the original: it returns an image of that size; a position with at
    least two non-transparent pixels among the results gets their
    channel-wise average, rounded down, and every other position stays
    (0, 0, 0, 0).  The threshold is two votes whatever the number of
    results, so fewer than two results give a fully transparent
    image. *)
Theorem combine_results_two_votes (results : list (Grid Pixel))
    (original : Grid Pixel) (w h : nat) :
  Forall (has_size w h) results → has_size w h original →
  ∃ out,
    combine_results results original = Some out ∧ has_size w h out ∧
    (∀ x y, (x < w)%nat → (y < h)%nat →
       ∃ ps p,
         pixels_at results x y = Some ps ∧ getpixel out x y = Some p ∧
         ((2 ≤ length (voters ps))%nat → p = average (voters ps)) ∧
         ((length (voters ps) < 2)%nat → p = (0, 0, 0, 0))) ∧
    ((length results < 2)%nat → fully_transparent w h out).
Proof.
  intros Hall Ho.
  destruct (combine_results_pixels results original w h Hall Ho)
    as (out & Hout & Hsz & Hpix).
  exists out. split_and!; [done..| |].
  - intros x y Hx Hy. destruct (Hpix x y Hx Hy) as (ps & Hps & Hp).
    exists ps. eexists. split_and!; [done|exact Hp|..].
    + intros Hn. destruct (Z.leb_spec 2 (Z.of_nat (length (voters ps))));
        [done|lia].
    + intros Hn. destruct (Z.leb_spec 2 (Z.of_nat (length (voters ps))));
        [lia|done].
  - intros Hfew x y Hx Hy. destruct (Hpix x y Hx Hy) as (ps & Hps & Hp).
    pose proof (pixels_at_length _ _ _ _ Hps).
    pose proof (voters_length_le ps).
    destruct (Z.leb_spec 2 (Z.of_nat (length (voters ps)))); [lia|].
    eauto.
Qed.

Lemma combine_results_two_votes_witness :
  Forall (has_size 2 1) [vote_a; vote_b] ∧ has_size 2 1 vote_a ∧
  ∃ out,
    combine_results [vote_a; vote_b] vote_a = Some out ∧
    getpixel out 0 0 = Some (average [(10, 20, 30, 255); (13, 20, 31, 255)]).
Proof.
  assert (Forall (has_size 2 1) [vote_a; vote_b]) as Hall
    by (repeat constructor).
  assert (has_size 2 1 vote_a) as Ho by (by split_and!).
  split_and!; [done..|].
  destruct (combine_results_two_votes [vote_a; vote_b] vote_a 2 1 Hall Ho)
    as (out & Hout & _ & Hpix & _).
  exists out. split; [done|].
  destruct (Hpix 0%nat 0%nat) as (ps & p & Hps & Hp & Hvote & _); [lia..|].
  injection Hps as <-. rewrite Hp. f_equal. apply Hvote. simpl. lia.
Defined.

(** X5.  A result that is narrower or lower than the original makes
    [combine_results] raise: the loops run over the size of the
    original and [getpixel] leaves the smaller result. *)
Theorem combine_results_smaller_result_raises
    (results : list (Grid Pixel)) (original r : Grid Pixel) :
  r ∈ results →
  (0 < width original)%nat → (0 < height original)%nat →
  (width r < width original ∨ height r < height original)%nat →
  combine_results results original = None.
Proof.
  intros Hr Hw Hh Hsmall. unfold combine_results.
  rewrite for_each_prod.
  apply (for_each_fails _ _ ((width original - 1)%nat,
                             (height original - 1)%nat)).
  { apply elem_of_list_prod. split; apply elem_of_range; lia. }
  intros final_result. cbn [fst snd].
  assert (count_votes results (width original - 1) (height original - 1)
          = None) as ->; [|done].
  unfold count_votes. apply (for_each_fails _ _ r); [done|].
  intros [votes pixel_sum].
  assert (getpixel r (width original - 1) (height original - 1) = None)
    as ->; [|done].
  unfold getpixel, in_bounds.
  destruct (Nat.ltb_spec (width original - 1) (width r)),
    (Nat.ltb_spec (height original - 1) (height r)); simpl; try done.
  lia.
Qed.

Lemma combine_results_smaller_result_raises_witness :
  convert_RGBA one_pixel ∈ [vote_a; convert_RGBA one_pixel] ∧
  (0 < width vote_a)%nat ∧ (0 < height vote_a)%nat ∧
  (width (convert_RGBA one_pixel) < width vote_a)%nat ∧
  combine_results [vote_a; convert_RGBA one_pixel] vote_a = None.
Proof.
  assert (convert_RGBA one_pixel ∈ [vote_a; convert_RGBA one_pixel]) as Hin
    by (right; left).
  assert (0 < width vote_a)%nat as Hw by (simpl; lia).
  assert (0 < height vote_a)%nat as Hh by (simpl; lia).
  assert (width (convert_RGBA one_pixel) < width vote_a)%nat as Hlt
    by (simpl; lia).
  split_and!; [done..|].
  exact (combine_results_smaller_result_raises _ _ _ Hin Hw Hh
           (or_introl Hlt)).
Defined.

(** ** The mask of strategy 2 *)

Lemma mapM_Forall {A B} (f : A → option B) (Q : B → Prop) l k :
  mapM f l = Some k → (∀ a b, f a = Some b → Q b) → Forall Q k.
Proof.
  rewrite mapM_Some. intros Hk HQ.
  induction Hk as [|a b l k Hab _ IH]; constructor; eauto.
Qed.

Lemma edge_pixels_on_border (a : Grid RGB) samples :
  edge_pixels a = Some samples → Forall (on_border a) samples.
Proof.
  unfold edge_pixels. intros Hs.
  destruct (np_row _ 0) as [top|] eqn:Htop; [|done].
  destruct (np_row _ (height a - 1)) as [bottom|] eqn:Hbottom; [|done].
  destruct (np_col _ 0) as [left|] eqn:Hleft; [|done].
  destruct (np_col _ (width a - 1)) as [right|] eqn:Hright; [|done].
  injection Hs as <-. rewrite !Forall_app. split_and!.
  - apply (mapM_Forall _ _ _ _ Htop). intros x c Hc.
    exists x, 0%nat. split; [done|]. auto.
  - apply (mapM_Forall _ _ _ _ Hbottom). intros x c Hc.
    exists x, (height a - 1)%nat. split; [done|]. auto.
  - apply (mapM_Forall _ _ _ _ Hleft). intros y c Hc.
    exists 0%nat, y. split; [done|]. auto.
  - apply (mapM_Forall _ _ _ _ Hright). intros y c Hc.
    exists (width a - 1)%nat, y. split; [done|]. auto.
Qed.

Section Strategy2Extras.
Context {F : Float64}.

(** X6.  The mask of strategy 2 before the blur.  The background
    colour is computed from [2 * width + 2 * height] samples, all taken
    on the outermost rows and columns (the corners are counted twice);
    a position is marked 255 when the test [distance > threshold] holds
    for its pixel, those samples and its distance to the nearest side
    of the image, and is 0 otherwise. *)
Theorem color_clustering_mask_rule (img : Image) :
  image_ok img →
  let w := image_width img in
  let h := image_height img in
  ∃ samples mask,
    edge_pixels (convert_RGB img) = Some samples ∧
    length samples = (2 * w + 2 * h)%nat ∧
    Forall (on_border (convert_RGB img)) samples ∧
    color_clustering_mask img = Some mask ∧ has_size w h mask ∧
    ∀ x y, (x < w)%nat → (y < h)%nat →
      ∃ pixel,
        np_get (convert_RGB img) y x = Some pixel ∧
        let edge_distance :=
          Nat.min (Nat.min x y) (Nat.min (w - x - 1) (h - y - 1)) in
        np_get mask y x
        = Some (if farther_than_threshold samples pixel
                     (Z.of_nat edge_distance)
                then 255 else 0).
Proof.
  intros Hok w h.
  destruct (color_clustering_mask_spec img Hok)
    as (samples & mask & Hs & Hmask & Hsz & Hpix).
  fold w h in Hsz, Hpix.
  assert (length samples = (2 * w + 2 * h)%nat) as Hlen
    by (by apply (edge_pixels_length (convert_RGB img));
        [apply image_ok_convert_RGB|]).
  exists samples, mask.
  split_and!; [done|done|by apply edge_pixels_on_border|done..|].
  intros x y Hx Hy.
  destruct (Hpix x y Hx Hy) as (pixel & Hpixel & Hv).
  exists pixel. split; [done|exact Hv].
Qed.

End Strategy2Extras.

Lemma color_clustering_mask_rule_witness :
  image_ok one_pixel ∧
  ∃ samples,
    edge_pixels (convert_RGB one_pixel) = Some samples ∧
    length samples = 4%nat.
Proof.
  split; [exact image_ok_one_pixel|].
  destruct (color_clustering_mask_rule (F:=real_arithmetic) one_pixel
              image_ok_one_pixel)
    as (samples & mask & Hs & Hlen & _ & _).
  exists samples. exact (conj Hs Hlen).
Defined.

Section LowContrast.
Context {F : Float64} {P : PIL} {HL : PILLaws P} {HB : PILBlankLaws P}.

(** X7.  Strategy 2 removes everything from an image on which the
    test [distance > threshold] fails at every position: the mask is 0
    everywhere and the result is fully transparent, for every backend
    whose blur keeps an all-zero mask all-zero. *)
Theorem low_contrast_image_is_cleared (img : Image) (samples : list RGB) :
  image_ok img →
  edge_pixels (convert_RGB img) = Some samples →
  (∀ x y pixel,
     getpixel (convert_RGB img) x y = Some pixel →
     farther_than_threshold samples pixel
       (Z.of_nat (Nat.min (Nat.min x y)
                    (Nat.min (image_width img - x - 1)
                       (image_height img - y - 1)))) = false) →
  ∃ mask out,
    color_clustering_mask img = Some mask ∧
    blank (image_width img) (image_height img) mask ∧
    color_clustering_removal img = Some out ∧
    has_size (image_width img) (image_height img) out ∧
    fully_transparent (image_width img) (image_height img) out.
Proof.
  intros Hok Hs Hnear.
  destruct (color_clustering_mask_spec img Hok)
    as (samples' & mask & Hs' & Hmask & Hmsz & Hval).
  assert (samples' = samples) as -> by congruence.
  destruct (color_clustering_removal_spec img Hok)
    as (mask' & out & Hmask' & Hout & Hsz & Hpix).
  assert (mask' = mask) as -> by congruence.
  assert (blank (image_width img) (image_height img) mask) as Hblank.
  { intros x y Hx Hy. destruct (Hval x y Hx Hy) as (pixel & Hpixel & Hv).
    unfold np_get in Hpixel, Hv. rewrite Hv.
    by rewrite (Hnear x y pixel Hpixel). }
  exists mask, out. split_and!; [done..|].
  intros x y Hx Hy. destruct (Hpix x y Hx Hy) as (m & p & Hm & Hp & Hq).
  rewrite (GaussianBlur2_blank _ _ _ Hmsz Hblank x y Hx Hy) in Hm.
  injection Hm as <-. eauto.
Qed.

End LowContrast.

Lemma low_contrast_image_is_cleared_witness :
  image_ok one_pixel ∧
  edge_pixels (convert_RGB one_pixel)
    = Some (replicate 4 (10, 20, 30)) ∧
  ∃ out, color_clustering_removal (F:=real_arithmetic) (H:=reference_PIL)
           one_pixel = Some out ∧
         fully_transparent 1 1 out.
Proof.
  assert (edge_pixels (convert_RGB one_pixel)
            = Some (replicate 4 (10, 20, 30))) as Hs by (by vm_compute).
  split; [exact image_ok_one_pixel|]. split; [exact Hs|].
  destruct (low_contrast_image_is_cleared (F:=real_arithmetic)
              (HL:=reference_PIL_laws) (HB:=reference_PIL_blank_laws)
              one_pixel (replicate 4 (10, 20, 30)) image_ok_one_pixel Hs)
    as (mask & out & _ & _ & Hout & _ & Hclear).
  { intros x y pixel Hpixel.
    destruct (getpixel_in_bounds _ 1 1 x y pixel
                (image_ok_convert_RGB one_pixel image_ok_one_pixel) Hpixel)
      as (Hx & Hy & Hin).
    apply list_elem_of_singleton in Hin. subst pixel.
    assert (x = 0%nat) as -> by lia. assert (y = 0%nat) as -> by lia.
    reflexivity. }
  exists out. exact (conj Hout Hclear).
Defined.

(** ** The distance mask and strategy 3 *)

Lemma collect_edge_points (edges : Grid Z) w h (ps acc : list (nat * nat)) :
  has_size w h edges →
  (∀ p, p ∈ ps → (p.1 < w)%nat ∧ (p.2 < h)%nat) →
  for_each ps (λ p edge_pixels,
    e ← getpixel edges p.1 p.2;
    if 50 <? e then Some (edge_pixels ++ [(p.1, p.2)])
    else Some edge_pixels) acc
  = Some (acc ++ List.filter
            (λ p : nat * nat, 50 <? default 0 (getpixel edges p.1 p.2)) ps).
Proof.
  intros Hedges. revert acc.
  induction ps as [|[x y] ps IH]; intros acc Hin.
  { simpl. by rewrite app_nil_r. }
  destruct (Hin (x, y)) as [Hx Hy]; [by left|]. simpl in Hx, Hy.
  destruct (getpixel_is_Some edges w h x y) as [e He]; [done..|].
  assert (default 0 (getpixel edges x y) = e) as Hd by (by rewrite He).
  cbn [for_each List.filter fst snd]. rewrite Hd, He.
  cbn [mbind option_bind].
  destruct (50 <? e); cbn [mbind option_bind].
  - rewrite IH by (intros p Hp; apply Hin; by right).
    rewrite <- app_assoc. reflexivity.
  - apply IH. intros p Hp. apply Hin. by right.
Qed.

Lemma create_distance_mask_points (edges : Grid Z) w h :
  has_size w h edges →
  ∃ mask,
    create_distance_mask edges = Some mask ∧ has_size w h mask ∧
    ∀ x y, (x < w)%nat → (y < h)%nat →
      getpixel mask x y =
        Some (distance_mask_value
                (min_distance_sq x y (take 100 (edge_points edges)))).
Proof.
  intros Hedges. unfold create_distance_mask.
  rewrite for_each_prod.
  rewrite (collect_edge_points edges w h); [|done|].
  2:{ intros [x y] [Hx Hy]%elem_of_list_prod.
      apply elem_of_range in Hx, Hy.
      destruct Hedges as (Hw & Hh & _). rewrite <- Hw, <- Hh. done. }
  cbn [mbind option_bind app]. fold (edge_points edges).
  destruct Hedges as (Hw & Hh & Hlen). rewrite Hw, Hh.
  destruct (paint_xy
    (λ x y, Some (Some (distance_mask_value
                   (min_distance_sq x y (take 100 (edge_points edges))))))
    (λ x y mask,
       putpixel mask x y
         (distance_mask_value
            (min_distance_sq x y (take 100 (edge_points edges)))))
    w h (Image_new w h 0)) as (mask & Hloop & Hmask & Hget).
  - apply has_size_new.
  - eauto.
  - done.
  - exists mask. split_and!; [done..|]. intros x y Hx Hy.
    by rewrite Hget.
Qed.

(** The nearest of a list of points. *)
Lemma min_distance_sq_fold (x y : nat) (pts : list (nat * nat)) (m0 : Z) :
  ∃ d,
    foldl (λ (m : option Z) '(ex, ey),
      let d := (Z.of_nat x - Z.of_nat ex) * (Z.of_nat x - Z.of_nat ex)
               + (Z.of_nat y - Z.of_nat ey) * (Z.of_nat y - Z.of_nat ey) in
      match m with
      | None => Some d
      | Some m' => Some (Z.min m' d)
      end) (Some m0) pts = Some d ∧
    d ≤ m0 ∧
    (∀ q, q ∈ pts → d ≤ point_distance_sq x y q) ∧
    (d = m0 ∨ ∃ q, q ∈ pts ∧ d = point_distance_sq x y q).
Proof.
  revert m0. induction pts as [|[ex ey] pts IH]; intros m0.
  { exists m0. split_and!; [done|lia| |by left].
    intros q Hq. by apply elem_of_nil in Hq. }
  cbn [foldl].
  destruct (IH (Z.min m0 (point_distance_sq x y (ex, ey))))
    as (d & Hd & Hle & Hall & Hex).
  exists d. split_and!.
  - exact Hd.
  - lia.
  - intros q [->|Hq]%elem_of_cons; [lia|by apply Hall].
  - destruct Hex as [->|(q & Hq & ->)].
    + destruct (Z.min_spec m0 (point_distance_sq x y (ex, ey)))
        as [[_ ->]|[_ ->]]; [by left|].
      right. exists (ex, ey). split; [by left|done].
    + right. exists q. split; [by right|done].
Qed.

Lemma min_distance_sq_nil x y : min_distance_sq x y [] = None.
Proof. done. Qed.

Lemma min_distance_sq_nearest x y pts :
  pts ≠ [] →
  ∃ d q, min_distance_sq x y pts = Some d ∧
         q ∈ pts ∧ d = point_distance_sq x y q ∧
         ∀ q', q' ∈ pts → d ≤ point_distance_sq x y q'.
Proof.
  destruct pts as [|[ex ey] pts]; [done|]. intros _.
  unfold min_distance_sq. cbn [foldl].
  destruct (min_distance_sq_fold x y pts (point_distance_sq x y (ex, ey)))
    as (d & Hd & Hle & Hall & Hex).
  destruct Hex as [->|(q & Hq & ->)].
  - exists (point_distance_sq x y (ex, ey)), (ex, ey).
    split_and!; [exact Hd|by left|done|].
    intros q' [->|Hq']%elem_of_cons; [lia|by apply Hall].
  - exists (point_distance_sq x y q), q.
    split_and!; [exact Hd|by right|done|].
    intros q' [->|Hq']%elem_of_cons; [exact Hle|by apply Hall].
Qed.

Lemma point_distance_sq_nonneg x y q : 0 ≤ point_distance_sq x y q.
Proof.
  unfold point_distance_sq.
  pose proof (Z.square_nonneg (Z.of_nat x - Z.of_nat q.1)).
  pose proof (Z.square_nonneg (Z.of_nat y - Z.of_nat q.2)).
  lia.
Qed.

Lemma sqrt_up_le_iff (a b : Z) : 0 ≤ b → Z.sqrt_up a ≤ b ↔ a ≤ b * b.
Proof.
  intros Hb. destruct (Z.le_gt_cases a 0) as [Ha|Ha].
  { rewrite Z.sqrt_up_eqn0 by done. split; intros _; nia. }
  pose proof (Z.sqrt_up_spec a Ha) as [Hlo Hhi].
  cbv zeta in Hlo, Hhi. split; intros Hle; nia.
Qed.

Lemma distance_mask_value_range m : 0 ≤ distance_mask_value m ≤ 255.
Proof.
  destruct m as [d|]; simpl; [|lia].
  destruct (Z.ltb_spec d 400); [lia|].
  destruct (Z.ltb_spec d 2500); [|lia].
  assert (5100 ≤ Z.sqrt_up (65025 * d)).
  { destruct (Z.le_gt_cases 5100 (Z.sqrt_up (65025 * d))); [done|].
    assert (Z.sqrt_up (65025 * d) ≤ 5099) as Hs by lia.
    apply sqrt_up_le_iff in Hs; lia. }
  assert (Z.sqrt_up (65025 * d) ≤ 12750).
  { apply sqrt_up_le_iff; lia. }
  split.
  - apply Z.div_pos; lia.
  - apply Z.div_le_upper_bound; lia.
Qed.

Lemma distance_mask_value_above_128 m :
  (128 <? distance_mask_value m) = near_edge m.
Proof.
  destruct m as [d|]; simpl; [|done].
  destruct (Z.ltb_spec d 400).
  { destruct (Z.leb_spec d 1212); [done|lia]. }
  destruct (Z.ltb_spec d 2500).
  2:{ destruct (Z.leb_spec d 1212); [lia|done]. }
  destruct (Z.leb_spec d 1212) as [Hd|Hd].
  - assert (Z.sqrt_up (65025 * d) ≤ 8880) by (apply sqrt_up_le_iff; lia).
    apply Z.ltb_lt.
    assert (129 ≤ (12750 - Z.sqrt_up (65025 * d)) / 30); [|lia].
    apply Z.div_le_lower_bound; lia.
  - apply Z.ltb_ge.
    assert (8880 < Z.sqrt_up (65025 * d)).
    { destruct (Z.le_gt_cases (Z.sqrt_up (65025 * d)) 8880) as [Hs|]; [|lia].
      apply sqrt_up_le_iff in Hs; lia. }
    assert ((12750 - Z.sqrt_up (65025 * d)) / 30 < 129); [|lia].
    apply Z.div_lt_upper_bound; lia.
Qed.

Lemma edge_points_elem (edges : Grid Z) w h x y :
  has_size w h edges →
  (x, y) ∈ edge_points edges
  ↔ ∃ e, getpixel edges x y = Some e ∧ 50 < e.
Proof.
  intros Hedges. unfold edge_points.
  rewrite list_elem_of_In, List.filter_In, <- list_elem_of_In,
    elem_of_list_prod, !elem_of_range. cbn [fst snd].
  split.
  - intros [[Hx Hy] He].
    destruct Hedges as (Hw & Hh & Hlen). rewrite Hw in Hx. rewrite Hh in Hy.
    destruct (getpixel_is_Some edges w h x y) as [e Hget]; [done..|].
    exists e. split; [done|]. rewrite Hget in He. simpl in He. lia.
  - intros (e & Hget & He).
    destruct (getpixel_in_bounds edges w h x y e Hedges Hget) as (Hx & Hy & _).
    destruct Hedges as (Hw & Hh & Hlen). rewrite Hw, Hh.
    split; [done|]. rewrite Hget. simpl. lia.
Qed.

Lemma near_edge_true x y pts :
  near_edge (min_distance_sq x y pts) = true
  ↔ ∃ q, q ∈ pts ∧ point_distance_sq x y q ≤ 1212.
Proof.
  destruct pts as [|q0 pts].
  { simpl. split; [done|]. intros (q & Hq & _). by apply elem_of_nil in Hq. }
  destruct (min_distance_sq_nearest x y (q0 :: pts))
    as (d & q & -> & Hq & -> & Hmin); [done|].
  simpl. rewrite Z.leb_le. split.
  - intros Hd. by exists q.
  - intros (q' & Hq' & Hd). specialize (Hmin q' Hq'). lia.
Qed.

Lemma StronglySorted_range n : StronglySorted lt (range n).
Proof.
  unfold range. generalize 0%nat. induction n as [|n IH]; intros a; simpl.
  { constructor. }
  constructor; [apply IH|].
  apply Forall_forall. intros b Hb%elem_of_seq. lia.
Qed.

Lemma StronglySorted_list_prod (l1 l2 : list nat) :
  StronglySorted lt l1 → StronglySorted lt l2 →
  StronglySorted scanned_before (list_prod l1 l2).
Proof.
  intros H1 H2. induction H1 as [|a l1 Hl1 IH Ha]; simpl.
  { constructor. }
  apply StronglySorted_app_2.
  - intros p [b c] (y & -> & Hy)%list_elem_of_fmap
      [Hb Hc]%elem_of_list_prod.
    left. simpl. rewrite Forall_forall in Ha. by apply Ha.
  - apply (StronglySorted_fmap _ lt); [|done].
    intros x y Hxy. right. simpl. done.
  - exact IH.
Qed.

Lemma StronglySorted_List_filter {A} (R : relation A) (f : A → bool) l :
  StronglySorted R l → StronglySorted R (List.filter f l).
Proof.
  induction 1 as [|a l Hl IH Ha]; simpl; [constructor|].
  destruct (f a); [|done]. constructor; [done|].
  apply Forall_forall. intros b Hb. apply list_elem_of_In in Hb.
  apply List.filter_In in Hb as [Hb _]. apply list_elem_of_In in Hb.
  rewrite Forall_forall in Ha. by apply Ha.
Qed.

(** The edge points are listed in scan order. *)
Lemma edge_points_sorted (edges : Grid Z) :
  StronglySorted scanned_before (edge_points edges).
Proof.
  unfold edge_points. apply StronglySorted_List_filter.
  apply StronglySorted_list_prod; apply StronglySorted_range.
Qed.

(** X8.  [create_distance_mask] returns a mask of the size of the
    edge map with every value between 0 and 255.  The edge points are
    the positions whose edge value is above 50, in scan order (column
    by column), and only the first 100 of them are used: a position
    closer than 20 pixels to one of those gets 255, a position at 50
    pixels or more from all of them (or with no edge point at all)
    gets 0. *)
Theorem create_distance_mask_first_100_points (edges : Grid Z) (w h : nat) :
  has_size w h edges →
  ∃ mask,
    create_distance_mask edges = Some mask ∧ has_size w h mask ∧
    (∀ x y, (x, y) ∈ edge_points edges
            ↔ ∃ e, getpixel edges x y = Some e ∧ 50 < e) ∧
    StronglySorted scanned_before (edge_points edges) ∧
    ∀ x y, (x < w)%nat → (y < h)%nat →
      ∃ v, getpixel mask x y = Some v ∧
           v = distance_mask_value
                 (min_distance_sq x y (take 100 (edge_points edges))) ∧
           0 ≤ v ≤ 255 ∧
           ((∃ q, q ∈ take 100 (edge_points edges) ∧
                  point_distance_sq x y q < 400) → v = 255) ∧
           ((∀ q, q ∈ take 100 (edge_points edges) →
                  2500 ≤ point_distance_sq x y q) → v = 0).
Proof.
  intros Hedges.
  destruct (create_distance_mask_points edges w h Hedges)
    as (mask & Hmask & Hsz & Hval).
  exists mask. split_and!; [done..| |apply edge_points_sorted|].
  { intros x y. by apply (edge_points_elem edges w h). }
  intros x y Hx Hy. eexists. split; [by apply Hval|].
  split; [done|].
  split; [apply distance_mask_value_range|].
  destruct (take 100 (edge_points edges)) as [|q0 pts] eqn:Hpts.
  { split; [|done]. intros (q & Hq & _). by apply elem_of_nil in Hq. }
  destruct (min_distance_sq_nearest x y (q0 :: pts))
    as (d & q & -> & Hq & -> & Hmin); [done|].
  unfold distance_mask_value. split.
  - intros (q' & Hq' & Hd). specialize (Hmin q' Hq').
    destruct (Z.ltb_spec (point_distance_sq x y q) 400); [done|lia].
  - intros Hfar. specialize (Hfar q Hq).
    destruct (Z.ltb_spec (point_distance_sq x y q) 400); [lia|].
    destruct (Z.ltb_spec (point_distance_sq x y q) 2500); [lia|done].
Qed.

Lemma create_distance_mask_first_100_points_witness :
  has_size 2 1 (mkGrid 2 1 [60; 0]) ∧
  ∃ mask,
    create_distance_mask (mkGrid 2 1 [60; 0]) = Some mask ∧
    getpixel mask 1 0 = Some 255.
Proof.
  assert (has_size 2 1 (mkGrid 2 1 [60; 0])) as Hsz by (by split_and!).
  split; [done|].
  destruct (create_distance_mask_first_100_points (mkGrid 2 1 [60; 0]) 2 1
              Hsz) as (mask & Hmask & _ & _ & _ & Hval).
  exists mask. split; [done|].
  destruct (Hval 1%nat 0%nat) as (v & Hv & _ & _ & Hnear & _); [lia..|].
  rewrite Hv. f_equal. apply Hnear.
  exists (0%nat, 0%nat). split; [by left|by vm_compute].
Defined.

Section Strategy3Pixels.
Context `{PILLaws}.

Lemma edges_combined_size img :
  image_ok img →
  has_size (image_width img) (image_height img) (edges_combined img).
Proof.
  intros Hok. unfold edges_combined.
  pose proof (convert_L_size img Hok) as Hgray.
  pose proof (FIND_EDGES_size _ _ _ Hgray) as Hedges1.
  pose proof (Contrast_enhance2_size _ _ _ Hgray) as Henh.
  pose proof (EDGE_ENHANCE_MORE_size _ _ _ Henh) as Hedges2.
  exact (blend_half_size _ _ _ _ Hedges1 Hedges2).
Qed.

Lemma advanced_edge_segmentation_pixels img :
  image_ok img →
  let w := image_width img in
  let h := image_height img in
  ∃ out, advanced_edge_segmentation img = Some out ∧ has_size w h out ∧
    ∀ x y, (x < w)%nat → (y < h)%nat →
      ∃ p, getpixel (convert_RGBA img) x y = Some p ∧
           getpixel out x y =
             Some (if near_edge (min_distance_sq x y
                                   (take 100 (edge_points (edges_combined img))))
                   then p else (0, 0, 0, 0)).
Proof.
  intros Hok w h. unfold advanced_edge_segmentation.
  fold (edges_combined img).
  destruct (create_distance_mask_points _ w h (edges_combined_size img Hok))
    as (mask & -> & Hmask & Hval).
  cbn [mbind option_bind].
  destruct (apply_mask_spec 128 w h mask (convert_RGBA img))
    as (out & Hout & Hsz & Hpix); [done|by apply image_ok_convert_RGBA|].
  exists out. split_and!; [done..|]. intros x y Hx Hy.
  destruct (Hpix x y Hx Hy) as (m & p & Hm & Hp & Hq).
  exists p. split; [done|]. rewrite Hq.
  rewrite Hval in Hm by done. injection Hm as <-.
  by rewrite distance_mask_value_above_128.
Qed.

End Strategy3Pixels.

Section Strategy3Extras.
Context {P : PIL} {HL : PILLaws P}.

(** X9.  Strategy 3 keeps a pixel exactly when one of the first 100
    edge points of the combined edge map is at a squared distance of at
    most 1212 from it (the mask value [int(255 * (50 - d) / 30)] is
    above 128 up to there); every other pixel becomes (0, 0, 0, 0).
    With no edge value above 50 the result is fully transparent. *)
Theorem edge_segmentation_keeps_pixels_near_edges (img : Image) :
  image_ok img →
  let w := image_width img in
  let h := image_height img in
  let points := take 100 (edge_points (edges_combined img)) in
  ∃ out,
    advanced_edge_segmentation img = Some out ∧ has_size w h out ∧
    (∀ x y, (x < w)%nat → (y < h)%nat →
       ∃ p, getpixel (convert_RGBA img) x y = Some p ∧
            ((∃ q, q ∈ points ∧ point_distance_sq x y q ≤ 1212) →
               getpixel out x y = Some p) ∧
            ((∀ q, q ∈ points → 1212 < point_distance_sq x y q) →
               getpixel out x y = Some (0, 0, 0, 0))) ∧
    (points = [] → fully_transparent w h out).
Proof.
  intros Hok w h points.
  destruct (advanced_edge_segmentation_pixels img Hok)
    as (out & Hout & Hsz & Hpix).
  fold w h points in Hsz, Hpix.
  assert (∀ x y, (x < w)%nat → (y < h)%nat →
    ∃ p, getpixel (convert_RGBA img) x y = Some p ∧
         ((∃ q, q ∈ points ∧ point_distance_sq x y q ≤ 1212) →
            getpixel out x y = Some p) ∧
         ((∀ q, q ∈ points → 1212 < point_distance_sq x y q) →
            getpixel out x y = Some (0, 0, 0, 0))) as Hcases.
  { intros x y Hx Hy. destruct (Hpix x y Hx Hy) as (p & Hp & Hq).
    exists p. split; [done|]. rewrite Hq. split.
    - intros Hnear. apply near_edge_true in Hnear. by rewrite Hnear.
    - intros Hfar.
      destruct (near_edge (min_distance_sq x y points)) eqn:Hnear; [|done].
      apply near_edge_true in Hnear as (q & Hin & Hd).
      specialize (Hfar q Hin). lia. }
  exists out. split_and!; [done..|].
  intros Hnil x y Hx Hy. destruct (Hcases x y Hx Hy) as (p & _ & _ & Hfar).
  exists (0, 0, 0, 0). split; [|done]. apply Hfar.
  intros q Hq. rewrite Hnil in Hq. by apply elem_of_nil in Hq.
Qed.

End Strategy3Extras.

Lemma edge_segmentation_keeps_pixels_near_edges_witness :
  image_ok flat_block ∧
  ∃ out, advanced_edge_segmentation (H:=reference_PIL) flat_block = Some out ∧
         has_size 2 2 out.
Proof.
  split; [exact image_ok_flat_block|].
  destruct (edge_segmentation_keeps_pixels_near_edges
              (HL:=reference_PIL_laws) flat_block image_ok_flat_block)
    as (out & Hout & Hsz & _).
  exists out. exact (conj Hout Hsz).
Defined.

(** ** The passes of strategy 4 *)

Lemma sample_points_length (img : Grid Pixel) samples :
  sample_points img = Some samples →
  let w := width img in
  let h := height img in
  let step_w := Nat.max 1 (w / 50) in
  let step_h := Nat.max 1 (h / 50) in
  length samples
  = (2 * (Nat.min w h / 20)
       * ((w + step_w - 1) / step_w + (h + step_h - 1) / step_h))%nat.
Proof.
  unfold sample_points. rewrite for_each_prod.
  destruct (for_each _ _ []) as [s1|] eqn:Hs1; [|done].
  cbn [mbind option_bind]. rewrite for_each_prod. intros Hs2.
  apply (for_each_length_exact 2) in Hs1.
  2:{ intros [i j] t t'. simpl.
      destruct (getpixel img i j); [|done].
      destruct (getpixel img i _); [|done].
      simpl. intros [= <-]. rewrite length_app. simpl. lia. }
  apply (for_each_length_exact 2) in Hs2.
  2:{ intros [i j] t t'. simpl.
      destruct (getpixel img j i); [|done].
      destruct (getpixel img _ i); [|done].
      simpl. intros [= <-]. rewrite length_app. simpl. lia. }
  rewrite length_prod, length_range_step in Hs1, Hs2.
  unfold range in Hs1, Hs2. rewrite length_seq in Hs1, Hs2.
  rewrite Nat.add_0_l in Hs1. cbv zeta. lia.
Qed.

(** X10.  The border sampling of strategy 4 never leaves the image:
    it returns for every image, each sample is a pixel of the image,
    there is no sample exactly when the smaller side is below 20, and
    the number of samples is twice the strip width times the number of
    sampled columns and rows. *)
Theorem sample_points_stay_inside (img : Grid Pixel) (w h : nat) :
  has_size w h img →
  ∃ samples,
    sample_points img = Some samples ∧
    Forall (pixel_of img) samples ∧
    (samples = [] ↔ (Nat.min w h < 20)%nat) ∧
    length samples
    = (2 * (Nat.min w h / 20)
         * ((w + Nat.max 1 (w / 50) - 1) / Nat.max 1 (w / 50)
            + (h + Nat.max 1 (h / 50) - 1) / Nat.max 1 (h / 50)))%nat.
Proof.
  intros Himg.
  destruct (sample_points_spec img w h Himg) as (samples & Hs & Hall).
  exists samples. split_and!; [done..| |].
  - destruct Himg as (Hw & Hh & _). split.
    + intros ->. destruct (decide (Nat.min w h < 20)%nat); [done|].
      destruct (sample_points_nonempty img []); [|done..].
      rewrite Hw, Hh. lia.
    + intros Hsmall. rewrite sample_points_small in Hs by (by rewrite Hw, Hh).
      by injection Hs as <-.
  - pose proof (sample_points_length img samples Hs) as Hlen.
    destruct Himg as (Hw & Hh & _). by rewrite Hw, Hh in Hlen.
Qed.

Lemma sample_points_stay_inside_witness :
  has_size 20 20 (convert_RGBA flat_tile) ∧
  ∃ samples,
    sample_points (convert_RGBA flat_tile) = Some samples ∧
    length samples = 80%nat.
Proof.
  split; [exact has_size_flat_tile|].
  destruct (sample_points_stay_inside (convert_RGBA flat_tile) 20 20
              has_size_flat_tile) as (samples & Hs & _ & _ & Hlen).
  exists samples. split; [done|]. rewrite Hlen. by vm_compute.
Defined.

Section CounterCounts.
Context {K : Type} `{EqDecision K}.
Implicit Types (c : list (K * nat)) (l : list K).

Lemma counter_get_add c k k' :
  counter_get (counter_add c k) k'
  = (counter_get c k' + if decide (k' = k) then 1 else 0)%nat.
Proof.
  induction c as [|[k0 n] c IH]; simpl.
  - by case_decide.
  - destruct (decide (k = k0)) as [->|Hk]; simpl.
    + destruct (decide (k' = k0)); lia.
    + destruct (decide (k' = k0)) as [->|Hk'].
      * rewrite decide_False by done. lia.
      * apply IH.
Qed.

Lemma occurrences_cons k k' l :
  occurrences k (k' :: l)
  = ((if decide (k = k') then 1 else 0) + occurrences k l)%nat.
Proof.
  unfold occurrences. rewrite filter_cons.
  destruct (decide (k' = k)) as [->|Hk].
  - by rewrite decide_True.
  - by rewrite decide_False by done.
Qed.

Lemma counter_get_foldl l c k :
  counter_get (foldl counter_add c l) k
  = (counter_get c k + occurrences k l)%nat.
Proof.
  revert c. induction l as [|k' l IH]; intros c.
  { unfold occurrences. simpl. lia. }
  cbn [foldl]. rewrite IH, counter_get_add, occurrences_cons.
  destruct (decide (k = k')); lia.
Qed.

Lemma counter_add_NoDup c k :
  NoDup c.*1 → NoDup (counter_add c k).*1.
Proof.
  induction c as [|[k0 n] c IH]; simpl.
  { intros _. apply NoDup_singleton. }
  intros [Hk0 Hc]%NoDup_cons. destruct (decide (k = k0)) as [->|Hk]; simpl.
  - by apply NoDup_cons.
  - apply NoDup_cons. split; [|by apply IH].
    intros (e & He1 & He)%list_elem_of_fmap.
    destruct (counter_add_keys _ _ _ He) as [Heq|Hin].
    + apply Hk. by rewrite <- Heq, <- He1.
    + apply Hk0. by rewrite He1.
Qed.

Lemma Counter_NoDup l c :
  NoDup c.*1 → NoDup (foldl counter_add c l).*1.
Proof.
  revert c. induction l as [|k l IH]; intros c Hc; simpl; [done|].
  by apply IH, counter_add_NoDup.
Qed.

Lemma counter_get_elem c k n :
  NoDup c.*1 → (k, n) ∈ c → counter_get c k = n.
Proof.
  induction c as [|[k0 n0] c IH]; simpl.
  { intros _ Hin. by apply elem_of_nil in Hin. }
  intros [Hk0 Hc]%NoDup_cons [[= -> ->]|Hin]%elem_of_cons.
  - by rewrite decide_True.
  - rewrite decide_False; [by apply IH|].
    intros ->. apply Hk0. by apply (list_elem_of_fmap_2 fst) in Hin.
Qed.

Lemma counter_get_positive c k :
  (0 < counter_get c k)%nat → (k, counter_get c k) ∈ c.
Proof.
  induction c as [|[k0 n0] c IH]; simpl; [lia|].
  destruct (decide (k = k0)) as [->|Hk]; intros Hpos.
  - left.
  - right. by apply IH.
Qed.

Lemma most_common_1_largest c e e' :
  e ∈ most_common_1 c → e' ∈ c → (e'.2 ≤ e.2)%nat.
Proof.
  destruct c as [|e0 c]; simpl.
  { intros Hin. by apply elem_of_nil in Hin. }
  intros ->%list_elem_of_singleton.
  assert (∀ best, (best.2 ≤
            (foldl (λ best e1, if (best.2 <? e1.2)%nat then e1 else best)
               best c).2)%nat ∧
          ∀ e1, e1 ∈ c → (e1.2 ≤
            (foldl (λ best e1, if (best.2 <? e1.2)%nat then e1 else best)
               best c).2)%nat) as Hfold.
  { induction c as [|e1 c IH]; intros best; simpl.
    { split; [lia|]. intros e1 Hin. by apply elem_of_nil in Hin. }
    destruct (Nat.ltb_spec best.2 e1.2) as [Hlt|Hge].
    - destruct (IH e1) as [Hb Hall]. split; [lia|].
      intros e2 [->|Hin]%elem_of_cons; [done|by apply Hall].
    - destruct (IH best) as [Hb Hall]. split; [done|].
      intros e2 [->|Hin]%elem_of_cons; [lia|by apply Hall]. }
  destruct (Hfold e0) as [Hb Hall].
  intros [->|Hin]%elem_of_cons; [done|by apply Hall].
Qed.
End CounterCounts.

Lemma occurrences_elem (q : Pixel) samples :
  q ∈ samples ↔ (0 < occurrences q samples)%nat.
Proof.
  unfold occurrences. split.
  - intros Hq.
    assert (q ∈ filter (λ k', k' = q) samples) as Hin
      by (by apply list_elem_of_filter).
    destruct (filter _ samples); [by apply elem_of_nil in Hin|simpl; lia].
  - intros Hpos.
    destruct (filter (λ k', k' = q) samples) as [|q' l] eqn:Hf;
      [simpl in Hpos; lia|].
    assert (q' ∈ filter (λ k', k' = q) samples) as Hin
      by (rewrite Hf; left).
    apply list_elem_of_filter in Hin as [-> Hin]. done.
Qed.

Lemma most_common_color_largest samples color :
  most_common_color samples = Some color →
  ∀ q, (occurrences q samples ≤ occurrences color samples)%nat.
Proof.
  unfold most_common_color.
  destruct (most_common_1 (Counter samples)) as [|[c n] rest] eqn:Hm; [done|].
  intros [= <-] q.
  assert ((c, n) ∈ most_common_1 (Counter samples)) as Hbest
    by (rewrite Hm; left).
  pose proof (most_common_1_elem _ _ Hbest) as Hin.
  assert (NoDup (Counter samples).*1) as Hnd
    by (apply Counter_NoDup; simpl; apply NoDup_nil_2).
  pose proof (counter_get_elem _ _ _ Hnd Hin) as Hn.
  unfold Counter in Hn. rewrite counter_get_foldl in Hn. simpl in Hn.
  destruct (decide (0 < occurrences q samples)%nat) as [Hpos|]; [|lia].
  pose proof (counter_get_foldl samples [] q) as Hq. simpl in Hq.
  assert ((q, occurrences q samples) ∈ Counter samples) as Hqin.
  { rewrite <- Hq. apply counter_get_positive. unfold Counter in *.
    rewrite Hq. done. }
  pose proof (most_common_1_largest _ _ _ Hbest Hqin) as Hle.
  simpl in Hle. lia.
Qed.

Lemma most_common_color_None samples :
  most_common_color samples = None ↔ samples = [].
Proof.
  split.
  - intros Hnone. destruct samples as [|s samples]; [done|].
    destruct (most_common_color_is_Some (s :: samples)) as [c Hc]; [done|].
    congruence.
  - by intros ->.
Qed.

Section CounterOrder.
Context {K : Type} `{EqDecision K}.
Implicit Types (c : list (K * nat)) (l : list K).

Lemma counter_add_key_list c k :
  (counter_add c k).*1 = if decide (k ∈ c.*1) then c.*1 else c.*1 ++ [k].
Proof.
  induction c as [|[k0 n] c IH].
  { destruct (decide (k ∈ ([] : list (K * nat)).*1)) as [Hin|_]; [|done].
    by apply elem_of_nil in Hin. }
  cbn [counter_add].
  destruct (decide (k = k0)) as [->|Hk].
  - destruct (decide (k0 ∈ ((k0, n) :: c).*1)) as [_|Hout]; [done|].
    destruct Hout. left.
  - rewrite !fmap_cons, IH. cbn [fst].
    destruct (decide (k ∈ c.*1)) as [Hin|Hout].
    + destruct (decide (k ∈ k0 :: c.*1)) as [_|Hout]; [done|].
      destruct Hout. by right.
    + destruct (decide (k ∈ k0 :: c.*1)) as [Hin|_]; [|done].
      apply elem_of_cons in Hin as [?|?]; done.
Qed.

Lemma Counter_snoc l k : Counter (l ++ [k]) = counter_add (Counter l) k.
Proof. unfold Counter. by rewrite foldl_app. Qed.

Lemma Counter_keys l k : k ∈ (Counter l).*1 ↔ k ∈ l.
Proof.
  induction l as [|k' l IH] using rev_ind.
  { simpl. split; intros Hin; by apply elem_of_nil in Hin. }
  rewrite Counter_snoc, counter_add_key_list, elem_of_app,
    list_elem_of_singleton.
  destruct (decide (k' ∈ (Counter l).*1)) as [Hin|Hout].
  - rewrite IH. split; [by left|]. intros [?| ->]; [done|]. by apply IH.
  - by rewrite elem_of_app, list_elem_of_singleton, IH.
Qed.

(** The keys of a counter are in the order of their first
    occurrence. *)
Lemma Counter_key_order l r1 a r2 b :
  (Counter l).*1 = r1 ++ a :: r2 → b ∈ r2 →
  ∃ l1 l2, l = l1 ++ a :: l2 ∧ b ∉ l1.
Proof.
  revert r1 a r2 b. induction l as [|k l IH] using rev_ind;
    intros r1 a r2 b Hkeys Hb.
  { simpl in Hkeys. by destruct r1. }
  rewrite Counter_snoc, counter_add_key_list in Hkeys.
  destruct (decide (k ∈ (Counter l).*1)) as [Hin|Hout].
  { destruct (IH r1 a r2 b Hkeys Hb) as (l1 & l2 & -> & Hl1).
    exists l1, (l2 ++ [k]). split; [|done].
    by rewrite <- app_assoc. }
  destruct (decide (b = k)) as [Heq|Hbk].
  - subst b. assert (a ∈ l) as Ha.
    { apply Counter_keys.
      destruct r2 as [|b' r2 _] using rev_ind;
        [by apply elem_of_nil in Hb|].
      rewrite app_comm_cons, app_assoc in Hkeys.
      apply app_inj_tail in Hkeys as [-> _].
      apply elem_of_app. right. left. }
    apply list_elem_of_split in Ha as (l1 & l2 & ->).
    exists l1, (l2 ++ [k]). split; [by rewrite <- app_assoc|].
    intros Hk. apply Hout, Counter_keys, elem_of_app. by left.
  - destruct r2 as [|b' r2 _] using rev_ind;
      [by apply elem_of_nil in Hb|].
    rewrite app_comm_cons, app_assoc in Hkeys.
    apply app_inj_tail in Hkeys as [Hkeys <-].
    apply elem_of_app in Hb as [Hb|Hb%list_elem_of_singleton]; [|done].
    destruct (IH r1 a r2 b Hkeys Hb) as (l1 & l2 & -> & Hl1).
    exists l1, (l2 ++ [k]). split; [|done].
    by rewrite <- app_assoc.
Qed.

(** [most_common(1)] returns the first entry of largest count. *)
Lemma most_common_1_first c e :
  e ∈ most_common_1 c →
  ∃ r1 r2, c = r1 ++ e :: r2 ∧
           (∀ e', e' ∈ r1 → (e'.2 < e.2)%nat) ∧
           (∀ e', e' ∈ r2 → (e'.2 ≤ e.2)%nat).
Proof.
  destruct c as [|e0 c]; simpl.
  { intros Hin. by apply elem_of_nil in Hin. }
  intros ->%list_elem_of_singleton.
  assert (∀ p1 best p2,
            (∀ e', e' ∈ p1 → (e'.2 < best.2)%nat) →
            (∀ e', e' ∈ p2 → (e'.2 ≤ best.2)%nat) →
            let e := foldl (λ best e1,
                       if (best.2 <? e1.2)%nat then e1 else best) best c in
            ∃ r1 r2, p1 ++ best :: p2 ++ c = r1 ++ e :: r2 ∧
                     (∀ e', e' ∈ r1 → (e'.2 < e.2)%nat) ∧
                     (∀ e', e' ∈ r2 → (e'.2 ≤ e.2)%nat)) as Hfold.
  { induction c as [|e1 c IH]; intros p1 best p2 Hp1 Hp2; simpl.
    { exists p1, p2. by rewrite app_nil_r. }
    destruct (Nat.ltb_spec best.2 e1.2) as [Hlt|Hge].
    - destruct (IH (p1 ++ best :: p2) e1 []) as (r1 & r2 & Heq & Hr1 & Hr2).
      + intros e' [Hin|[ ->|Hin]%elem_of_cons]%elem_of_app.
        * specialize (Hp1 _ Hin). lia.
        * done.
        * specialize (Hp2 _ Hin). lia.
      + intros e' Hin. by apply elem_of_nil in Hin.
      + exists r1, r2. split; [|done]. rewrite <- Heq. simpl.
        by rewrite <- app_assoc.
    - destruct (IH p1 best (p2 ++ [e1])) as (r1 & r2 & Heq & Hr1 & Hr2).
      + done.
      + intros e' [Hin| ->%list_elem_of_singleton]%elem_of_app;
          [by apply Hp2|done].
      + exists r1, r2. split; [|done]. rewrite <- Heq.
        by rewrite <- app_assoc. }
  destruct (Hfold [] e0 []) as (r1 & r2 & Heq & Hr1 & Hr2).
  - intros e' Hin. by apply elem_of_nil in Hin.
  - intros e' Hin. by apply elem_of_nil in Hin.
  - exists r1, r2. done.
Qed.
End CounterOrder.

Lemma most_common_color_first samples color q :
  most_common_color samples = Some color →
  q ≠ color → occurrences q samples = occurrences color samples →
  ∃ l1 l2, samples = l1 ++ color :: l2 ∧ q ∉ l1.
Proof.
  intros Hbest Hq Hocc.
  pose proof (most_common_color_elem _ _ Hbest) as Hin.
  revert Hbest. unfold most_common_color.
  destruct (most_common_1 (Counter samples)) as [|[c n] rest] eqn:Hm; [done|].
  intros [= ->].
  assert ((color, n) ∈ most_common_1 (Counter samples)) as Hbest
    by (rewrite Hm; left).
  destruct (most_common_1_first _ _ Hbest) as (r1 & r2 & Heq & Hr1 & Hr2).
  assert (NoDup (Counter samples).*1) as Hnd
    by (apply Counter_NoDup; simpl; apply NoDup_nil_2).
  assert (n = occurrences color samples) as Hn.
  { rewrite <- (counter_get_elem (Counter samples) color n Hnd).
    - unfold Counter. by rewrite counter_get_foldl.
    - rewrite Heq. apply elem_of_app. right. left. }
  assert ((q, n) ∈ Counter samples) as Hqin.
  { pose proof (counter_get_foldl samples [] q) as Hget. simpl in Hget.
    rewrite Hn, <- Hocc, <- Hget. apply counter_get_positive.
    unfold Counter in *. rewrite Hget, Hocc.
    by apply occurrences_elem. }
  rewrite Heq in Hqin.
  apply elem_of_app in Hqin as [Hqin|[[= ->]|Hqin]%elem_of_cons].
  - specialize (Hr1 _ Hqin). simpl in Hr1. lia.
  - done.
  - apply (Counter_key_order samples r1.*1 color r2.*1 q).
    + by rewrite Heq, fmap_app, fmap_cons.
    + by apply (list_elem_of_fmap_2 fst) in Hqin.
Qed.

(** X11.  [Counter(sample_points).most_common(1)[0][0]] on a list
    with at least one sample returns a sample that occurs at least as
    often as every other colour; among the colours that share the
    largest count it returns the one that was sampled first. *)
Theorem most_common_color_is_most_common (samples : list Pixel) :
  samples ≠ [] →
  ∃ color,
    most_common_color samples = Some color ∧ color ∈ samples ∧
    (∀ q, (occurrences q samples ≤ occurrences color samples)%nat) ∧
    (∀ q, q ≠ color →
          occurrences q samples = occurrences color samples →
          ∃ l1 l2, samples = l1 ++ color :: l2 ∧ q ∉ l1).
Proof.
  intros Hne.
  destruct (most_common_color_is_Some samples Hne) as [color Hc].
  exists color. split_and!; [done|..].
  - by apply most_common_color_elem.
  - by apply most_common_color_largest.
  - intros q. by apply most_common_color_first.
Qed.

Lemma most_common_color_is_most_common_witness :
  [(1, 1, 1, 255); (2, 2, 2, 255); (2, 2, 2, 255); (1, 1, 1, 255)]
    ≠ ([] : list Pixel) ∧
  ∃ color,
    most_common_color
      [(1, 1, 1, 255); (2, 2, 2, 255); (2, 2, 2, 255); (1, 1, 1, 255)]
    = Some color ∧
    color = (1, 1, 1, 255).
Proof.
  split; [done|].
  destruct (most_common_color_is_most_common
    [(1, 1, 1, 255); (2, 2, 2, 255); (2, 2, 2, 255); (1, 1, 1, 255)])
    as (color & Hc & _); [done|].
  exists color. split; [done|]. vm_compute in Hc. by injection Hc as <-.
Defined.

Lemma center_offset_bound (w x : nat) :
  (x < w)%nat →
  4 * ((Z.of_nat x - Z.of_nat (w / 2)) * (Z.of_nat x - Z.of_nat (w / 2)))
  ≤ Z.of_nat w * Z.of_nat w.
Proof.
  intros Hx.
  assert (2 * Z.of_nat (w / 2) ≤ Z.of_nat w < 2 * Z.of_nat (w / 2) + 2)
    as Hhalf.
  { pose proof (Nat.div_mod_eq w 2).
    pose proof (Nat.mod_upper_bound w 2). lia. }
  nia.
Qed.

Lemma tolerance_range (w h x y : nat) :
  (x < w)%nat → (y < h)%nat → (30 <= tolerance w h x y <= 70)%R.
Proof.
  intros Hx Hy. unfold tolerance.
  set (c := (Z.of_nat x - Z.of_nat (w / 2)) * (Z.of_nat x - Z.of_nat (w / 2))
            + (Z.of_nat y - Z.of_nat (h / 2))
              * (Z.of_nat y - Z.of_nat (h / 2))).
  set (n := Z.of_nat w * Z.of_nat w + Z.of_nat h * Z.of_nat h).
  cbv zeta.
  assert (0 ≤ c) as Hc.
  { unfold c.
    pose proof (Z.square_nonneg (Z.of_nat x - Z.of_nat (w / 2))).
    pose proof (Z.square_nonneg (Z.of_nat y - Z.of_nat (h / 2))). lia. }
  assert (4 * c ≤ n) as Hcn.
  { pose proof (center_offset_bound w x Hx).
    pose proof (center_offset_bound h y Hy). unfold c, n. lia. }
  assert (0 < n) as Hn.
  { unfold n. pose proof (Z.square_nonneg (Z.of_nat h)).
    assert (0 < Z.of_nat w * Z.of_nat w) by nia. lia. }
  apply IZR_le in Hc, Hcn. apply IZR_lt in Hn.
  rewrite mult_IZR in Hcn.
  assert ((INR w / 2) * (INR w / 2) + (INR h / 2) * (INR h / 2)
          = (sqrt (IZR n) / 2) * (sqrt (IZR n) / 2))%R as Hmax.
  { assert (sqrt (IZR n) * sqrt (IZR n) = IZR n)%R as Hs
      by (apply sqrt_sqrt; lra).
    assert (IZR n = INR w * INR w + INR h * INR h)%R as Hval.
    { unfold n. by rewrite plus_IZR, !mult_IZR, <- !INR_IZR_INZ. }
    lra. }
  pose proof (sqrt_lt_R0 (IZR n) Hn) as HsN.
  rewrite Hmax, sqrt_square by lra.
  pose proof (sqrt_pos (IZR c)) as HsC.
  pose proof (sqrt_sqrt (IZR c) Hc) as HC.
  pose proof (sqrt_sqrt (IZR n) (Rlt_le _ _ Hn)) as HN.
  set (sN := sqrt (IZR n)) in *. set (sC := sqrt (IZR c)) in *.
  assert (2 * sC <= sN)%R as Hle.
  { apply Rnot_lt_le. intros Hlt.
    assert (sN * sN < (2 * sC) * (2 * sC))%R by nra. lra. }
  replace (30 + sC / (sN / 2) * 40)%R with (30 + 80 * sC / sN)%R
    by (field; lra).
  assert (0 <= 80 * sC / sN <= 40)%R; [|lra].
  split.
  - apply Rmult_le_pos; [lra|]. apply Rlt_le, Rinv_0_lt_compat. done.
  - apply (Rmult_le_reg_r sN); [done|].
    replace (80 * sC / sN * sN)%R with (80 * sC)%R by (field; lra). lra.
Qed.

(** X12.  The adaptive tolerance of strategy 4 lies between 30 and 70
    at every position of the image.  So the classification pass, with
    its comparison decided on the reals, always writes
    (255, 255, 255, 0) over a pixel whose colour is closer than 30 to
    the background colour, and never touches a pixel at distance 70 or
    more. *)
Theorem adaptive_tolerance_bounds (img : Grid Pixel)
    (bg_color item : Pixel) (w h x y : nat) :
  has_size w h img → (x < w)%nat → (y < h)%nat →
  getpixel img x y = Some item →
  let new_data := classify_pixels (F:=real_arithmetic) img bg_color in
  (30 <= tolerance w h x y <= 70)%R ∧
  ((color_distance item bg_color < 30)%R →
     getpixel (putdata img new_data) x y = Some (255, 255, 255, 0)) ∧
  ((70 <= color_distance item bg_color)%R →
     getpixel (putdata img new_data) x y = Some item).
Proof.
  intros Himg Hx Hy Hitem. cbv zeta.
  pose proof (tolerance_range w h x y Hx Hy) as Htol.
  rewrite (getpixel_classify img bg_color item w h) by done.
  cbn [within_tolerance real_arithmetic].
  split; [done|split].
  - intros Hnear.
    assert (real_within_tolerance w h x y item bg_color = true) as ->;
      [|done].
    apply within_tolerance_real; [lia|lra].
  - intros Hfar.
    destruct (real_within_tolerance w h x y item bg_color) eqn:Hin; [|done].
    apply within_tolerance_real in Hin; [lra|lia].
Qed.

Lemma adaptive_tolerance_bounds_witness :
  has_size 2 1 vote_a ∧ (0 < 2)%nat ∧ (0 < 1)%nat ∧
  getpixel vote_a 0 0 = Some (10, 20, 30, 255) ∧
  (30 <= tolerance 2 1 0 0 <= 70)%R.
Proof.
  assert (has_size 2 1 vote_a) as Hsz by (by split_and!).
  assert (0 < 2)%nat as Hx by lia.
  assert (0 < 1)%nat as Hy by lia.
  do 4 (split; [done|]).
  destruct (adaptive_tolerance_bounds vote_a (0, 0, 0, 0) (10, 20, 30, 255)
              2 1 0 0 Hsz Hx Hy eq_refl) as (Htol & _).
  exact Htol.
Defined.

Section Strategy4Pixels.
Context {F : Float64} {P : PIL} {HL : PILLaws P}.

Lemma remove_small_regions_pixels (img : Grid Pixel) w h :
  has_size w h img →
  ∃ mask out,
    occupancy_mask img = Some mask ∧ has_size w h mask ∧
    remove_small_regions img = Some out ∧ has_size w h out ∧
    ∀ x y, (x < w)%nat → (y < h)%nat →
      ∃ m p, getpixel (MedianFilter3 mask) x y = Some m ∧
             getpixel img x y = Some p ∧
             getpixel mask x y = Some (if 0 <? alpha p then 255 else 0) ∧
             getpixel out x y = Some (if 128 <? m then p else (0, 0, 0, 0)).
Proof.
  intros Himg.
  destruct (remove_small_regions_spec img w h Himg)
    as (mask & out & Hmask & Hout & Hsz & Hcomp).
  destruct (occupancy_mask_spec img w h Himg)
    as (mask' & Hmask' & Hsize & Hget).
  assert (mask' = mask) as -> by congruence.
  exists mask, out. split_and!; [done..|]. intros x y Hx Hy.
  destruct (Hcomp x y Hx Hy) as (m & p & Hm & Hp & Ho).
  destruct (Hget x y Hx Hy) as (p' & Hp' & Hv).
  assert (p' = p) as -> by congruence.
  exists m, p. done.
Qed.

Lemma smart_v2_body_pixels (img : Grid Pixel) w h :
  has_size w h img → (20 ≤ Nat.min w h)%nat →
  ∃ samples bg_color out,
    sample_points img = Some samples ∧
    most_common_color samples = Some bg_color ∧
    pixel_of img bg_color ∧
    smart_v2_body img = Some out ∧ has_size w h out ∧
    ∀ x y, (x < w)%nat → (y < h)%nat →
      ∃ item q,
        getpixel img x y = Some item ∧ getpixel out x y = Some q ∧
        (q = (0, 0, 0, 0) ∨
         q = if within_tolerance w h x y item bg_color
             then (255, 255, 255, 0) else item).
Proof.
  intros Himg Hbig.
  destruct (sample_points_spec img w h Himg) as (samples & Hs & Hall).
  assert (samples ≠ []) as Hne.
  { apply (sample_points_nonempty img); [|done].
    destruct Himg as (-> & -> & _). done. }
  destruct (most_common_color_is_Some samples Hne) as [bg_color Hbg].
  assert (pixel_of img bg_color) as Hpix.
  { pose proof (most_common_color_elem _ _ Hbg) as Hin.
    rewrite Forall_forall in Hall. by apply Hall. }
  set (classified := putdata img (classify_pixels img bg_color)).
  pose proof (has_size_classify img bg_color w h Himg) as Hcl.
  fold classified in Hcl.
  destruct (remove_small_regions_spec classified w h Hcl)
    as (mask & out & Hmask & Hout & Hsz & Hcomp).
  exists samples, bg_color, out. split_and!; [done..| |done|].
  - unfold smart_v2_body. rewrite Hs. cbn [mbind option_bind].
    rewrite Hbg. cbn [mbind option_bind]. done.
  - intros x y Hx Hy.
    destruct (getpixel_is_Some img w h x y) as [item Hitem]; [done..|].
    destruct (Hcomp x y Hx Hy) as (m & p & Hm & Hp & Ho).
    unfold classified in Hp.
    rewrite (getpixel_classify img bg_color item w h) in Hp by done.
    injection Hp as <-.
    exists item. eexists. split_and!; [done|exact Ho|].
    destruct (128 <? m); [by right|by left].
Qed.

End Strategy4Pixels.

Section RegionExtras.
Context {P : PIL} {HL : PILLaws P} {HF : PILFullLaws P} {HB : PILBlankLaws P}.

(** X13.  [remove_small_regions] returns an image of the same size in
    which every pixel is the input pixel or (0, 0, 0, 0).  With a
    median filter that keeps a constant mask, an image without a
    transparent pixel comes back unchanged and a fully transparent
    image comes back as (0, 0, 0, 0) everywhere. *)
Theorem remove_small_regions_keeps_or_clears (img : Grid Pixel) (w h : nat) :
  has_size w h img →
  ∃ out,
    remove_small_regions img = Some out ∧ has_size w h out ∧
    (∀ x y, (x < w)%nat → (y < h)%nat →
       ∃ p q, getpixel img x y = Some p ∧ getpixel out x y = Some q ∧
              (q = p ∨ q = (0, 0, 0, 0))) ∧
    ((∀ p, p ∈ cells img → 0 < alpha p) → out = img) ∧
    ((∀ p, p ∈ cells img → alpha p = 0) →
       out = Image_new w h (0, 0, 0, 0)).
Proof.
  intros Himg.
  destruct (remove_small_regions_pixels img w h Himg)
    as (mask & out & Hmask & Hmsz & Hout & Hsz & Hpix).
  exists out. split_and!; [done..| | |].
  - intros x y Hx Hy.
    destruct (Hpix x y Hx Hy) as (m & p & _ & Hp & _ & Hq).
    exists p. eexists. split_and!; [done|exact Hq|].
    destruct (128 <? m); auto.
  - intros Hopaque. apply (grid_ext _ _ w h); [done..|].
    intros x y Hx Hy.
    destruct (Hpix x y Hx Hy) as (m & p & Hm & Hp & Hv & Hq).
    assert (full w h mask) as Hfull.
    { intros x' y' Hx' Hy'.
      destruct (Hpix x' y' Hx' Hy') as (m' & p' & _ & Hp' & Hv' & _).
      rewrite Hv'. destruct (getpixel_in_bounds img w h x' y' p' Himg Hp')
        as (_ & _ & Hin).
      specialize (Hopaque p' Hin).
      by destruct (Z.ltb_spec 0 (alpha p')); [|lia]. }
    rewrite (MedianFilter3_full w h mask Hmsz Hfull x y Hx Hy) in Hm.
    injection Hm as <-. by rewrite Hq, Hp.
  - intros Hclear. apply (grid_ext _ _ w h); [done|apply has_size_new|].
    intros x y Hx Hy.
    destruct (Hpix x y Hx Hy) as (m & p & Hm & Hp & Hv & Hq).
    assert (blank w h mask) as Hblank.
    { intros x' y' Hx' Hy'.
      destruct (Hpix x' y' Hx' Hy') as (m' & p' & _ & Hp' & Hv' & _).
      rewrite Hv'. destruct (getpixel_in_bounds img w h x' y' p' Himg Hp')
        as (_ & _ & Hin).
      by rewrite (Hclear p' Hin). }
    rewrite (MedianFilter3_blank w h mask Hmsz Hblank x y Hx Hy) in Hm.
    injection Hm as <-. rewrite Hq. simpl. by rewrite getpixel_new.
Qed.

End RegionExtras.

Lemma remove_small_regions_keeps_or_clears_witness :
  has_size 2 2 (convert_RGBA flat_block) ∧
  remove_small_regions (H:=reference_PIL) (convert_RGBA flat_block)
  = Some (convert_RGBA flat_block).
Proof.
  split; [exact image_ok_convert_flat_block|].
  destruct (remove_small_regions_keeps_or_clears
              (HL:=reference_PIL_laws) (HF:=reference_PIL_full_laws)
              (HB:=reference_PIL_blank_laws)
              (convert_RGBA flat_block) 2 2 image_ok_convert_flat_block)
    as (out & Hout & _ & _ & Hopaque & _).
  rewrite Hout. f_equal. apply Hopaque.
  intros p Hp. vm_compute in Hp.
  repeat (apply elem_of_cons in Hp as [-> |Hp]; [done|]).
  by apply elem_of_nil in Hp.
Defined.

Section Strategy4Extras.
Context {F : Float64} {FL : Float64Laws F} {P : PIL} {HL : PILLaws P}.

(** X14.  The body of strategy 4 raises exactly when the smaller side
    of the image is below 20.  When it returns, the result has the size
    of the input, the background colour is a pixel of the image, every
    pixel for which the test [color_distance < tolerance] holds is
    transparent in the result, every pixel for which it fails is the
    input pixel or (0, 0, 0, 0), every pixel of the result is the input
    pixel, (0, 0, 0, 0) or (255, 255, 255, 0), and at least one pixel
    of the result is transparent: the one the background colour was
    sampled from. *)
Theorem strategy4_body_behaviour (img : Grid Pixel) (w h : nat) :
  has_size w h img →
  (smart_v2_body img = None ↔ (Nat.min w h < 20)%nat) ∧
  ∀ out, smart_v2_body img = Some out →
    has_size w h out ∧
    ∃ samples bg_color,
      sample_points img = Some samples ∧
      most_common_color samples = Some bg_color ∧
      pixel_of img bg_color ∧
      (∀ x y, (x < w)%nat → (y < h)%nat →
         ∃ item q,
           getpixel img x y = Some item ∧ getpixel out x y = Some q ∧
           (within_tolerance w h x y item bg_color = true →
              alpha q = 0) ∧
           (within_tolerance w h x y item bg_color = false →
              q = item ∨ q = (0, 0, 0, 0)) ∧
           (q = item ∨ q = (0, 0, 0, 0) ∨ q = (255, 255, 255, 0))) ∧
      ∃ x y q, getpixel out x y = Some q ∧ alpha q = 0.
Proof.
  intros Himg.
  assert ((Nat.min w h < 20)%nat → smart_v2_body img = None) as Hsmall.
  { intros Hlt. apply smart_v2_body_small.
    destruct Himg as (-> & -> & _). done. }
  assert ((20 ≤ Nat.min w h)%nat →
    ∃ out, smart_v2_body img = Some out ∧
      has_size w h out ∧
      ∃ samples bg_color,
        sample_points img = Some samples ∧
        most_common_color samples = Some bg_color ∧
        pixel_of img bg_color ∧
        (∀ x y, (x < w)%nat → (y < h)%nat →
           ∃ item q,
             getpixel img x y = Some item ∧ getpixel out x y = Some q ∧
             (within_tolerance w h x y item bg_color = true →
                alpha q = 0) ∧
             (within_tolerance w h x y item bg_color = false →
                q = item ∨ q = (0, 0, 0, 0)) ∧
             (q = item ∨ q = (0, 0, 0, 0) ∨ q = (255, 255, 255, 0))) ∧
        ∃ x y q, getpixel out x y = Some q ∧ alpha q = 0) as Hbig.
  { intros Hbig.
    destruct (smart_v2_body_pixels img w h Himg Hbig)
      as (samples & bg_color & out & Hs & Hbg & Hpix & Hout & Hsz & Hq).
    exists out. split_and!; [done..|].
    exists samples, bg_color. split_and!; [done..| |].
    - intros x y Hx Hy.
      destruct (Hq x y Hx Hy) as (item & q & Hitem & Hget & Hcase).
      exists item, q. split_and!; [done..| | |].
      + intros Hnear.
        rewrite Hnear in Hcase. by destruct Hcase as [-> | ->].
      + intros Hfar.
        rewrite Hfar in Hcase. destruct Hcase as [-> | ->]; auto.
      + destruct (within_tolerance w h x y item bg_color);
          destruct Hcase as [-> | ->]; auto.
    - destruct Hpix as (x & y & Hxy).
      destruct (getpixel_in_bounds img w h x y bg_color Himg Hxy)
        as (Hx & Hy & _).
      destruct (Hq x y Hx Hy) as (item & q & Hitem & Hget & Hcase).
      assert (item = bg_color) as -> by congruence.
      rewrite within_tolerance_same in Hcase; [|done..].
      exists x, y, q. split; [done|]. by destruct Hcase as [-> | ->]. }
  split.
  - split; [|done]. intros Hnone.
    destruct (decide (Nat.min w h < 20)%nat) as [|Hge]; [done|].
    destruct Hbig as (out & Hout & _); [lia|]. congruence.
  - intros out Hout.
    destruct (decide (Nat.min w h < 20)%nat) as [Hlt|Hge].
    { rewrite Hsmall in Hout by done. done. }
    destruct Hbig as (out' & Hout' & Hrest); [lia|].
    assert (out' = out) as -> by congruence. done.
Qed.

End Strategy4Extras.

Lemma strategy4_body_behaviour_witness :
  has_size 20 20 (convert_RGBA flat_tile) ∧
  is_Some (smart_v2_body (F:=real_arithmetic) (H:=reference_PIL)
             (convert_RGBA flat_tile)).
Proof.
  split; [exact has_size_flat_tile|].
  destruct (strategy4_body_behaviour (FL:=real_arithmetic_laws)
              (HL:=reference_PIL_laws)
              (convert_RGBA flat_tile) 20 20 has_size_flat_tile)
    as [Hnone _].
  destruct (smart_v2_body (F:=real_arithmetic) (H:=reference_PIL)
              (convert_RGBA flat_tile))
    as [out|]; [by eexists|].
  destruct Hnone as [Hnone _]. specialize (Hnone eq_refl). simpl in Hnone.
  lia.
Defined.

Section UniformExtras.
Context {F : Float64} {FL : Float64Laws F}.
Context {P : PIL} {HL : PILLaws P} {HB : PILBlankLaws P}.

(** X15.  An upload of one colour comes back fully transparent from
    the selector "color", and from the selector "white" when both sides
    are at least 20 pixels, for every backend whose median filter and
    blur keep an all-zero mask all-zero. *)
Theorem uniform_upload_is_cleared (fs : gmap string Image) (path : string)
    (img : Image) (c : RGB) :
  fs !! path = Some img → image_ok img →
  uniform_rgb (convert_RGBA img) c →
  let w := image_width img in
  let h := image_height img in
  (∃ out, home_process fs (Some "color") path = Some out ∧
          has_size w h out ∧ fully_transparent w h out) ∧
  ((20 ≤ Nat.min w h)%nat →
   ∃ out, home_process fs (Some "white") path = Some out ∧
          has_size w h out ∧ fully_transparent w h out).
Proof.
  intros Hopen Hok Hc w h.
  pose proof (home_process_readable fs grabcut_simulation
    color_clustering_removal advanced_edge_segmentation smart_v2_body
    (Some "color") path img Hopen) as (_ & _ & _ & Hcolor).
  pose proof (home_process_readable fs grabcut_simulation
    color_clustering_removal advanced_edge_segmentation smart_v2_body
    (Some "white") path img Hopen) as (Hwhite & _).
  cbv zeta in Hcolor, Hwhite.
  fold (home_process fs (Some "color") path) in Hcolor.
  fold (home_process fs (Some "white") path) in Hwhite.
  split.
  - rewrite Hcolor by done. by apply (uniform_color_clustering img c).
  - intros Hbig. rewrite Hwhite by done.
    destruct (uniform_smart_background_removal_v2 fs path img c)
      as (out & Hout & Hsz & Hclear); [done..|].
    exists out. split_and!; [|done..].
    unfold smart_background_removal_v2 in Hout.
    by rewrite (smart_background_removal_v2_readable fs _ path img Hopen)
      in Hout.
Qed.

End UniformExtras.

Lemma uniform_upload_is_cleared_witness :
  uploads flat_tile !! "upload.png" = Some flat_tile ∧
  image_ok flat_tile ∧
  uniform_rgb (convert_RGBA flat_tile) (10, 20, 30) ∧
  (20 ≤ Nat.min (image_width flat_tile) (image_height flat_tile))%nat ∧
  ∃ out, home_process (F:=real_arithmetic) (H:=reference_PIL)
           (uploads flat_tile) (Some "white") "upload.png" = Some out ∧
         fully_transparent 20 20 out.
Proof.
  assert (uploads flat_tile !! "upload.png" = Some flat_tile) as Hopen
    by (by vm_compute).
  assert (20 ≤ Nat.min (image_width flat_tile) (image_height flat_tile))%nat
    as Hbig by (simpl; lia).
  split_and!;
    [exact Hopen|exact image_ok_flat_tile|exact uniform_rgb_flat_tile
    |exact Hbig|].
  destruct (uniform_upload_is_cleared (FL:=real_arithmetic_laws)
              (HL:=reference_PIL_laws)
              (HB:=reference_PIL_blank_laws) (uploads flat_tile)
              "upload.png" flat_tile (10, 20, 30) Hopen image_ok_flat_tile
              uniform_rgb_flat_tile) as [_ Hwhite].
  destruct (Hwhite Hbig) as (out & Hout & _ & Hclear).
  exists out. exact (conj Hout Hclear).
Defined.

(** ** The engine as a whole *)

Lemma kept_or_blank_cleared p q : kept_or_blank p q → kept_or_cleared p q.
Proof. unfold kept_or_blank, kept_or_cleared. tauto. Qed.

Lemma voters_of_copies (p : Pixel) (ps : list Pixel) :
  Forall (kept_or_blank p) ps → Forall (λ q, q = p) (voters ps).
Proof.
  intros Hall. unfold voters. apply List.Forall_forall.
  intros q [Hin Hvote]%List.filter_In.
  rewrite Forall_forall in Hall. apply list_elem_of_In in Hin.
  destruct (Hall q Hin) as [->| ->]; [done|]. done.
Qed.

Section StrategyPixels.
Context {F : Float64} {P : PIL} {HL : PILLaws P}.

Lemma grabcut_simulation_pixels img r1 :
  image_ok img → grabcut_simulation img = Some r1 →
  has_size (image_width img) (image_height img) r1 ∧
  ∀ x y, (x < image_width img)%nat → (y < image_height img)%nat →
    ∃ p q, getpixel (convert_RGBA img) x y = Some p ∧
           getpixel r1 x y = Some q ∧ kept_or_blank p q.
Proof.
  intros Hok Hr1.
  destruct (multiband img) eqn:Hmb.
  2:{ destruct img; try done.
      by rewrite grabcut_simulation_single_band in Hr1. }
  destruct (grabcut_simulation_spec img Hok Hmb)
    as (mask & out & _ & Hout & Hsz & Hpix).
  assert (out = r1) as -> by congruence.
  split; [done|]. intros x y Hx Hy.
  destruct (Hpix x y Hx Hy) as (m & p & _ & Hp & Hq).
  exists p. eexists. split_and!; [done|exact Hq|].
  unfold kept_or_blank. destruct (128 <? m); auto.
Qed.

Lemma color_clustering_removal_pixels img :
  image_ok img →
  ∃ r2, color_clustering_removal img = Some r2 ∧
    has_size (image_width img) (image_height img) r2 ∧
    ∀ x y, (x < image_width img)%nat → (y < image_height img)%nat →
      ∃ p q, getpixel (convert_RGBA img) x y = Some p ∧
             getpixel r2 x y = Some q ∧ kept_or_blank p q.
Proof.
  intros Hok.
  destruct (color_clustering_removal_spec img Hok)
    as (mask & out & _ & Hout & Hsz & Hpix).
  exists out. split_and!; [done..|]. intros x y Hx Hy.
  destruct (Hpix x y Hx Hy) as (m & p & _ & Hp & Hq).
  exists p. eexists. split_and!; [done|exact Hq|].
  unfold kept_or_blank. destruct (100 <? m); auto.
Qed.

Lemma advanced_edge_segmentation_kept_or_blank img :
  image_ok img →
  ∃ r3, advanced_edge_segmentation img = Some r3 ∧
    has_size (image_width img) (image_height img) r3 ∧
    ∀ x y, (x < image_width img)%nat → (y < image_height img)%nat →
      ∃ p q, getpixel (convert_RGBA img) x y = Some p ∧
             getpixel r3 x y = Some q ∧ kept_or_blank p q.
Proof.
  intros Hok.
  destruct (advanced_edge_segmentation_pixels img Hok)
    as (out & Hout & Hsz & Hpix).
  exists out. split_and!; [done..|]. intros x y Hx Hy.
  destruct (Hpix x y Hx Hy) as (p & Hp & Hq).
  exists p. eexists. split_and!; [done|exact Hq|].
  unfold kept_or_blank. destruct (near_edge _); auto.
Qed.

(** The ensemble: the voters at a position are copies of the source
    pixel, so the average the combiner writes is the source pixel. *)
Lemma ensemble_pixels img out :
  image_ok img →
  ensemble grabcut_simulation color_clustering_removal
    advanced_edge_segmentation img = Some out →
  ∃ r1 r2 r3,
    grabcut_simulation img = Some r1 ∧
    color_clustering_removal img = Some r2 ∧
    advanced_edge_segmentation img = Some r3 ∧
    has_size (image_width img) (image_height img) out ∧
    ∀ x y, (x < image_width img)%nat → (y < image_height img)%nat →
      ∃ p p1 p2 p3,
        getpixel (convert_RGBA img) x y = Some p ∧
        getpixel r1 x y = Some p1 ∧ getpixel r2 x y = Some p2 ∧
        getpixel r3 x y = Some p3 ∧
        kept_or_blank p p1 ∧ kept_or_blank p p2 ∧ kept_or_blank p p3 ∧
        getpixel out x y =
          Some (if 2 <=? Z.of_nat (length (voters [p1; p2; p3]))
                then p else (0, 0, 0, 0)).
Proof.
  intros Hok. unfold ensemble.
  destruct (grabcut_simulation img) as [r1|] eqn:H1; [|done].
  destruct (color_clustering_removal_pixels img Hok)
    as (r2 & H2 & Hsz2 & Hpix2).
  destruct (advanced_edge_segmentation_kept_or_blank img Hok)
    as (r3 & H3 & Hsz3 & Hpix3).
  destruct (grabcut_simulation_pixels img r1 Hok H1) as (Hsz1 & Hpix1).
  rewrite H2, H3. cbn [mbind option_bind]. intros Hout.
  destruct (combine_results_pixels [r1; r2; r3] (convert_RGBA img)
              (image_width img) (image_height img))
    as (out' & Hout' & Hsz & Hpix);
    [by repeat apply Forall_cons_2|by apply image_ok_convert_RGBA|].
  assert (out' = out) as -> by congruence.
  exists r1, r2, r3. split_and!; [done..|]. intros x y Hx Hy.
  destruct (Hpix1 x y Hx Hy) as (p & p1 & Hp & Hp1 & Hk1).
  destruct (Hpix2 x y Hx Hy) as (p' & p2 & Hp' & Hp2 & Hk2).
  assert (p' = p) as -> by congruence.
  destruct (Hpix3 x y Hx Hy) as (p' & p3 & Hp'' & Hp3 & Hk3).
  assert (p' = p) as -> by congruence.
  exists p, p1, p2, p3. split_and!; [done..|].
  destruct (Hpix x y Hx Hy) as (ps & Hps & Hq).
  unfold pixels_at in Hps. cbn [mapM] in Hps.
  rewrite Hp1, Hp2, Hp3 in Hps. cbn in Hps. injection Hps as <-.
  rewrite Hq.
  destruct (Z.leb_spec 2 (Z.of_nat (length (voters [p1; p2; p3]))))
    as [Hn|Hn]; [|done].
  f_equal. apply average_same.
  - intros Hnil. rewrite Hnil in Hn. simpl in Hn. lia.
  - apply voters_of_copies. by repeat apply Forall_cons_2.
Qed.

Lemma smart_v2_body_kept_or_cleared (img out : Grid Pixel) w h :
  has_size w h img → smart_v2_body img = Some out →
  has_size w h out ∧
  ∀ x y, (x < w)%nat → (y < h)%nat →
    ∃ p q, getpixel img x y = Some p ∧ getpixel out x y = Some q ∧
           kept_or_cleared p q.
Proof.
  intros Himg Hout.
  destruct (decide (Nat.min w h < 20)%nat) as [Hlt|Hge].
  { rewrite smart_v2_body_small in Hout; [done|].
    destruct Himg as (-> & -> & _). done. }
  destruct (smart_v2_body_pixels img w h Himg)
    as (samples & bg_color & out' & _ & _ & _ & Hout' & Hsz & Hq); [lia|].
  assert (out' = out) as -> by congruence.
  split; [done|]. intros x y Hx Hy.
  destruct (Hq x y Hx Hy) as (item & q & Hitem & Hget & Hcase).
  exists item, q. split_and!; [done..|].
  unfold kept_or_cleared.
  destruct (within_tolerance w h x y item bg_color);
    destruct Hcase as [-> | ->]; auto.
Qed.

Lemma strategy4_result_kept_or_cleared img :
  image_ok img →
  has_size (image_width img) (image_height img)
    (strategy4_result smart_v2_body img) ∧
  ∀ x y, (x < image_width img)%nat → (y < image_height img)%nat →
    ∃ p q, getpixel (convert_RGBA img) x y = Some p ∧
           getpixel (strategy4_result smart_v2_body img) x y = Some q ∧
           kept_or_cleared p q.
Proof.
  intros Hok. pose proof (image_ok_convert_RGBA img Hok) as Hconv.
  unfold strategy4_result.
  destruct (smart_v2_body (convert_RGBA img)) as [out|] eqn:Hout; simpl.
  - by apply (smart_v2_body_kept_or_cleared (convert_RGBA img)).
  - split; [done|]. intros x y Hx Hy.
    destruct (getpixel_is_Some (convert_RGBA img) _ _ x y Hconv)
      as [p Hp]; [done..|].
    exists p, p. split_and!; [done..|]. by left.
Qed.

(** X16.  The engine never changes a colour: for every readable
    upload and every selector it returns an image of the size of the
    upload in which each pixel is the pixel of the upload (converted to
    RGBA), (0, 0, 0, 0) or (255, 255, 255, 0).  The averaging of the
    combiner is invisible, because the voters at a position are copies
    of one pixel. *)
Theorem engine_never_recolours (fs : gmap string Image)
    (method : option string) (path : string) (img : Image) :
  fs !! path = Some img → image_ok img →
  ∃ out,
    home_process fs method path = Some out ∧
    has_size (image_width img) (image_height img) out ∧
    ∀ x y, (x < image_width img)%nat → (y < image_height img)%nat →
      ∃ p q, getpixel (convert_RGBA img) x y = Some p ∧
             getpixel out x y = Some q ∧
             (q = p ∨ q = (0, 0, 0, 0) ∨ q = (255, 255, 255, 0)).
Proof.
  intros Hopen Hok.
  change (∃ out,
    home_process fs method path = Some out ∧
    has_size (image_width img) (image_height img) out ∧
    ∀ x y, (x < image_width img)%nat → (y < image_height img)%nat →
      ∃ p q, getpixel (convert_RGBA img) x y = Some p ∧
             getpixel out x y = Some q ∧ kept_or_cleared p q).
  pose proof (home_process_readable fs grabcut_simulation
    color_clustering_removal advanced_edge_segmentation smart_v2_body
    method path img Hopen) as (Hwhite & Hdefault & Hedge & Hcolor).
  cbv zeta in Hwhite, Hdefault, Hedge, Hcolor.
  fold (home_process fs method path) in Hwhite, Hdefault, Hedge, Hcolor.
  destruct (strategy4_result_kept_or_cleared img Hok) as (Hsz4 & Hpix4).
  destruct (decide (method = Some "white")) as [Hm|Hnw].
  { rewrite Hwhite by done. eauto. }
  destruct (decide (method = Some "edge")) as [Hm|Hne].
  { rewrite Hedge by done.
    destruct (advanced_edge_segmentation_kept_or_blank img Hok)
      as (r3 & H3 & Hsz3 & Hpix3).
    exists r3. split_and!; [done..|]. intros x y Hx Hy.
    destruct (Hpix3 x y Hx Hy) as (p & q & Hp & Hq & Hk).
    exists p, q. split_and!; [done..|]. by apply kept_or_blank_cleared. }
  destruct (decide (method = Some "color")) as [Hm|Hnc].
  { rewrite Hcolor by done.
    destruct (color_clustering_removal_pixels img Hok)
      as (r2 & H2 & Hsz2 & Hpix2).
    exists r2. split_and!; [done..|]. intros x y Hx Hy.
    destruct (Hpix2 x y Hx Hy) as (p & q & Hp & Hq & Hk).
    exists p, q. split_and!; [done..|]. by apply kept_or_blank_cleared. }
  rewrite Hdefault by (intros [?|[?|?]]; done).
  destruct (ensemble _ _ _ img) as [out|] eqn:Hens; simpl; [|eauto].
  destruct (ensemble_pixels img out Hok Hens)
    as (r1 & r2 & r3 & _ & _ & _ & Hsz & Hpix).
  exists out. split_and!; [done..|]. intros x y Hx Hy.
  destruct (Hpix x y Hx Hy)
    as (p & p1 & p2 & p3 & Hp & _ & _ & _ & _ & _ & _ & Hq).
  exists p. eexists. split_and!; [done|exact Hq|].
  unfold kept_or_cleared. destruct (2 <=? _); auto.
Qed.

End StrategyPixels.

Section EnsembleExtras.
Context {F : Float64}.
Context {P : PIL} {HL : PILLaws P} {HF : PILFullLaws P}.

(** X17.  On an image with several bands the ensemble never falls
    back: strategy 1 votes for every non-transparent pixel, so the
    default selector keeps a pixel, unchanged, exactly when strategy 2
    or strategy 3 keeps it, and writes (0, 0, 0, 0) elsewhere. *)
Theorem ensemble_keeps_what_strategy_2_or_3_keeps
    (fs : gmap string Image) (path : string) (img : Image) :
  fs !! path = Some img → image_ok img → multiband img = true →
  ∃ r2 r3 out,
    color_clustering_removal img = Some r2 ∧
    advanced_edge_segmentation img = Some r3 ∧
    advanced_background_removal fs path = Some out ∧
    home_process fs None path = Some out ∧
    ∀ x y, (x < image_width img)%nat → (y < image_height img)%nat →
      ∃ p p2 p3,
        getpixel (convert_RGBA img) x y = Some p ∧
        getpixel r2 x y = Some p2 ∧ getpixel r3 x y = Some p3 ∧
        getpixel out x y =
          Some (if (0 <? alpha p2) || (0 <? alpha p3)
                then p else (0, 0, 0, 0)).
Proof.
  intros Hopen Hok Hmb.
  pose proof (grabcut_simulation_identity img Hok Hmb) as H1.
  destruct (color_clustering_removal_pixels img Hok)
    as (r2 & H2 & Hsz2 & _).
  destruct (advanced_edge_segmentation_kept_or_blank img Hok)
    as (r3 & H3 & Hsz3 & _).
  pose proof (image_ok_convert_RGBA img Hok) as Hconv.
  destruct (combine_results_pixels [convert_RGBA img; r2; r3]
              (convert_RGBA img) (image_width img) (image_height img))
    as (out & Hout & _ & _); [by repeat apply Forall_cons_2|done|].
  assert (ensemble grabcut_simulation color_clustering_removal
            advanced_edge_segmentation img = Some out) as Hens.
  { unfold ensemble. rewrite H1, H2, H3. exact Hout. }
  assert (advanced_background_removal fs path = Some out) as Hadv.
  { unfold advanced_background_removal.
    rewrite (advanced_background_removal_readable fs _ _ _ _ path img Hopen).
    by rewrite Hens. }
  exists r2, r3, out. split_and!; [done..| |].
  { unfold home_process. rewrite home_process_default; [exact Hadv|].
    intros [?|[?|?]]; discriminate. }
  destruct (ensemble_pixels img out Hok Hens)
    as (r1' & r2' & r3' & H1' & H2' & H3' & _ & Hpix).
  assert (r1' = convert_RGBA img) as -> by congruence.
  assert (r2' = r2) as -> by congruence.
  assert (r3' = r3) as -> by congruence.
  intros x y Hx Hy.
  destruct (Hpix x y Hx Hy)
    as (p & p1 & p2 & p3 & Hp & Hp1 & Hp2 & Hp3 & _ & Hk2 & Hk3 & Hq).
  assert (p1 = p) as -> by congruence.
  exists p, p2, p3. split_and!; [done..|]. rewrite Hq. f_equal.
  unfold voters. cbn [List.filter].
  destruct Hk2 as [-> | ->], Hk3 as [-> | ->];
    destruct (0 <? alpha p) eqn:Ha; simpl; try rewrite Ha; done.
Qed.

End EnsembleExtras.

Lemma ensemble_keeps_what_strategy_2_or_3_keeps_witness :
  uploads flat_block !! "upload.png" = Some flat_block ∧
  image_ok flat_block ∧ multiband flat_block = true ∧
  ∃ out, home_process (F:=real_arithmetic) (H:=reference_PIL)
           (uploads flat_block) None "upload.png" = Some out.
Proof.
  assert (uploads flat_block !! "upload.png" = Some flat_block) as Hopen
    by (by vm_compute).
  split_and!; [exact Hopen|exact image_ok_flat_block|reflexivity|].
  destruct (ensemble_keeps_what_strategy_2_or_3_keeps
              (F:=real_arithmetic) (HL:=reference_PIL_laws)
              (HF:=reference_PIL_full_laws)
              (uploads flat_block) "upload.png" flat_block Hopen
              image_ok_flat_block eq_refl)
    as (r2 & r3 & out & _ & _ & _ & Hhome & _).
  exists out. exact Hhome.
Defined.


Lemma engine_never_recolours_witness :
  uploads flat_block !! "upload.png" = Some flat_block ∧
  image_ok flat_block ∧
  ∃ out p q,
    home_process (F:=real_arithmetic) (H:=reference_PIL)
      (uploads flat_block) (Some "edge") "upload.png" = Some out ∧
    getpixel (convert_RGBA flat_block) 0 0 = Some p ∧
    getpixel out 0 0 = Some q ∧
    (q = p ∨ q = (0, 0, 0, 0) ∨ q = (255, 255, 255, 0)).
Proof.
  assert (uploads flat_block !! "upload.png" = Some flat_block) as Hopen
    by (by vm_compute).
  split_and!; [exact Hopen|exact image_ok_flat_block|].
  destruct (engine_never_recolours (F:=real_arithmetic)
              (HL:=reference_PIL_laws)
              (uploads flat_block) (Some "edge") "upload.png" flat_block
              Hopen image_ok_flat_block) as (out & Hout & _ & Hpix).
  destruct (Hpix 0%nat 0%nat) as (p & q & Hp & Hq & Hcase);
    [simpl; lia..|].
  exists out, p, q. exact (conj Hout (conj Hp (conj Hq Hcase))).
Defined.
